(** * nxs-backup: rotation, delivery and job pipeline, checked against the code

    A shallow embedding of
    - [modules/storage/smb/smb.go] (delivery and rotation on an SMB share),
    - [modules/backup/psql_physical/psql_physical.go] and the mongodump job
      (the per-target pipeline [DoBackup], [Init], [createTmpBackup]),
    followed by the properties the specification states about them.

    Conventions.  A Go [int]/[int64] is a [Z] (the wrap-around is written
    out where the code can reach it), a [time.Time] is the [Z] number of
    ticks since the zero time (so [IsZero t] is [t = 0]; the location of a
    time does not change the instant and [Before] compares instants), a Go
    [string] is a [string] of bytes, a Go [map] is a [gmap] together with the
    order in which [range] visits it, [*multierror.Error] is the list of
    the errors appended so far.  Log records sent on [logCh] change neither
    the share nor the control flow and are left out. *)

From Stdlib Require Import ZArith Ascii String List Lia Permutation Sorted.
From stdpp Require Import base option list gmap strings sorting pretty.

#[local] Open Scope Z_scope.

(** ** The parts of the Go standard library the sources call *)

Module strings.

(** [strings.Split(s, sep)] for a separator of one byte (both calls of
    the sources, ["_"] and ["@"], pass one). *)
Fixpoint Split (s : string) (sep : ascii) : list string :=
  match s with
  | EmptyString => [EmptyString]
  | String c s' =>
      if Ascii.eqb c sep then EmptyString :: Split s' sep
      else match Split s' sep with
           | p :: ps => String c p :: ps
           | [] => [String c EmptyString]
           end
  end.

(** [strings.Join(elems, sep)]. *)
Definition Join (elems : list string) (sep : string) : string :=
  String.concat sep elems.

End strings.

Module strconv.

Definition is_digit (c : ascii) : bool :=
  (48 <=? nat_of_ascii c)%nat && (nat_of_ascii c <=? 57)%nat.

Definition digit_val (c : ascii) : Z := Z.of_nat (nat_of_ascii c) - 48.

(** The value of a string of decimal digits, [None] when the string is
    empty or holds another byte. *)
Fixpoint digits (acc : Z) (s : string) : option Z :=
  match s with
  | EmptyString => Some acc
  | String c s' =>
      if is_digit c then digits (acc * 10 + digit_val c) s' else None
  end.

Definition unsigned (s : string) : option Z :=
  match s with
  | EmptyString => None
  | _ => digits 0 s
  end.

Definition maxInt : Z := 2 ^ 63 - 1.
Definition minInt : Z := - 2 ^ 63.

(** [strconv.Atoi] on a 64-bit platform: the value and whether an error
    came with it.  A syntax error gives 0, a value out of range gives the
    nearest bound; both come with an error. *)
Definition Atoi (s : string) : Z * bool :=
  let parsed :=
    match s with
    | String c r =>
        if Ascii.eqb c "+" then unsigned r
        else if Ascii.eqb c "-" then Z.opp <$> unsigned r
        else unsigned s
    | EmptyString => None
    end in
  match parsed with
  | None => (0, true)
  | Some n =>
      if Z.ltb maxInt n then (maxInt, true)
      else if Z.ltb n minInt then (minInt, true)
      else (n, false)
  end.

End strconv.

Module regexp.

(** The two patterns of the sources, [month_\d\d] and [(-D|--pgdata=)],
    are alternatives of sequences of literal bytes and [\d]. *)
Inductive atom := Lit (c : ascii) | Digit.

Definition atom_ok (a : atom) (c : ascii) : bool :=
  match a with
  | Lit c' => Ascii.eqb c' c
  | Digit => strconv.is_digit c
  end.

Fixpoint match_here (p : list atom) (s : string) : bool :=
  match p with
  | [] => true
  | a :: p' =>
      match s with
      | EmptyString => false
      | String c s' => atom_ok a c && match_here p' s'
      end
  end.

(** The search is not anchored: a match may start at any byte. *)
Fixpoint match_from (p : list atom) (s : string) : bool :=
  match_here p s ||
  match s with
  | EmptyString => false
  | String _ s' => match_from p s'
  end.

Definition Regexp := list (list atom).

Definition MatchString (rx : Regexp) (s : string) : bool :=
  existsb (fun p => match_from p s) rx.

Definition lits (s : string) : list atom := map Lit (list_ascii_of_string s).

End regexp.

Module path.

Definition rooted (p : string) : bool :=
  match p with
  | String c _ => Ascii.eqb c "/"
  | EmptyString => false
  end.

(** The elements of a path, lexically cleaned: empty and ["."] elements
    go, [".."] cancels the element before it, and [".."] at the start of
    a rooted path goes.  [stack] holds the kept elements, last first. *)
Fixpoint clean_elems (root : bool) (stack : list string) (elems : list string)
  : list string :=
  match elems with
  | [] => rev stack
  | e :: es =>
      if String.eqb e "" || String.eqb e "." then clean_elems root stack es
      else if String.eqb e ".." then
        match stack with
        | top :: st =>
            if String.eqb top ".." then clean_elems root (e :: stack) es
            else clean_elems root st es
        | [] =>
            if root then clean_elems root [] es
            else clean_elems root [e] es
        end
      else clean_elems root (e :: stack) es
  end.

(** [path.Clean]. *)
Definition Clean (p : string) : string :=
  let body := strings.Join (clean_elems (rooted p) [] (strings.Split p "/")) "/" in
  if rooted p then "/" +:+ body
  else if String.eqb body "" then "." else body.

(** [path.Join] (and [filepath.Join] with the separator ["/"]). *)
Definition Join (elems : list string) : string :=
  match filter (fun e => e ≠ "") elems with
  | [] => ""
  | ne => Clean (strings.Join ne "/")
  end.

(** [path.Dir] (and [filepath.Dir]): all but the last element. *)
Definition Dir (p : string) : string :=
  match strings.Split p "/" with
  | [] | [_] => Clean ""
  | parts => Clean (strings.Join (removelast parts) "/" +:+ "/")
  end.

(** [path.Base] of a path that does not end in a slash. *)
Definition Base (p : string) : string :=
  List.last (strings.Split p "/") "".

Fixpoint strip_common (b t : list string) : list string * list string :=
  match b, t with
  | x :: b', y :: t' => if String.eqb x y then strip_common b' t' else (b, t)
  | _, _ => (b, t)
  end.

Definition elems_of (p : string) : list string :=
  filter (fun e => e ≠ "") (strings.Split p "/").

(** [filepath.Rel]; the empty string stands for the error result, whose
    path is empty too. *)
Definition Rel (basepath targpath : string) : string :=
  let base := Clean basepath in
  let targ := Clean targpath in
  if String.eqb base targ then "."
  else if negb (Bool.eqb (rooted base) (rooted targ)) then ""
  else
    let b := if String.eqb base "." then [] else elems_of base in
    let '(rb, rt) := strip_common b (elems_of targ) in
    match rb with
    | [] => strings.Join rt "/"
    | x :: _ =>
        if String.eqb x ".." then ""
        else strings.Join (map (fun _ => "..") rb ++ rt) "/"
    end.

End path.

(** ** What the Go runtime leaves open

    [sort.Slice] is not stable and [range] visits a map in an order of its
    own.  The embedding takes both from the runtime and relies on nothing
    but what Go promises: the result of the sort is a rearrangement of its
    input in which no element is before an older one, and [range] visits
    every entry of the map once. *)

Record FileInfo := {
  Name : string;
  IsSymlink : bool;      (* file.Mode()&fs.ModeSymlink != 0 *)
  IsDir : bool;
  ModTime : Z;
}.

Definition older_eq (a b : FileInfo) : Prop := ModTime a <= ModTime b.

Class Runtime := {
  sort_Slice : list FileInfo → list FileInfo;
  sort_Slice_perm l : sort_Slice l ≡ₚ l;
  sort_Slice_sorted l : StronglySorted older_eq (sort_Slice l);
  range_map {V} : gmap string V → list (string * V);
  range_map_perm V (m : gmap string V) : range_map m ≡ₚ map_to_list m;
}.

(** ** The remote share

    [s.share] is a handle to a tree of files, symlinks and directories on
    the server.  The tree is a list of paths with their nodes, in the order
    in which the server lists them.  Any call may fail on the way: [faults]
    says which calls (counted from the start, in [calls]) the transport
    drops.  [journal] records every mutation the client asked for, with its
    outcome, oldest first. *)

#[warnings="-register-all"]
Inductive error : Type :=
| ErrNotExist (p : string)
| ErrExist (p : string)
| ErrNotEmpty (p : string)
| ErrNotLink (p : string)
| ErrIsDir (p : string)
| ErrNotDir (p : string)
| ErrTransport (call : nat)
| ErrLocal (p : string)
| ErrCmd (cmd : string)
| ErrForbidden (job : string)
| ErrWrap (msg : string) (arg : string) (cause : error)
| ErrMulti (es : list error).

Definition IsNotExist (e : error) : bool :=
  match e with
  | ErrNotExist _ => true
  | _ => false
  end.

(** [multierror.Append(errs, err)]: errors of a multi-error are added one
    by one. *)
Definition multierror_Append (errs : list error) (e : error) : list error :=
  match e with
  | ErrMulti es => errs ++ es
  | _ => errs ++ [e]
  end.

(** [if err != nil { errs = multierror.Append(errs, err) }]. *)
Definition noted (errs : list error) (e : option error) : list error :=
  match e with
  | Some err => multierror_Append errs err
  | None => errs
  end.

(** [errs.ErrorOrNil()]. *)
Definition ErrorOrNil (errs : list error) : option error :=
  match errs with
  | [] => None
  | _ => Some (ErrMulti errs)
  end.

Inductive Node :=
| File (mtime : Z) (data : string)
| Link (mtime : Z) (target : string)
| Directory (mtime : Z).

Definition Tree := list (string * Node).

Inductive Mutation :=
| Remove_ (p : string)
| Rename_ (oldPath newPath : string)
| Symlink_ (target p : string)
| RemoveAll_ (p : string)
| MkdirAll_ (p : string)
| Create_ (p : string)
| Write_ (p : string) (data : string).

Record Event := { ev_call : Mutation; ev_ok : bool }.

Record Share := {
  nodes : Tree;
  srvTime : Z;
  faults : nat → bool;
  calls : nat;
  journal : list Event;
}.

Module share.

Fixpoint lookup (p : string) (t : Tree) : option Node :=
  match t with
  | [] => None
  | (q, n) :: t' => if String.eqb q p then Some n else lookup p t'
  end.

Definition remove (p : string) (t : Tree) : Tree :=
  filter (fun e => e.1 ≠ p) t.

(** [q] is below the directory [p]. *)
Definition below (p q : string) : bool := String.prefix (p +:+ "/") q.

Definition has_children (p : string) (t : Tree) : bool :=
  existsb (fun e => below p e.1) t.

Definition remove_tree (p : string) (t : Tree) : Tree :=
  filter (fun e => e.1 ≠ p ∧ below p e.1 = false) t.

Definition rekey (oldPath newPath q : string) : string :=
  if String.eqb q oldPath then newPath
  else if below oldPath q
       then newPath +:+ String.substring (String.length oldPath)
                          (String.length q - String.length oldPath) q
       else q.

Definition mtime_of (n : Node) : Z :=
  match n with
  | File m _ | Link m _ | Directory m => m
  end.

Definition info (q : string) (n : Node) : FileInfo :=
  {| Name := path.Base q;
     IsSymlink := match n with Link _ _ => true | _ => false end;
     IsDir := match n with Directory _ => true | _ => false end;
     ModTime := mtime_of n |}.

Definition entries (dir : string) (t : Tree) : list FileInfo :=
  omap (fun e => if String.eqb (path.Dir e.1) dir && negb (String.eqb e.1 dir)
                 then Some (info e.1 e.2) else None) t.

(** The directories [p], its parent, and so on up to the root. *)
Fixpoint ancestors (fuel : nat) (p : string) : list string :=
  match fuel with
  | O => []
  | S f =>
      if String.eqb p "." || String.eqb p "/" || String.eqb p "" then []
      else ancestors f (path.Dir p) ++ [p]
  end.

Definition mkdir (now : Z) (t : Tree) (p : string) : Tree :=
  match lookup p t with
  | Some _ => t
  | None => t ++ [(p, Directory now)]
  end.

Definition blocked (t : Tree) (p : string) : bool :=
  match lookup p t with
  | Some (Directory _) | None => false
  | Some _ => true
  end.

(** What each mutation does to the tree when the call reaches the
    server.  A path that names no entry cannot be removed or renamed; the
    empty path names none (the root of the share is not an entry), so
    removing it fails.  A rename does not replace an entry. *)
Definition apply (now : Z) (m : Mutation) (t : Tree) : error + Tree :=
  match m with
  | Remove_ p =>
      match lookup p t with
      | None => inl (ErrNotExist p)
      | Some (Directory _) =>
          if has_children p t then inl (ErrNotEmpty p) else inr (remove p t)
      | Some _ => inr (remove p t)
      end
  | Rename_ o n =>
      match lookup o t, lookup n t with
      | None, _ => inl (ErrNotExist o)
      | Some _, Some _ => inl (ErrExist n)
      | Some _, None => inr (map (fun e => (rekey o n e.1, e.2)) t)
      end
  | Symlink_ target p =>
      match lookup p t with
      | Some _ => inl (ErrExist p)
      | None => inr (t ++ [(p, Link now target)])
      end
  | RemoveAll_ p => inr (remove_tree p t)
  | MkdirAll_ p =>
      let dirs := ancestors (S (String.length p)) (path.Clean p) in
      match List.find (blocked t) dirs with
      | Some d => inl (ErrNotDir d)
      | None => inr (fold_left (mkdir now) dirs t)
      end
  | Create_ p =>
      match lookup p t with
      | Some (Directory _) => inl (ErrIsDir p)
      | Some _ => inr (map (fun e => if String.eqb e.1 p then (p, File now "") else e) t)
      | None => inr (t ++ [(p, File now "")])
      end
  | Write_ p data =>
      match lookup p t with
      | Some (File _ old) =>
          inr (map (fun e => if String.eqb e.1 p then (p, File now (old +:+ data)) else e) t)
      | Some _ => inl (ErrIsDir p)
      | None => inl (ErrNotExist p)
      end
  end.

Definition called (sh : Share) (t : Tree) (j : list Event) : Share :=
  {| nodes := t; srvTime := srvTime sh; faults := faults sh;
     calls := S (calls sh); journal := j |}.

(** One mutating call: dropped by the transport, refused by the server,
    or done. *)
Definition mutate (m : Mutation) (sh : Share) : option error * Share :=
  if faults sh (calls sh) then
    (Some (ErrTransport (calls sh)),
     called sh (nodes sh) (journal sh ++ [{| ev_call := m; ev_ok := false |}]))
  else
    match apply (srvTime sh) m (nodes sh) with
    | inl e => (Some e, called sh (nodes sh) (journal sh ++ [{| ev_call := m; ev_ok := false |}]))
    | inr t => (None, called sh t (journal sh ++ [{| ev_call := m; ev_ok := true |}]))
    end.

Definition Remove (p : string) := mutate (Remove_ p).
Definition Rename (o n : string) := mutate (Rename_ o n).
Definition Symlink (target p : string) := mutate (Symlink_ target p).
Definition RemoveAll (p : string) := mutate (RemoveAll_ p).
Definition MkdirAll (p : string) := mutate (MkdirAll_ p).

Definition ReadDir (dir : string) (sh : Share) : (error + list FileInfo) * Share :=
  let sh' := called sh (nodes sh) (journal sh) in
  if faults sh (calls sh) then (inl (ErrTransport (calls sh)), sh')
  else match lookup dir (nodes sh) with
       | Some (Directory _) => (inr (entries dir (nodes sh)), sh')
       | Some _ => (inl (ErrNotDir dir), sh')
       | None => (inl (ErrNotExist dir), sh')
       end.

Definition Readlink (p : string) (sh : Share) : (error + string) * Share :=
  let sh' := called sh (nodes sh) (journal sh) in
  if faults sh (calls sh) then (inl (ErrTransport (calls sh)), sh')
  else match lookup p (nodes sh) with
       | Some (Link _ target) => (inr target, sh')
       | Some _ => (inl (ErrNotLink p), sh')
       | None => (inl (ErrNotExist p), sh')
       end.

End share.

(** ** modules/storage: retention (declared outside the files at hand) *)

Inductive RetentionPeriod := Hourly | Daily | Weekly | Monthly | Yearly.

#[global] Instance RetentionPeriod_eq_dec : EqDecision RetentionPeriod.
Proof. solve_decision. Defined.

(** Modelled from the spec: the [String] method of a retention period, which
    is declared in modules/storage; the buckets are string-named [hourly],
    [daily], [weekly], [monthly], [yearly]. *)
Definition period_String (p : RetentionPeriod) : string :=
  match p with
  | Hourly => "hourly"
  | Daily => "daily"
  | Weekly => "weekly"
  | Monthly => "monthly"
  | Yearly => "yearly"
  end.

(** Modelled from the spec: [RetentionPeriodsList], declared in
    modules/storage; the buckets are visited in the order yearly, monthly,
    weekly, daily, hourly. *)
Definition RetentionPeriodsList : list RetentionPeriod :=
  [Yearly; Monthly; Weekly; Daily; Hourly].

(** Modelled from the spec: the [Retention] policy, declared in
    modules/storage.  [UseCount] and [Months] are the fields the sources
    read; [bucket] holds, for every bucket, the pair that [GetRetention]
    returns for it: the count to keep and the date before which entries are
    outdated (0 and the zero time for an unused bucket). *)
Record Retention := {
  UseCount : bool;
  Months : Z;
  bucket : RetentionPeriod → Z * Z;
}.

Definition GetRetention (p : RetentionPeriod) (r : Retention) : Z * Z := bucket r p.

Definition IsZero (t : Z) : bool := Z.eqb t 0.

(** The wrap-around of a signed 64-bit [int]. *)
Definition wrap64 (z : Z) : Z := (z + 2 ^ 63) mod 2 ^ 64 - 2 ^ 63.

(** What a call leaves behind: it returns, or the goroutine panics. *)
Inductive Outcome (A : Type) :=
| Returned (a : A)
| Panicked.
Arguments Returned {A} a.
Arguments Panicked {A}.

(** The view of a job that the storage reads through [interfaces.Job]. *)
Record JobView := {
  GetName : string;
  GetType : string;
  IsBackupSafety : bool;
}.

(** Modelled from the spec: the backup type constant [misc.IncFiles],
    declared in misc; the type of incremental file jobs is [inc_files]. *)
Definition IncFiles : string := "inc_files".

Module smb.

Record SMB := {
  name : string;
  backupPath : string;
  rateLimit : Z;
  rotateEnabled : bool;
  retention : Retention;
}.

(** [moveFile]: the link at [newPath] goes, then the file takes its
    place. *)
Definition moveFile (oldPath newPath : string) (sh : Share) : option error * Share :=
  match share.Remove newPath sh with
  | (Some err, sh1) =>
      (Some (ErrWrap "Failed to delete file" oldPath err), sh1)
  | (None, sh1) =>
      match share.Rename oldPath newPath sh1 with
      | (Some err, sh2) =>
          (Some (ErrWrap "Failed to move file" oldPath err), sh2)
      | (None, sh2) => (None, sh2)
      end
  end.

(** The local [fileLinks] struct.  The two maps of [deleteDescBackup]
    hold pointers to such structs: [cells] is the store they point into,
    a pointer is an index, [None] is the nil pointer. *)
Record fileLinks := { wLink : string; dLink : string }.

Record Links := {
  cells : list fileLinks;
  filesMap : gmap string nat;
  filesToDeleteMap : gmap string (option nat);
}.

Definition no_links : Links :=
  {| cells := []; filesMap := ∅; filesToDeleteMap := ∅ |}.

Definition set_link (p : RetentionPeriod) (fPath : string) (fl : fileLinks) : fileLinks :=
  match p with
  | Weekly => {| wLink := fPath; dLink := dLink fl |}
  | Daily => {| wLink := wLink fl; dLink := fPath |}
  | _ => fl
  end.

(** Lines 210-233: every entry of the bucket gets a fresh [fileLinks];
    a symlink is first recorded in the struct of the file it points to,
    when that file was seen before. *)
Fixpoint scan (p : RetentionPeriod) (bakDir : string) (smbFiles : list FileInfo)
    (ls : Links) (errs : list error) (sh : Share) : Links * list error * Share :=
  match smbFiles with
  | [] => (ls, errs, sh)
  | file :: rest =>
      let fPath := path.Join [bakDir; Name file] in
      let fresh (ls : Links) : Links :=
        {| cells := cells ls ++ [{| wLink := ""; dLink := "" |}];
           filesMap := <[fPath := length (cells ls)]> (filesMap ls);
           filesToDeleteMap := filesToDeleteMap ls |} in
      if IsSymlink file then
        match share.Readlink fPath sh with
        | (inl err, sh1) => scan p bakDir rest ls (multierror_Append errs err) sh1
        | (inr link, sh1) =>
            let linkPath := path.Join [bakDir; link] in
            let ls1 :=
              match filesMap ls !! linkPath with
              | Some ptr =>
                  {| cells := alter (set_link p fPath) ptr (cells ls);
                     filesMap := <[linkPath := ptr]> (filesMap ls);
                     filesToDeleteMap := filesToDeleteMap ls |}
              | None => ls
              end in
            scan p bakDir rest (fresh ls1) errs sh1
        end
      else scan p bakDir rest (fresh ls) errs sh
  end.

(** Lines 235-261: the entries of the bucket that are outdated.  The
    slice expression [smbFiles[:len-retentionCount]] panics when its
    bound leaves the slice (the capacity of the slice is taken to be its
    length). *)
Definition outdated `{Runtime} (useCount safety : bool) (retentionCount retentionDate : Z)
    (smbFiles : list FileInfo) : Outcome (list FileInfo) :=
  if useCount then
    let sorted := sort_Slice smbFiles in
    let retentionCount := if negb safety then wrap64 (retentionCount - 1) else retentionCount in
    let len := Z.of_nat (length sorted) in
    if retentionCount <=? len then
      let high := wrap64 (len - retentionCount) in
      if (0 <=? high) && (high <=? len) then Returned (take (Z.to_nat high) sorted)
      else Panicked
    else Returned []
  else
    Returned (filter (fun file => ModTime file < retentionDate) smbFiles).

(** Lines 263-270. *)
Fixpoint mark (bakDir : string) (smbFiles : list FileInfo) (ls : Links) : Links :=
  match smbFiles with
  | [] => ls
  | file :: rest =>
      if String.eqb (Name file) ".." || String.eqb (Name file) "." then mark bakDir rest ls
      else
        let fPath := path.Join [bakDir; Name file] in
        mark bakDir rest
          {| cells := cells ls; filesMap := filesMap ls;
             filesToDeleteMap := <[fPath := filesMap ls !! fPath]> (filesToDeleteMap ls) |}
  end.

(** Lines 194-271: the loop over the buckets.  A directory that cannot be
    read ends the whole call with that error, unless it does not exist. *)
Fixpoint collect `{Runtime} (s : SMB) (ofsPart : string) (safety : bool)
    (periods : list RetentionPeriod) (ls : Links) (errs : list error) (sh : Share)
  : Outcome (error + Links * list error) * Share :=
  match periods with
  | [] => (Returned (inr (ls, errs)), sh)
  | p :: rest =>
      let '(retentionCount, retentionDate) := GetRetention p (retention s) in
      if Z.eqb retentionCount 0 && IsZero retentionDate then
        collect s ofsPart safety rest ls errs sh
      else
        let bakDir := path.Join [backupPath s; ofsPart; period_String p] in
        match share.ReadDir bakDir sh with
        | (inl err, sh1) =>
            if IsNotExist err then collect s ofsPart safety rest ls errs sh1
            else (Returned (inl err), sh1)
        | (inr smbFiles, sh1) =>
            let '(ls1, errs1, sh2) := scan p bakDir smbFiles ls errs sh1 in
            match outdated (UseCount (retention s)) safety retentionCount retentionDate smbFiles with
            | Panicked => (Panicked, sh2)
            | Returned old => collect s ofsPart safety rest (mark bakDir old ls1) errs1 sh2
            end
        end
  end.

Inductive Flow := Continue | Break.

Definition toDel (ls : Links) (k : string) : bool :=
  match filesToDeleteMap ls !! k with
  | Some _ => true
  | None => false
  end.

(** What the body of the last loop knows after each of its parts. *)
Record Step := {
  delFile : bool;
  moved : bool;
  flow : Flow;
  errs_of : list error;
}.

(** Lines 276-301: the weekly link. *)
Definition weekly (ls : Links) (file : string) (fl : fileLinks) (errs : list error)
    (sh : Share) : Step * Share :=
  if negb (String.eqb (wLink fl) "") && negb (toDel ls (wLink fl)) then
    let '(e, sh1) := moveFile file (wLink fl) sh in
    let errs1 := noted errs e in
    let moved := match e with None => true | Some _ => false end in
    if negb (toDel ls (dLink fl)) then
      match share.Remove (dLink fl) sh1 with
      | (Some err, sh2) =>
          ({| delFile := false; moved := moved; flow := Break;
              errs_of := multierror_Append errs1 err |}, sh2)
      | (None, sh2) =>
          let relative := path.Rel (path.Dir (dLink fl)) (wLink fl) in
          let '(e3, sh3) := share.Symlink relative (dLink fl) sh2 in
          ({| delFile := false; moved := moved; flow := Continue;
              errs_of := noted errs1 e3 |}, sh3)
      end
    else ({| delFile := false; moved := moved; flow := Continue; errs_of := errs1 |}, sh1)
  else ({| delFile := true; moved := false; flow := Continue; errs_of := errs |}, sh).

(** Lines 302-312: the daily link. *)
Definition daily (ls : Links) (file : string) (fl : fileLinks) (st : Step)
    (sh : Share) : Step * Share :=
  if negb (String.eqb (dLink fl) "") && negb (moved st) && negb (toDel ls (dLink fl)) then
    let '(e, sh1) := moveFile file (dLink fl) sh in
    ({| delFile := false; moved := moved st; flow := Continue;
        errs_of := noted (errs_of st) e |}, sh1)
  else (st, sh).

(** Lines 314-322: the removal. *)
Definition unlink (file : string) (st : Step) (sh : Share) : Step * Share :=
  if delFile st then
    let '(e, sh1) := share.Remove file sh in
    ({| delFile := true; moved := moved st; flow := Continue;
        errs_of := noted (errs_of st) e |}, sh1)
  else (st, sh).

(** Lines 274-322: the body of the last loop for one entry of
    [filesToDeleteMap].  Reading a field through a nil pointer panics. *)
Definition reconcile_one (ls : Links) (file : string) (ptr : option nat)
    (errs : list error) (sh : Share) : Outcome (Flow * list error) * Share :=
  match ptr ≫= (fun i => cells ls !! i) with
  | None => (Panicked, sh)
  | Some fl =>
      let '(st1, sh1) := weekly ls file fl errs sh in
      match flow st1 with
      | Break => (Returned (Break, errs_of st1), sh1)
      | Continue =>
          let '(st2, sh2) := daily ls file fl st1 sh1 in
          let '(st3, sh3) := unlink file st2 sh2 in
          (Returned (Continue, errs_of st3), sh3)
      end
  end.

(** Lines 273-323: the loop, over the entries in the order of [range]. *)
Fixpoint reconcile (ls : Links) (todo : list (string * option nat))
    (errs : list error) (sh : Share) : Outcome (list error) * Share :=
  match todo with
  | [] => (Returned errs, sh)
  | (file, ptr) :: rest =>
      match reconcile_one ls file ptr errs sh with
      | (Panicked, sh1) => (Panicked, sh1)
      | (Returned (Break, errs1), sh1) => (Returned errs1, sh1)
      | (Returned (Continue, errs1), sh1) => reconcile ls rest errs1 sh1
      end
  end.

Definition deleteDescBackup `{Runtime} (s : SMB) (ofsPart : string) (safety : bool)
    (sh : Share) : Outcome (option error) * Share :=
  match collect s ofsPart safety RetentionPeriodsList no_links [] sh with
  | (Panicked, sh1) => (Panicked, sh1)
  | (Returned (inl err), sh1) => (Returned (Some err), sh1)
  | (Returned (inr (ls, errs)), sh1) =>
      match reconcile ls (range_map (filesToDeleteMap ls)) errs sh1 with
      | (Panicked, sh2) => (Panicked, sh2)
      | (Returned errs', sh2) => (Returned (ErrorOrNil errs'), sh2)
      end
  end.

(** [regexp.MustCompile(`month_\d\d`)]. *)
Definition rx_month : regexp.Regexp :=
  [regexp.lits "month_" ++ [regexp.Digit; regexp.Digit]].

(** Lines 359-374: the loop over the entries of the year directory.
    [dirParts[1]] panics when the name has no second part. *)
Fixpoint remove_months (backupDir : string) (lastMonth : Z) (dirs : list FileInfo)
    (errs : list error) (sh : Share) : Outcome (list error) * Share :=
  match dirs with
  | [] => (Returned errs, sh)
  | dir :: rest =>
      let dirName := Name dir in
      if regexp.MatchString rx_month dirName then
        match strings.Split dirName "_" !! 1%nat with
        | None => (Panicked, sh)
        | Some part =>
            let dirMonth := (strconv.Atoi part).1 in
            if dirMonth <? lastMonth then
              let '(e, sh1) := share.RemoveAll (path.Join [backupDir; dirName]) sh in
              remove_months backupDir lastMonth rest (noted errs e) sh1
            else remove_months backupDir lastMonth rest errs sh
        end
      else remove_months backupDir lastMonth rest errs sh
  end.

(** Lines 340-349: the month below which directories go, and the year
    directory they are looked for in.  [now] is what
    [misc.GetDateTimeNow] (declared in misc) returns for each unit at
    the time of the call. *)
Definition last_month (now : string → string) (months : Z) : string * Z :=
  let intMoy := (strconv.Atoi (now "moy")).1 in
  let lastMonth := wrap64 (intMoy - months) in
  if lastMonth >? 0 then (now "year", lastMonth)
  else (now "previous_year", wrap64 (lastMonth + 12)).

Definition deleteIncBackup (now : string → string) (s : SMB) (ofsPart : string)
    (full : bool) (sh : Share) : Outcome (option error) * Share :=
  if full then
    let backupDir := path.Join [backupPath s; ofsPart] in
    let '(e, sh1) := share.RemoveAll backupDir sh in
    (Returned (ErrorOrNil (noted [] e)), sh1)
  else
    let '(year, lastMonth) := last_month now (Months (retention s)) in
    let backupDir := path.Join [backupPath s; ofsPart; year] in
    match share.ReadDir backupDir sh with
    | (inl err, sh1) => (Returned (Some err), sh1)
    | (inr dirs, sh1) =>
        match remove_months backupDir lastMonth dirs [] sh1 with
        | (Panicked, sh2) => (Panicked, sh2)
        | (Returned errs, sh2) => (Returned (ErrorOrNil errs), sh2)
        end
    end.

Definition DeleteOldBackups `{Runtime} (now : string → string) (s : SMB)
    (ofsPart : string) (job : JobView) (full : bool) (sh : Share)
  : Outcome (option error) * Share :=
  if negb (rotateEnabled s) then (Returned None, sh)
  else if String.eqb (GetType job) IncFiles
       then deleteIncBackup now s ofsPart full sh
       else deleteDescBackup s ofsPart (IsBackupSafety job) sh.

(** The path resolvers [GetIncBackupDstAndLinks] and
    [GetDescBackupDstAndLinks] are declared in modules/storage, outside
    the files at hand; the delivery takes them as they are.  Each returns
    the destination of the artifact, the destination of the metadata
    sidecar (the descending one has none), the symlinks to make
    ([dst ↦ src]) and an error. *)
Record Resolved := {
  bakDstPath : string;
  mtdDstPath : string;
  links : gmap string string;
  resolve_err : option error;
}.

Class Resolvers := {
  GetIncBackupDstAndLinks : string → string → string → Resolved;
  GetDescBackupDstAndLinks : string → string → string → Retention → Resolved;
}.

(** [copy]: the upload of one local file.  [local] holds the files of the
    temporary directory that [files.GetLimitedFileReader] can open. *)
Definition copy (local : gmap string string) (srcPath dstPath : string) (sh : Share)
  : option error * Share :=
  let remDir := path.Dir dstPath in
  match share.MkdirAll remDir sh with
  | (Some err, sh1) => (Some err, sh1)
  | (None, sh1) =>
      match share.mutate (Create_ dstPath) sh1 with
      | (Some err, sh2) => (Some err, sh2)
      | (None, sh2) =>
          match local !! srcPath with
          | None => (Some (ErrLocal srcPath), sh2)
          | Some data => share.mutate (Write_ dstPath data) sh2
          end
      end
  end.

(** Lines 124-136: the loop over the symlinks to make. *)
Fixpoint make_links (todo : list (string * string)) (sh : Share) : option error * Share :=
  match todo with
  | [] => (None, sh)
  | (dst, src) :: rest =>
      let remDir := path.Dir dst in
      match share.MkdirAll remDir sh with
      | (Some err, sh1) => (Some err, sh1)
      | (None, sh1) =>
          match share.Symlink src dst sh1 with
          | (Some err, sh2) => (Some err, sh2)
          | (None, sh2) => make_links rest sh2
          end
      end
  end.

Definition DeliveryBackup `{Runtime} `{Resolvers} (local : gmap string string) (s : SMB)
    (tmpBackupFile ofs bakType : string) (sh : Share) : option error * Share :=
  let r :=
    if String.eqb bakType IncFiles
    then GetIncBackupDstAndLinks tmpBackupFile ofs (backupPath s)
    else
      let d := GetDescBackupDstAndLinks tmpBackupFile ofs (backupPath s) (retention s) in
      {| bakDstPath := bakDstPath d; mtdDstPath := ""; links := links d;
         resolve_err := resolve_err d |} in
  match resolve_err r with
  | Some err => (Some err, sh)
  | None =>
      let upload_meta (sh : Share) :=
        if negb (String.eqb (mtdDstPath r) "")
        then copy local (tmpBackupFile +:+ ".inc") (bakDstPath r) sh
        else (None, sh) in
      match upload_meta sh with
      | (Some err, sh1) => (Some err, sh1)
      | (None, sh1) =>
          match copy local tmpBackupFile (bakDstPath r) sh1 with
          | (Some err, sh2) => (Some err, sh2)
          | (None, sh2) => make_links (range_map (links r)) sh2
          end
      end
  end.

(** [listFiles]: the listing of a directory.  An error that says that
    the directory does not exist is replaced by a new one that holds the
    path and the text of [fs.ErrNotExist]. *)
Definition listFiles (dstPath : string) (sh : Share) : (error + list FileInfo) * Share :=
  match share.ReadDir dstPath sh with
  | (inl err, sh1) =>
      if IsNotExist err then (inl (ErrWrap "%s: %v" dstPath (ErrNotExist "")), sh1)
      else (inl err, sh1)
  | (inr smbEntries, sh1) => (inr smbEntries, sh1)
  end.

(** The loop of [listPaths] over the entries of [base]; [sub] is the
    call of [listPaths] for a directory among them. *)
Fixpoint walk (sub : string → list FileInfo → Share → option ((error + list string) * Share))
    (base : string) (fList : list FileInfo) (paths : list string) (sh : Share)
  : option ((error + list string) * Share) :=
  match fList with
  | [] => Some (inr paths, sh)
  | file :: rest =>
      if negb (IsDir file) then
        walk sub base rest (paths ++ [path.Join [base; Name file]]) sh
      else
        let subDir := path.Join [base; Name file] in
        match listFiles subDir sh with
        | (inl err, sh1) => Some (inl err, sh1)
        | (inr subDirFiles, sh1) =>
            match sub subDir subDirFiles sh1 with
            | None => None
            | Some (inl err, sh2) => Some (inl err, sh2)
            | Some (inr subPaths, sh2) => walk sub base rest (paths ++ subPaths) sh2
            end
        end
  end.

(** [listPaths]: the paths of the entries below [base] that are not
    directories.  The recursion follows the directories of the share;
    [fuel] bounds its depth, and the call does not return ([None]) when
    the directories go deeper. *)
Fixpoint listPaths (fuel : nat) (base : string) (fList : list FileInfo) (sh : Share)
  : option ((error + list string) * Share) :=
  match fuel with
  | O => None
  | S fuel' => walk (listPaths fuel') base fList [] sh
  end.

Definition ListBackups (fuel : nat) (s : SMB) (ofsPath : string) (sh : Share)
  : option ((error + list string) * Share) :=
  let bPath := path.Join [backupPath s; ofsPath] in
  match listFiles bPath sh with
  | (inl err, sh1) => Some (inl err, sh1)
  | (inr fl, sh1) => listPaths fuel bPath fl sh1
  end.

End smb.

(** ** The job pipeline shared by the database jobs *)

(** Modelled from the spec: the names of the metrics, constants declared in
    modules/metrics; per (job, OFS) the metrics are [backup_ok],
    [backup_time_ms], [backup_size_bytes], [backup_timestamp],
    [delivery_ok], [delivery_time_ms]. *)
Module metrics.
Definition BackupOk : string := "backup_ok".
Definition BackupTime : string := "backup_time_ms".
Definition DeliveryOk : string := "delivery_ok".
Definition DeliveryTime : string := "delivery_time_ms".
Definition BackupSize : string := "backup_size_bytes".
Definition BackupTimestamp : string := "backup_timestamp".
End metrics.

(** A metric value is a [float64] that the code always makes from an
    integer, [float64(n)]; the value is kept as that integer. *)
Definition float64 (n : Z) : Z := n.

Record DumpObject := { TmpFile : string; Delivered : bool }.

(** What a storage does to a job: the methods of [interfaces.Job] that
    change it. *)
Inductive JobCall :=
| CallSetOfsMetrics (ofs : string) (metricsMap : list (string * Z))
| CallSetDumpObjectDelivered (ofs : string).

(** What a run of [DoBackup] asks of the host, in order: a temp artifact
    for a target (and whether it was made), a delivery to the storages. *)
Inductive Call :=
| CreateTmpBackup (ofs tmpBackupFile : string) (made : bool)
| Delivery.

Section Job.

(** [target] is the target struct of the job type; [W] is the host the
    job runs on: its clock, its temporary directory, the external
    commands and the storages of the job. *)
Context {target W : Type}.

Record job := {
  name : string;
  tmpDir : string;
  needToMakeBackup : bool;
  safetyBackup : bool;
  deferredCopying : bool;
  diskRateLimit : Z;
  targets : gmap string target;
  dumpedObjects : gmap string DumpObject;
  (* j.appMetrics.Job[j.name].TargetMetrics[ofs].Values *)
  TargetMetrics : gmap string (gmap string Z);
}.

Definition with_metrics (j : job) (m : gmap string (gmap string Z)) : job :=
  {| name := name j; tmpDir := tmpDir j; needToMakeBackup := needToMakeBackup j;
     safetyBackup := safetyBackup j; deferredCopying := deferredCopying j;
     diskRateLimit := diskRateLimit j; targets := targets j;
     dumpedObjects := dumpedObjects j; TargetMetrics := m |}.

Definition with_dumped (j : job) (d : gmap string DumpObject) : job :=
  {| name := name j; tmpDir := tmpDir j; needToMakeBackup := needToMakeBackup j;
     safetyBackup := safetyBackup j; deferredCopying := deferredCopying j;
     diskRateLimit := diskRateLimit j; targets := targets j;
     dumpedObjects := d; TargetMetrics := TargetMetrics j |}.

(** [SetOfsMetrics]: a target without a metrics shell has a nil [Values]
    map, and writing to it panics. *)
Definition SetOfsMetrics (j : job) (ofs : string) (metricsMap : list (string * Z))
  : Outcome job :=
  match metricsMap with
  | [] => Returned j
  | _ =>
      match TargetMetrics j !! ofs with
      | None => Panicked
      | Some values =>
          Returned (with_metrics j
            (<[ofs := fold_left (fun vs mv => <[mv.1 := mv.2]> vs) metricsMap values]>
               (TargetMetrics j)))
      end
  end.

Definition SetDumpObjectDelivered (j : job) (ofs : string) : job :=
  let dumpObj := default {| TmpFile := ""; Delivered := false |} (dumpedObjects j !! ofs) in
  with_dumped j (<[ofs := {| TmpFile := TmpFile dumpObj; Delivered := true |}]> (dumpedObjects j)).

Definition GetDumpObjects (j : job) : gmap string DumpObject := dumpedObjects j.

Definition apply_call (j : job) (c : JobCall) : Outcome job :=
  match c with
  | CallSetOfsMetrics ofs metricsMap => SetOfsMetrics j ofs metricsMap
  | CallSetDumpObjectDelivered ofs => Returned (SetDumpObjectDelivered j ofs)
  end.

Fixpoint apply_calls (j : job) (cs : list JobCall) : Outcome job :=
  match cs with
  | [] => Returned j
  | c :: cs' =>
      match apply_call j c with
      | Panicked => Panicked
      | Returned j' => apply_calls j' cs'
      end
  end.

(** The host.  [clock] is [time.Now()] in nanoseconds; [os_Stat] gives
    the size of a file, or nothing when the file cannot be read;
    [GetFileFullPath] is declared in misc; [storages_Delivery] is
    [j.storages.Delivery(logCh, j)], declared in interfaces: it returns
    an error and acts on the job through the methods of [interfaces.Job];
    [createTmpBackup] is the method of the job type. *)
Record Host := {
  clock : W → Z;
  GetFileFullPath : string → string → string → string → bool → W → string;
  os_MkdirAll : string → W → option error * W;
  os_Stat : string → W → option Z;
  storages_Delivery : job → W → option error * list JobCall * W;
  createTmpBackup : job → string → string → target → W → option error * W;
  gzip : target → bool;
}.

Record Run := {
  run_job : job;
  run_errs : list error;
  run_host : W;
  run_calls : list Call;
}.

(** Lines 249-254 and 257-260 of psql_physical.go (287-292 and 295-298 of
    the mongodump job): one delivery to the storages. *)
Definition deliver (h : Host) (r : Run) : Outcome Run :=
  let '(e, cs, w) := storages_Delivery h (run_job r) (run_host r) in
  match apply_calls (run_job r) cs with
  | Panicked => Panicked
  | Returned j =>
      Returned {| run_job := j; run_errs := noted (run_errs r) e;
                  run_host := w; run_calls := run_calls r ++ [Delivery] |}
  end.

(** The body of the loop over the targets. *)
Definition backup_target (h : Host) (tmpDir : string) (ofsPart : string) (tgt : target)
    (r : Run) : Outcome Run :=
  let startTime := clock h (run_host r) in
  match SetOfsMetrics (run_job r) ofsPart
          [(metrics.BackupOk, float64 0); (metrics.BackupTime, float64 0);
           (metrics.DeliveryOk, float64 0); (metrics.DeliveryTime, float64 0);
           (metrics.BackupSize, float64 0);
           (metrics.BackupTimestamp, float64 (Z.quot startTime (10 ^ 9)))] with
  | Panicked => Panicked
  | Returned j1 =>
      let tmpBackupFile := GetFileFullPath h tmpDir ofsPart "tar" "" (gzip h tgt) (run_host r) in
      match os_MkdirAll h (path.Dir tmpBackupFile) (run_host r) with
      | (Some err, w1) =>
          Returned {| run_job := j1; run_errs := multierror_Append (run_errs r) err;
                      run_host := w1; run_calls := run_calls r |}
      | (None, w1) =>
          match createTmpBackup h j1 tmpBackupFile ofsPart tgt w1 with
          | (Some err, w2) =>
              match SetOfsMetrics j1 ofsPart
                      [(metrics.BackupTime,
                        float64 (Z.quot (clock h w2 - startTime) (10 ^ 6)))] with
              | Panicked => Panicked
              | Returned j2 =>
                  Returned {| run_job := j2;
                              run_errs := multierror_Append (run_errs r) err;
                              run_host := w2;
                              run_calls := run_calls r ++ [CreateTmpBackup ofsPart tmpBackupFile false] |}
              end
          | (None, w2) =>
              match os_Stat h tmpBackupFile w2 with
              | None => Panicked
              | Some size =>
                  match SetOfsMetrics j1 ofsPart
                          [(metrics.BackupOk, float64 1);
                           (metrics.BackupTime,
                            float64 (Z.quot (clock h w2 - startTime) (10 ^ 6)));
                           (metrics.BackupSize, float64 size)] with
                  | Panicked => Panicked
                  | Returned j2 =>
                      let j3 := with_dumped j2
                        (<[ofsPart := {| TmpFile := tmpBackupFile; Delivered := false |}]>
                           (dumpedObjects j2)) in
                      let r3 := {| run_job := j3; run_errs := run_errs r; run_host := w2;
                                   run_calls := run_calls r ++ [CreateTmpBackup ofsPart tmpBackupFile true] |} in
                      if negb (deferredCopying j3) then deliver h r3 else Returned r3
                  end
              end
          end
      end
  end.

Fixpoint backup_targets (h : Host) (tmpDir : string) (todo : list (string * target))
    (r : Run) : Outcome Run :=
  match todo with
  | [] => Returned r
  | (ofsPart, tgt) :: rest =>
      match backup_target h tmpDir ofsPart tgt r with
      | Panicked => Panicked
      | Returned r1 => backup_targets h tmpDir rest r1
      end
  end.

(** [DoBackup]: the loop over [j.targets] in the order of [range], then
    one more delivery. *)
Definition DoBackup `{Runtime} (h : Host) (j : job) (tmpDir : string) (w : W)
  : Outcome (option error * Run) :=
  let r0 := {| run_job := j; run_errs := []; run_host := w; run_calls := [] |} in
  match backup_targets h tmpDir (range_map (targets j)) r0 with
  | Panicked => Panicked
  | Returned r1 =>
      match deliver h r1 with
      | Panicked => Panicked
      | Returned r2 => Returned (ErrorOrNil (run_errs r2), r2)
      end
  end.

End Job.

Arguments job : clear implicits.
Arguments Host : clear implicits.
Arguments Run : clear implicits.

(** ** External commands, as both job types run them *)

Module targz.
Record TarOpts := {
  Src : string;
  Dst : string;
  Incremental : bool;
  Gzip : bool;
  SaveAbsPath : bool;
  RateLim : Z;
  Excludes : list string;
}.
End targz.

(** [run] is [exec.Command(name, args...)] started and waited for,
    [Exec] is [exec_cmd.Exec], [targz_Tar] is [targz.Tar],
    [GetDateTimeNow] is [misc.GetDateTimeNow]; all are declared outside the
    files at hand and act on the host. *)
Record Commands (W : Type) := {
  run : string → list string → W → option error * W;
  Exec : string → list string → W → option error * W;
  targz_Tar : targz.TarOpts → W → option error * W;
  os_RemoveAll : string → W → W;
  GetDateTimeNow : string → W → string;
}.
Arguments run {W}.
Arguments Exec {W}.
Arguments targz_Tar {W}.
Arguments os_RemoveAll {W}.
Arguments GetDateTimeNow {W}.

Module psql_physical.

Record target := {
  connUrl : string;          (* tgt.connUrl.String() *)
  extraKeys : list string;
  gzip : bool;
}.

(** [psql_connect.Params], declared in ds/psql_connect: the two fields
    [Init] rewrites and the rest, kept as it is. *)
Record Params := {
  User : string;
  Database : string;
  rest : string;
}.

Record SourceParams := {
  Name : string;
  ConnectParams : Params;
  ExtraKeys : list string;
  Gzip : bool;
  IsSlave : bool;
}.

(** [Name] of the job is [jp_Name] here.  The [Storages] and [Metrics]
    handles are left out: [jp.Metrics.RegisterJob] is taken to return the
    registry entry of the job, whose [TargetMetrics] the job record
    holds. *)
Record JobParams := {
  jp_Name : string;
  TmpDir : string;
  NeedToMakeBackup : bool;
  SafetyBackup : bool;
  DeferredCopying : bool;
  DiskRateLimit : Z;
  Sources : list SourceParams;
}.

(** [psql_connect.GetConnUrl], and [psql_connect.GetConnect] followed by
    [Ping] and [Close], declared in ds/psql_connect. *)
Record Connect (W : Type) := {
  GetConnUrl : Params → string;
  GetConnect : string → W → option error * W;
  Ping : string → W → option error * W;
}.
Arguments GetConnUrl {W}.
Arguments GetConnect {W}.
Arguments Ping {W}.

(** [regexp.MatchString(`(-D|--pgdata=)`, key)]. *)
Definition rx_pgdata : regexp.Regexp := [regexp.lits "-D"; regexp.lits "--pgdata="].

Definition forbidden (key : string) : bool := regexp.MatchString rx_pgdata key.

Section Init.
Context {W : Type} (x : Commands W) (c : Connect W).

(** Lines 96-131: the loop over the sources. *)
Fixpoint init_sources (jp : JobParams) (srcs : list SourceParams) (j : job target)
    (w : W) : option (job target) * option error * W :=
  match srcs with
  | [] => (Some j, None, w)
  | src :: srcs' =>
      if existsb forbidden (ExtraKeys src) then
        (None, Some (ErrForbidden (jp_Name jp)), w)
      else
        let udb := strings.Split (User (ConnectParams src)) "@" in
        let cp :=
          match udb with
          | u :: d :: _ => {| User := u; Database := d; rest := rest (ConnectParams src) |}
          | _ => ConnectParams src
          end in
        let connUrl := GetConnUrl c cp in
        match GetConnect c connUrl w with
        | (Some err, w1) =>
            (None, Some (ErrWrap "PSQL connect error" (jp_Name jp) err), w1)
        | (None, w1) =>
            match Ping c connUrl w1 with
            | (Some err, w2) =>
                (None, Some (ErrWrap "PSQL ping check error" (jp_Name jp) err), w2)
            | (None, w2) =>
                let j1 :=
                  {| name := name j; tmpDir := tmpDir j;
                     needToMakeBackup := needToMakeBackup j;
                     safetyBackup := safetyBackup j;
                     deferredCopying := deferredCopying j;
                     diskRateLimit := diskRateLimit j;
                     targets := <[Name src := {| extraKeys := ExtraKeys src;
                                                 gzip := Gzip src;
                                                 connUrl := connUrl |}]> (targets j);
                     dumpedObjects := dumpedObjects j;
                     TargetMetrics := <[Name src := ∅]> (TargetMetrics j) |} in
                init_sources jp srcs' j1 w2
            end
        end
  end.

Definition Init (jp : JobParams) (w : W) : option (job target) * option error * W :=
  match Exec x "pg_basebackup" ["--version"] w with
  | (Some err, w1) =>
      (None, Some (ErrWrap "Can't check `pg_basebackup` version" (jp_Name jp) err), w1)
  | (None, w1) =>
      match Exec x "tar" ["--version"] w1 with
      | (Some err, w2) =>
          (None, Some (ErrWrap "Can't check `tar` version" (jp_Name jp) err), w2)
      | (None, w2) =>
          init_sources jp (Sources jp)
            {| name := jp_Name jp; tmpDir := TmpDir jp;
               needToMakeBackup := NeedToMakeBackup jp;
               safetyBackup := SafetyBackup jp;
               deferredCopying := DeferredCopying jp;
               diskRateLimit := DiskRateLimit jp;
               targets := ∅; dumpedObjects := ∅; TargetMetrics := ∅ |} w2
      end
  end.

(** [units.KB] of docker/go-units. *)
Definition KB : Z := 1000.

(** Lines 269-290: the command line of [pg_basebackup]. *)
Definition basebackup_args (j : job target) (tmpBasebackupPath : string) (tgt : target)
  : list string :=
  let args := if (0 <? length (extraKeys tgt))%nat then extraKeys tgt else [] in
  let args := args ++ ["--dbname=" +:+ connUrl tgt] in
  let args := args ++ ["--pgdata=" +:+ tmpBasebackupPath] in
  let args := args ++ ["--format=plain"] in
  if diskRateLimit j >? 0 then
    let maxRate := Z.quot (diskRateLimit j) KB in
    let maxRate :=
      if maxRate <? 32 then 32
      else if maxRate >? 1024 * KB then 1024 * KB
      else maxRate in
    args ++ ["--max-rate=" +:+ pretty maxRate]
  else args.

Definition createTmpBackup (j : job target) (tmpBackupFile tgtName : string)
    (tgt : target) (w : W) : option error * W :=
  let tmpBasebackupPath :=
    path.Join [path.Dir tmpBackupFile;
               "pg_basebackup_" +:+ tgtName +:+ "_" +:+ GetDateTimeNow x "" w] in
  match run x "pg_basebackup" (basebackup_args j tmpBasebackupPath tgt) w with
  | (Some err, w1) => (Some err, w1)
  | (None, w1) =>
      match targz_Tar x {| targz.Src := tmpBasebackupPath;
                           targz.Dst := tmpBackupFile;
                           targz.Incremental := false;
                           targz.Gzip := gzip tgt;
                           targz.SaveAbsPath := false;
                           targz.RateLim := diskRateLimit j;
                           targz.Excludes := [] |} w1 with
      | (Some err, w2) => (Some err, w2)
      | (None, w2) => (None, os_RemoveAll x tmpBasebackupPath w2)
      end
  end.

End Init.

End psql_physical.

Module mongodump.

(** [mongo_connect.Params], declared in ds/mongo_connect: the fields the
    command line reads. *)
Record Params := {
  AuthDB : string;
  User : string;
  Passwd : string;
  TLSCAFile : string;
}.

Record target := {
  host : string;
  connOpts : Params;
  dbName : string;
  collections : list string;
  extraKeys : list string;
  gzip : bool;
}.

Section createTmpBackup.
Context {W : Type} (x : Commands W).

(** Lines 307-330: the command line of [mongodump] without the
    collection. *)
Definition mongodump_args (tmpMongodumpPath : string) (tgt : target) : list string :=
  let args := ["--host=" +:+ host tgt] in
  let args :=
    if negb (String.eqb (AuthDB (connOpts tgt)) "")
    then args ++ ["--authenticationDatabase=" +:+ AuthDB (connOpts tgt)]
    else args ++ ["--authenticationDatabase=admin"] in
  let args := args ++ ["--username=" +:+ User (connOpts tgt)] in
  let args := args ++ ["--password=" +:+ Passwd (connOpts tgt)] in
  let args := args ++ ["--db=" +:+ dbName tgt] in
  let args :=
    if negb (String.eqb (TLSCAFile (connOpts tgt)) "")
    then args ++ ["--ssl"; "--sslCAFile=" +:+ TLSCAFile (connOpts tgt)]
    else args in
  let args := if (0 <? length (extraKeys tgt))%nat then args ++ extraKeys tgt else args in
  args ++ ["--out=" +:+ tmpMongodumpPath].

(** Lines 335-349: one [mongodump] per collection. *)
Fixpoint dump_collections (args : list string) (cols : list string) (w : W)
  : option error * W :=
  match cols with
  | [] => (None, w)
  | col :: cols' =>
      match run x "mongodump" (args ++ ["--collection=" +:+ col]) w with
      | (Some err, w1) => (Some err, w1)
      | (None, w1) => dump_collections args cols' w1
      end
  end.

(** The deferred [os.RemoveAll(tmpMongodumpPath)] runs on every way
    out. *)
Definition createTmpBackup (j : job target) (tmpBackupFile : string) (tgt : target)
    (w : W) : option error * W :=
  let tmpMongodumpPath := path.Join [path.Dir tmpBackupFile; "dump"] in
  match dump_collections (mongodump_args tmpMongodumpPath tgt) (collections tgt) w with
  | (Some err, w1) => (Some err, os_RemoveAll x tmpMongodumpPath w1)
  | (None, w1) =>
      match targz_Tar x {| targz.Src := tmpMongodumpPath;
                           targz.Dst := tmpBackupFile;
                           targz.Incremental := false;
                           targz.Gzip := gzip tgt;
                           targz.SaveAbsPath := false;
                           targz.RateLim := diskRateLimit j;
                           targz.Excludes := [] |} w1 with
      | (Some err, w2) => (Some err, os_RemoveAll x tmpMongodumpPath w2)
      | (None, w2) => (None, os_RemoveAll x tmpMongodumpPath w2)
      end
  end.

End createTmpBackup.

End mongodump.

(** The rest of the host a job runs on: what [DoBackup] itself calls. *)
Record System (target W : Type) := {
  sys_clock : W → Z;
  sys_GetFileFullPath : string → string → string → string → bool → W → string;
  sys_MkdirAll : string → W → option error * W;
  sys_Stat : string → W → option Z;
  sys_Delivery : job target → W → option error * list JobCall * W;
}.
Arguments sys_clock {target W}.
Arguments sys_GetFileFullPath {target W}.
Arguments sys_MkdirAll {target W}.
Arguments sys_Stat {target W}.
Arguments sys_Delivery {target W}.

Definition psql_physical_Host {W} (y : System psql_physical.target W) (x : Commands W)
  : Host psql_physical.target W :=
  {| clock := sys_clock y; GetFileFullPath := sys_GetFileFullPath y;
     os_MkdirAll := sys_MkdirAll y; os_Stat := sys_Stat y;
     storages_Delivery := sys_Delivery y;
     createTmpBackup := psql_physical.createTmpBackup x;
     gzip := psql_physical.gzip |}.

(** The mongodump job passes no target name to its [createTmpBackup]. *)
Definition mongodump_Host {W} (y : System mongodump.target W) (x : Commands W)
  : Host mongodump.target W :=
  {| clock := sys_clock y; GetFileFullPath := sys_GetFileFullPath y;
     os_MkdirAll := sys_MkdirAll y; os_Stat := sys_Stat y;
     storages_Delivery := sys_Delivery y;
     createTmpBackup := fun j tmpBackupFile _ tgt => mongodump.createTmpBackup x j tmpBackupFile tgt;
     gzip := mongodump.gzip |}.

(** [DoBackup] of psql_physical.go and of the mongodump job. *)
Definition psql_physical_DoBackup `{Runtime} {W} (y : System psql_physical.target W)
    (x : Commands W) := DoBackup (psql_physical_Host y x).

Definition mongodump_DoBackup `{Runtime} {W} (y : System mongodump.target W)
    (x : Commands W) := DoBackup (mongodump_Host y x).

(** ** A runtime to compute with: a stable merge sort, and [range] in the
    order of the map's own enumeration *)

#[global] Instance older_eq_dec a b : Decision (older_eq a b).
Proof. unfold older_eq. apply _. Defined.

#[global] Instance older_eq_trans : Transitive older_eq.
Proof. unfold older_eq. intros a b c. lia. Qed.

#[global] Instance older_eq_total : Total older_eq.
Proof. unfold older_eq. intros a b. lia. Qed.

Definition stable_runtime : Runtime :=
  {| sort_Slice := merge_sort older_eq;
     sort_Slice_perm := merge_sort_Permutation older_eq;
     sort_Slice_sorted := StronglySorted_merge_sort older_eq;
     range_map := fun V m => map_to_list m;
     range_map_perm := fun V m => reflexivity (map_to_list m) |}.

(** ** Concrete shares and policies, for the examples below *)

(** A share whose transport never fails. *)
Definition reliable (t : Tree) : Share :=
  {| nodes := t; srvTime := 100; faults := fun _ => false; calls := 0; journal := [] |}.

(** A share whose transport drops the call number [n]. *)
Definition drops (n : nat) (t : Tree) : Share :=
  {| nodes := t; srvTime := 100; faults := fun k => bool_decide (k = n);
     calls := 0; journal := [] |}.

(** A policy by count: so many monthly, weekly and daily entries. *)
Definition count_retention (monthly weekly daily : Z) : Retention :=
  {| UseCount := true; Months := 0;
     bucket := fun p =>
       match p with
       | Monthly => (monthly, 0)
       | Weekly => (weekly, 0)
       | Daily => (daily, 0)
       | _ => (0, 0)
       end |}.

Definition nas (r : Retention) : smb.SMB :=
  {| smb.name := "nas"; smb.backupPath := "backups"; smb.rateLimit := 0;
     smb.rotateEnabled := true; smb.retention := r |}.

(** A monthly bucket with three backups, [a.tar] the oldest. *)
Definition three_monthly : Tree :=
  [("backups", Directory 0); ("backups/db", Directory 0);
   ("backups/db/monthly", Directory 0);
   ("backups/db/monthly/a.tar", File 1 "a");
   ("backups/db/monthly/b.tar", File 2 "b");
   ("backups/db/monthly/c.tar", File 3 "c")].

(** The number of entries a bucket by count keeps: the count itself with
    the safety backup, one less without. *)
Definition kept_count (safety : bool) (count : Z) : nat :=
  Z.to_nat (if safety then count else count - 1).

(** The path of an entry of a bucket, as the rotation forms it. *)
Definition entry_path (bakDir : string) (file : FileInfo) : string :=
  path.Join [bakDir; Name file].


(** What the specification says of the order of the mutations: no removal
    of a candidate comes before a move. *)
Definition moves_before_deletes (candidates : list string) (j : list Event) : Prop :=
  ∀ i k p o n ok ok',
    (i < k)%nat →
    j !! i = Some {| ev_call := Remove_ p; ev_ok := ok |} →
    p ∈ candidates →
    j !! k = Some {| ev_call := Rename_ o n; ev_ok := ok' |} →
    False.

(** ** The words of the order of a pass *)

Definition ev (m : Mutation) (ok : bool) : Event := {| ev_call := m; ev_ok := ok |}.

(** What [moveFile file n] asks of the share, and whether [file] was
    moved: the removal of [n], and the rename when that succeeded. *)
Definition move_events (file n : string) (g : list Event) (moved : bool) : Prop :=
  (g = [ev (Remove_ n) false] ∧ moved = false)
  ∨ (∃ ok, g = [ev (Remove_ n) true; ev (Rename_ file n) ok] ∧ moved = ok).

(** What is asked for the daily link after the move onto the weekly
    one: its removal, which cuts the pass short when it fails, and the
    new symlink to the weekly path. *)
Definition relink_events (fl : smb.fileLinks) (g : list Event) (cut : bool) : Prop :=
  (g = [ev (Remove_ (smb.dLink fl)) false] ∧ cut = true)
  ∨ (∃ ok, g = [ev (Remove_ (smb.dLink fl)) true;
                ev (Symlink_ (path.Rel (path.Dir (smb.dLink fl)) (smb.wLink fl))
                      (smb.dLink fl)) ok]
           ∧ cut = false).

(** The mutations of the turn of the candidate [file] with the links
    [fl], and whether the turn cuts the pass short.  With a weekly link
    that stays, the candidate is moved onto it, the daily link (when it
    stays) is made anew, and the candidate is moved onto the daily link
    when the first move failed; the candidate is not removed.  Without
    one, the candidate is moved onto the daily link when there is one that
    stays, and removed otherwise. *)
Definition turn_events (ls : smb.Links) (file : string) (fl : smb.fileLinks)
    (g : list Event) (cut : bool) : Prop :=
  if negb (String.eqb (smb.wLink fl) "") && negb (smb.toDel ls (smb.wLink fl)) then
    ∃ gm moved gl gd,
      g = gm ++ gl ++ gd
      ∧ move_events file (smb.wLink fl) gm moved
      ∧ (if smb.toDel ls (smb.dLink fl) then gl = [] ∧ cut = false
         else relink_events fl gl cut)
      ∧ (if negb cut && negb (String.eqb (smb.dLink fl) "") && negb moved
            && negb (smb.toDel ls (smb.dLink fl))
         then ∃ moved', move_events file (smb.dLink fl) gd moved'
         else gd = [])
  else
    cut = false
    ∧ if negb (String.eqb (smb.dLink fl) "") && negb (smb.toDel ls (smb.dLink fl))
      then ∃ moved', move_events file (smb.dLink fl) g moved'
      else ∃ ok, g = [ev (Remove_ file) ok].

(** The turn of an entry of the deletion map: a nil pointer ends the
    pass with nothing asked (the call panics). *)
Definition turn_of (ls : smb.Links) (x : string * option nat) (g : list Event)
    (goes_on : bool) : Prop :=
  match x.2 ≫= (fun i => smb.cells ls !! i) with
  | None => g = [] ∧ goes_on = false
  | Some fl => ∃ cut, turn_events ls x.1 fl g cut ∧ goes_on = negb cut
  end.

(** The groups of mutations of a pass over [todo]: one turn for each
    entry, in the order of [todo], up to and including the first turn
    that cuts the pass short. *)
Inductive pass (ls : smb.Links) : list (string * option nat) → list (list Event) → Prop :=
| pass_done : pass ls [] []
| pass_cut x todo g : turn_of ls x g false → pass ls (x :: todo) [g]
| pass_on x todo g groups :
    turn_of ls x g true → pass ls todo groups → pass ls (x :: todo) (g :: groups).

(** A runtime whose [range] visits a map the other way round. *)
Definition reversed_runtime : Runtime :=
  {| sort_Slice := merge_sort older_eq;
     sort_Slice_perm := merge_sort_Permutation older_eq;
     sort_Slice_sorted := StronglySorted_merge_sort older_eq;
     range_map := fun V m => reverse (map_to_list m);
     range_map_perm := fun V m => reverse_Permutation (map_to_list m) |}.

Definition buckets : Tree :=
  [("backups", Directory 0); ("backups/db", Directory 0);
   ("backups/db/monthly", Directory 0);
   ("backups/db/weekly", Directory 0);
   ("backups/db/daily", Directory 0)].

(** Two monthly backups; [a.tar] is the target of a weekly and of a daily
    symlink, [b.tar] of none. *)
Definition both_links : Tree :=
  buckets ++
  [("backups/db/monthly/a.tar", File 1 "a");
   ("backups/db/monthly/b.tar", File 2 "b");
   ("backups/db/weekly/a.tar", Link 1 "../monthly/a.tar");
   ("backups/db/daily/a.tar", Link 1 "../monthly/a.tar")].

(** The same with a weekly symlink alone. *)
Definition weekly_link_only : Tree :=
  buckets ++
  [("backups/db/monthly/a.tar", File 1 "a");
   ("backups/db/monthly/b.tar", File 2 "b");
   ("backups/db/weekly/a.tar", Link 1 "../monthly/a.tar")].

(** The same with a daily symlink alone. *)
Definition daily_link_only : Tree :=
  buckets ++
  [("backups/db/monthly/a.tar", File 1 "a");
   ("backups/db/monthly/b.tar", File 2 "b");
   ("backups/db/daily/a.tar", Link 1 "../monthly/a.tar")].

(** One monthly backup is kept (none before the new one arrives, without
    the safety backup), five weekly and five daily ones. *)
Definition monthly_one : smb.SMB := nas (count_retention 1 5 5).

(** The mutations asked for, without their outcome. *)
Definition asked (sh : Share) : list Mutation := ev_call <$> journal sh.

(** Modelled from the spec: path resolvers to compute with, standing for
    [GetIncBackupDstAndLinks] and [GetDescBackupDstAndLinks] of
    modules/storage.  An incremental artifact goes to
    [<root>/<OFS>/year_YYYY/month_MM/day_DD/<artifact>] and its sidecar to
    [<artifact>.inc] next to it; a descending artifact goes to
    [<root>/<OFS>/<bucket>/<basename>].  The date is fixed and no symlink
    is asked for. *)
Definition dated_resolvers : smb.Resolvers :=
  {| smb.GetIncBackupDstAndLinks := fun tmpBackupFile ofs root =>
       let dst := path.Join [root; ofs; "year_2025"; "month_01"; "day_01";
                             path.Base tmpBackupFile] in
       {| smb.bakDstPath := dst; smb.mtdDstPath := dst +:+ ".inc";
          smb.links := ∅; smb.resolve_err := None |};
     smb.GetDescBackupDstAndLinks := fun tmpBackupFile ofs root _ =>
       {| smb.bakDstPath := path.Join [root; ofs; "daily"; path.Base tmpBackupFile];
          smb.mtdDstPath := ""; smb.links := ∅; smb.resolve_err := None |} |}.

(** The temporary directory after an incremental backup of [/srv]: the
    archive and its metadata. *)
Definition tmp_incremental : gmap string string :=
  {[ "/tmp/srv/init.tar" := "ARCHIVE"; "/tmp/srv/init.tar.inc" := "METADATA" ]}.

(** The numeric month of an entry of a year directory: the number between
    its first and second underscore, 0 when that is no number. *)
Definition month_of (dirName : string) : Z :=
  (strconv.Atoi (default "" (strings.Split dirName "_" !! 1%nat))).1.

(** The entries of a year directory that the incremental rotation
    removes. *)
Definition outdated_month (lastMonth : Z) (dir : FileInfo) : bool :=
  regexp.MatchString smb.rx_month (Name dir) && (month_of (Name dir) <? lastMonth).

(** What the specification says of the month below which directories go:
    the previous year is used when the difference is negative. *)
Definition last_month_as_specified (now : string → string) (months : Z) : string * Z :=
  let d := (strconv.Atoi (now "moy")).1 - months in
  if d <? 0 then (now "previous_year", d + 12) else (now "year", d).

Definition removed_as_specified (now : string → string) (s : smb.SMB) (ofsPart : string)
    (sh : Share) : list Mutation :=
  let '(year, lastMonth) := last_month_as_specified now (Months (smb.retention s)) in
  let backupDir := path.Join [smb.backupPath s; ofsPart; year] in
  (fun d => RemoveAll_ (entry_path backupDir d))
    <$> filter (fun d => outdated_month lastMonth d) (share.entries backupDir (nodes sh)).

(** [misc.GetDateTimeNow] in March 2025. *)
Definition march_2025 (unit : string) : string :=
  if String.eqb unit "moy" then "03"
  else if String.eqb unit "year" then "year_2025"
  else if String.eqb unit "previous_year" then "year_2024"
  else "".

(** Incremental backups of [/srv] over two years. *)
Definition two_years : Tree :=
  [("backups", Directory 0); ("backups/srv", Directory 0);
   ("backups/srv/year_2024", Directory 0);
   ("backups/srv/year_2024/month_01", Directory 0);
   ("backups/srv/year_2024/month_01/day_01", Directory 0);
   ("backups/srv/year_2024/month_01/day_01/init.tar", File 1 "i");
   ("backups/srv/year_2024/month_11", Directory 0);
   ("backups/srv/year_2024/month_12", Directory 0);
   ("backups/srv/year_2025", Directory 0);
   ("backups/srv/year_2025/month_01", Directory 0);
   ("backups/srv/year_2025/month_02", Directory 0);
   ("backups/srv/year_2025/month_03", Directory 0)].

(** Incremental backups are kept for so many months. *)
Definition months_retention (months : Z) : Retention :=
  {| UseCount := false; Months := months; bucket := fun _ => (0, 0) |}.

Fixpoint contains (c : ascii) (s : string) : bool :=
  match s with
  | EmptyString => false
  | String c' s' => Ascii.eqb c' c || contains c s'
  end.

(** ** The words of the properties of [DoBackup] *)

(** The value of a metric of a target, when it has one. *)
Definition metric {target} (j : job target) (ofs m : string) : option Z :=
  TargetMetrics j !! ofs ≫= fun values => values !! m.

(** Every target and every dump object of the job has its metrics shell,
    as [Init] registers them. *)
Definition registered {target} (j : job target) : Prop :=
  ∀ ofs, is_Some (targets j !! ofs) ∨ is_Some (dumpedObjects j !! ofs) →
         is_Some (TargetMetrics j !! ofs).

(** A temp artifact that was made can be read. *)
Definition artifacts_stay {target W} (h : Host target W) : Prop :=
  ∀ j tmpBackupFile ofs tgt w w',
    createTmpBackup h j tmpBackupFile ofs tgt w = (None, w') →
    is_Some (os_Stat h tmpBackupFile w').

Definition call_ofs (c : JobCall) : string :=
  match c with
  | CallSetOfsMetrics ofs _ | CallSetDumpObjectDelivered ofs => ofs
  end.

(** The storages act on the dump objects of the job. *)
Definition delivery_on_dumps {target W} (h : Host target W) : Prop :=
  ∀ j w e cs w' c,
    storages_Delivery h j w = (e, cs, w') → c ∈ cs →
    is_Some (dumpedObjects j !! call_ofs c).

Definition backup_metrics : list string :=
  [metrics.BackupOk; metrics.BackupTime; metrics.BackupSize].

(** The storages record the metrics of the delivery and leave those of
    the backup alone. *)
Definition delivery_keeps_backup_metrics {target W} (h : Host target W) : Prop :=
  ∀ j w e cs w' ofs metricsMap k,
    storages_Delivery h j w = (e, cs, w') →
    CallSetOfsMetrics ofs metricsMap ∈ cs → k ∈ backup_metrics →
    k ∉ metricsMap.*1.

(** The errors that [multierror.Append] adds for one error. *)
Definition flat (e : error) : list error := multierror_Append [] e.

(** The calls of the body of the loop for one target: none when the temp
    directory cannot be made, else the making of the artifact, followed at
    once by a delivery when it was made and copying is not deferred. *)
Definition target_calls (deferred : bool) (ofs : string) (st : list Call) : Prop :=
  st = []
  ∨ (∃ f, st = [CreateTmpBackup ofs f false])
  ∨ (∃ f, st = CreateTmpBackup ofs f true :: if deferred then [] else [Delivery]).

(** What the run leaves for one target, in the job [j'] and the errors
    [errs'] it ends with: the calls [st] of its turn and its metrics. *)
Definition target_outcome {target W} (h : Host target W) (j' : job target)
    (errs' : list error) (ofs : string) (tgt : target) (st : list Call) : Prop :=
  (st = []
   ∧ metric j' ofs metrics.BackupOk = Some 0
   ∧ metric j' ofs metrics.BackupSize = Some 0)
  ∨ (∃ f jx w0 w1 w2 err,
       st = [CreateTmpBackup ofs f false]
       ∧ createTmpBackup h jx f ofs tgt w1 = (Some err, w2)
       ∧ metric j' ofs metrics.BackupOk = Some 0
       ∧ metric j' ofs metrics.BackupSize = Some 0
       ∧ metric j' ofs metrics.BackupTime
         = Some (float64 (Z.quot (clock h w2 - clock h w0) (10 ^ 6)))
       ∧ ∃ pre post, errs' = pre ++ flat err ++ post)
  ∨ (∃ f jx w1 w2 size,
       head st = Some (CreateTmpBackup ofs f true)
       ∧ createTmpBackup h jx f ofs tgt w1 = (None, w2)
       ∧ os_Stat h f w2 = Some size
       ∧ metric j' ofs metrics.BackupOk = Some 1
       ∧ metric j' ofs metrics.BackupSize = Some (float64 size)).

(** ** A host to compute with

    The state of the host is the number of seconds on its clock.  Every
    file is 2048 bytes long; [pg_basebackup] and [mongodump] fail against
    the database [down]; the storages deliver every dump object that is
    not yet delivered and record the two delivery metrics. *)
Definition plain_system (target : Type) : System target nat :=
  {| sys_clock := fun w => Z.of_nat w * 10 ^ 9;
     sys_GetFileFullPath := fun tmpDir ofs ext _ gz _ =>
       tmpDir +:+ "/" +:+ ofs +:+ "." +:+ ext +:+ (if gz then ".gz" else "");
     sys_MkdirAll := fun _ w => (None, S w);
     sys_Stat := fun _ _ => Some 2048;
     sys_Delivery := fun j w =>
       (None,
        map_to_list (dumpedObjects j) ≫= (fun od =>
          if Delivered od.2 then []
          else [CallSetOfsMetrics od.1 [(metrics.DeliveryOk, float64 1);
                                        (metrics.DeliveryTime, float64 0)];
                CallSetDumpObjectDelivered od.1]),
        S w) |}.

Definition plain_commands : Commands nat :=
  {| run := fun cmd args w =>
       (if existsb (fun a => String.eqb a "--dbname=down" || String.eqb a "--db=down") args
        then Some (ErrCmd cmd) else None, S w);
     Exec := fun _ _ w => (None, w);
     targz_Tar := fun _ w => (None, S w);
     os_RemoveAll := fun _ w => w;
     GetDateTimeNow := fun _ _ => "2025-03-01_00-00" |}.

(** A job with two databases, the second of which is down. *)
Definition two_databases (deferred : bool) : job psql_physical.target :=
  {| name := "pg"; tmpDir := "/tmp"; needToMakeBackup := true; safetyBackup := false;
     deferredCopying := deferred; diskRateLimit := 0;
     targets := {[ "main" := {| psql_physical.connUrl := "up";
                                psql_physical.extraKeys := [];
                                psql_physical.gzip := true |};
                   "replica" := {| psql_physical.connUrl := "down";
                                   psql_physical.extraKeys := [];
                                   psql_physical.gzip := true |} ]};
     dumpedObjects := ∅;
     TargetMetrics := {[ "main" := ∅; "replica" := ∅ ]} |}.

Definition plain_connect : psql_physical.Connect nat :=
  {| psql_physical.GetConnUrl := fun p => psql_physical.User p +:+ "@" +:+ psql_physical.Database p;
     psql_physical.GetConnect := fun _ w => (None, w);
     psql_physical.Ping := fun _ w => (None, w) |}.

(** Parameters of a job whose only source overrides the data directory. *)
Definition overriding : psql_physical.JobParams :=
  {| psql_physical.jp_Name := "pg"; psql_physical.TmpDir := "/tmp";
     psql_physical.NeedToMakeBackup := true; psql_physical.SafetyBackup := false;
     psql_physical.DeferredCopying := false; psql_physical.DiskRateLimit := 0;
     psql_physical.Sources :=
       [{| psql_physical.Name := "main";
           psql_physical.ConnectParams :=
             {| psql_physical.User := "backup"; psql_physical.Database := "postgres";
                psql_physical.rest := "" |};
           psql_physical.ExtraKeys := ["--checkpoint=fast"; "-D/var/lib/elsewhere"];
           psql_physical.Gzip := true; psql_physical.IsSlave := false |}] |}.

(** The host of the psql_physical job on the plain system. *)
Definition plain_host : Host psql_physical.target nat :=
  psql_physical_Host (plain_system psql_physical.target) plain_commands.

(** No extra key of the target asks for a data directory. *)
Definition clean_keys (tgt : psql_physical.target) : Prop :=
  Forall (fun key => psql_physical.forbidden key = false) (psql_physical.extraKeys tgt).

(** Two states of a job with the same settings and the same metrics
    shells, the second with at least the dump objects of the first. *)
Definition same_shape {target} (j j' : job target) : Prop :=
  deferredCopying j' = deferredCopying j
  ∧ targets j' = targets j
  ∧ (∀ ofs, is_Some (TargetMetrics j' !! ofs) ↔ is_Some (TargetMetrics j !! ofs))
  ∧ (∀ ofs, is_Some (dumpedObjects j !! ofs) → is_Some (dumpedObjects j' !! ofs)).

(** A mutation that, when it uploads (creates or writes a file), uploads
    to [dst]. *)
Definition uploads_to (dst : string) (m : Mutation) : Prop :=
  match m with
  | Create_ p | Write_ p _ => p = dst
  | _ => True
  end.

(** A policy by age: entries of a bucket older than its date go. *)
Definition age_retention (monthly weekly daily : Z) : Retention :=
  {| UseCount := false; Months := 0;
     bucket := fun p =>
       match p with
       | Monthly => (0, monthly)
       | Weekly => (0, weekly)
       | Daily => (0, daily)
       | _ => (0, 0)
       end |}.

(** The directory of a bucket of a target. *)
Definition bucket_dir (s : smb.SMB) (ofsPart : string) (p : RetentionPeriod) : string :=
  path.Join [smb.backupPath s; ofsPart; period_String p].

(** The transport drops no call. *)
Definition lossless (sh : Share) : Prop := ∀ k, faults sh k = false.

(** ** A host that keeps a log

    The state of the host is the list of the commands run on it, oldest
    first, and an oracle that says which of them fail, by their number in
    the log. *)
Inductive Command :=
| Ran (cmd : string) (args : list string)
| Tarred (opts : targz.TarOpts)
| Removed (p : string).

Record Shell := {
  failing : nat → bool;
  history : list Command;
}.

Definition logged_as (c : Command) (cmd : string) (w : Shell) : option error * Shell :=
  (if failing w (length (history w)) then Some (ErrCmd cmd) else None,
   {| failing := failing w; history := history w ++ [c] |}).

Definition logging : Commands Shell :=
  {| run := fun cmd args => logged_as (Ran cmd args) cmd;
     Exec := fun cmd args => logged_as (Ran cmd args) cmd;
     targz_Tar := fun opts => logged_as (Tarred opts) "tar";
     os_RemoveAll := fun p w => {| failing := failing w; history := history w ++ [Removed p] |};
     GetDateTimeNow := fun _ _ => "2025-03-01_00-00" |}.

(** A host on which nothing fails, and one on which the command number
    [n] fails. *)
Definition calm : Shell := {| failing := fun _ => false; history := [] |}.
Definition failing_at (n : nat) : Shell :=
  {| failing := fun k => bool_decide (k = n); history := [] |}.

(** [s] holds [sub] somewhere. *)
Definition has_infix (sub s : string) : Prop := ∃ pre post, s = pre +:+ sub +:+ post.

(** A mongodb target with two collections. *)
Definition two_collections : mongodump.target :=
  {| mongodump.host := "db:27017";
     mongodump.connOpts := {| mongodump.AuthDB := ""; mongodump.User := "backup";
                              mongodump.Passwd := "secret"; mongodump.TLSCAFile := "" |};
     mongodump.dbName := "shop";
     mongodump.collections := ["orders"; "users"];
     mongodump.extraKeys := [];
     mongodump.gzip := true |}.

Definition shop_job : job mongodump.target :=
  {| name := "mongo"; tmpDir := "/tmp"; needToMakeBackup := true; safetyBackup := false;
     deferredCopying := false; diskRateLimit := 0;
     targets := {[ "shop" := two_collections ]};
     dumpedObjects := ∅;
     TargetMetrics := {[ "shop" := ∅ ]} |}.

(** Parameters of a job with two sources; the user of the second names
    its database. *)
Definition two_sources : psql_physical.JobParams :=
  {| psql_physical.jp_Name := "pg"; psql_physical.TmpDir := "/tmp";
     psql_physical.NeedToMakeBackup := true; psql_physical.SafetyBackup := false;
     psql_physical.DeferredCopying := false; psql_physical.DiskRateLimit := 0;
     psql_physical.Sources :=
       [{| psql_physical.Name := "main";
           psql_physical.ConnectParams :=
             {| psql_physical.User := "backup"; psql_physical.Database := "postgres";
                psql_physical.rest := "" |};
           psql_physical.ExtraKeys := ["--checkpoint=fast"];
           psql_physical.Gzip := true; psql_physical.IsSlave := false |};
        {| psql_physical.Name := "replica";
           psql_physical.ConnectParams :=
             {| psql_physical.User := "backup@shop"; psql_physical.Database := "";
                psql_physical.rest := "" |};
           psql_physical.ExtraKeys := [];
           psql_physical.Gzip := false; psql_physical.IsSlave := true |}] |}.

(** The source [src] is the last of [srcs] with its name. *)
Definition last_named (srcs : list psql_physical.SourceParams)
    (src : psql_physical.SourceParams) : Prop :=
  ∃ pre post, srcs = pre ++ src :: post
              ∧ Forall (fun s => psql_physical.Name s ≠ psql_physical.Name src) post.

(** ** The words of the further properties *)

(** What the turn of the candidate [file] with the links [fl] may ask of
    the share: the removal of the candidate or of one of its links, the
    move of the candidate onto one of its links, the daily link made anew
    toward the weekly one. *)
Definition touches (file : string) (fl : smb.fileLinks) (m : Mutation) : Prop :=
  m = Remove_ file
  ∨ m = Remove_ (smb.wLink fl)
  ∨ m = Remove_ (smb.dLink fl)
  ∨ m = Rename_ file (smb.wLink fl)
  ∨ m = Rename_ file (smb.dLink fl)
  ∨ m = Symlink_ (path.Rel (path.Dir (smb.dLink fl)) (smb.wLink fl)) (smb.dLink fl).

(** The number of calls of a journal that failed. *)
Definition failed (g : list Event) : nat :=
  length (filter (fun e => ev_ok e = false) g).

(** An error that is not a multi-error: [multierror.Append] adds it as
    one. *)
Definition plain (e : error) : Prop :=
  match e with
  | ErrMulti _ => False
  | _ => True
  end.

(** A mutation that belongs to the turn of some candidate of [todo]. *)
Definition of_a_candidate (ls : smb.Links) (todo : list (string * option nat))
    (e : Event) : Prop :=
  ∃ file i fl, (file, Some i) ∈ todo ∧ smb.cells ls !! i = Some fl
               ∧ touches file fl (ev_call e).

(** What the result of a rotation tells of the mutations [g] it asked
    for. *)
Definition result_tells (r : option error) (g : list Event) : Prop :=
  match r with
  | None => failed g = 0%nat
  | Some (ErrMulti es) => (failed g <= length es)%nat
  | Some _ => g = []
  end.

(** Every pointer of the two maps of a rotation points into the store;
    in the deletion map none is nil. *)
Definition pointers_valid (ls : smb.Links) : Prop :=
  (∀ k i, smb.filesMap ls !! k = Some i → (i < length (smb.cells ls))%nat)
  ∧ (∀ k p, smb.filesToDeleteMap ls !! k = Some p →
            ∃ i, p = Some i ∧ (i < length (smb.cells ls))%nat).

(** The counts of a policy by count are positive in every bucket in
    use. *)
Definition counts_positive (r : Retention) : Prop :=
  UseCount r = true → ∀ p, bucket r p = (0, 0) ∨ 1 <= (bucket r p).1 <= strconv.maxInt.

(** What the resolvers return for a delivery, as [DeliveryBackup] reads
    it: a storage by buckets has no metadata destination. *)
Definition resolved `{smb.Resolvers} (s : smb.SMB) (tmpBackupFile ofs bakType : string)
  : smb.Resolved :=
  if String.eqb bakType IncFiles
  then smb.GetIncBackupDstAndLinks tmpBackupFile ofs (smb.backupPath s)
  else
    let d := smb.GetDescBackupDstAndLinks tmpBackupFile ofs (smb.backupPath s)
               (smb.retention s) in
    {| smb.bakDstPath := smb.bakDstPath d; smb.mtdDstPath := ""; smb.links := smb.links d;
       smb.resolve_err := smb.resolve_err d |}.

(** No call but the last of [g] failed. *)
Definition stops_at_failure (g : list Event) : Prop := failed (removelast g) = 0%nat.

(** The dump objects of [j] are in [j'] with their temp files. *)
Definition keeps_files {target} (j j' : job target) : Prop :=
  ∀ ofs d, dumpedObjects j !! ofs = Some d →
           ∃ d', dumpedObjects j' !! ofs = Some d' ∧ TmpFile d' = TmpFile d.

(** An entry of a listing that is a plain file or directory: no symlink,
    and not one of the two names that the rotation passes over. *)
Definition plain_entry (f : FileInfo) : Prop :=
  IsSymlink f = false ∧ Name f ≠ "." ∧ Name f ≠ "..".

(** The bucket [p0] is the only one in use. *)
Definition only_bucket (r : Retention) (p0 : RetentionPeriod) : Prop :=
  (∀ p, p ≠ p0 → bucket r p = (0, 0))
  ∧ ((bucket r p0).1 =? 0) && IsZero (bucket r p0).2 = false.

(** The entries of the listing [files] of the bucket [p0] that are
    outdated: by count all but the newest [kept_count], by age those
    older than the date of the bucket. *)
Definition the_outdated `{Runtime} (r : Retention) (safety : bool) (p0 : RetentionPeriod)
    (files : list FileInfo) : list FileInfo :=
  if UseCount r
  then take (length files - kept_count safety (bucket r p0).1) (sort_Slice files)
  else filter (fun f => ModTime f < (bucket r p0).2) files.

(** ** A host that records what is asked of it

    [DoBackup] changes the world through three calls: [os.MkdirAll],
    [createTmpBackup] and [Storages.Delivery].  The host [recording h] is
    the host [h] with a record of these calls.  The record is written by
    the calls themselves, not by [DoBackup]: each call adds what it was
    given, the state of the host it was made in, what it returned and the
    state of the host it left. *)

Section Recorded.
Context {target W : Type}.

Inductive Asked :=
| AskedMkdirAll (p : string) (w : W) (err : option error) (w' : W)
| AskedTmpBackup (j : job target) (tmpBackupFile ofs : string) (tgt : target) (w : W)
    (err : option error) (w' : W)
| AskedDelivery (j : job target) (w : W) (err : option error) (cs : list JobCall) (w' : W).

Definition recording (h : Host target W) : Host target (W * list Asked) :=
  {| clock := fun w => clock h w.1;
     GetFileFullPath := fun tmpDir ofs ext suffix gz w =>
       GetFileFullPath h tmpDir ofs ext suffix gz w.1;
     os_MkdirAll := fun p w =>
       let '(err, w') := os_MkdirAll h p w.1 in
       (err, (w', w.2 ++ [AskedMkdirAll p w.1 err w']));
     os_Stat := fun f w => os_Stat h f w.1;
     storages_Delivery := fun j w =>
       let '(err, cs, w') := storages_Delivery h j w.1 in
       (err, cs, (w', w.2 ++ [AskedDelivery j w.1 err cs w']));
     createTmpBackup := fun j f ofs tgt w =>
       let '(err, w') := createTmpBackup h j f ofs tgt w.1 in
       (err, (w', w.2 ++ [AskedTmpBackup j f ofs tgt w.1 err w']));
     gzip := gzip h |}.

(** The record of a run, and the run without its record. *)
Definition record_of (r : Run target (W * list Asked)) : list Asked := (run_host r).2.

Definition unrecorded (r : Run target (W * list Asked)) : Run target W :=
  {| run_job := run_job r; run_errs := run_errs r; run_host := (run_host r).1;
     run_calls := run_calls r |}.

Definition unrecorded_outcome (o : Outcome (Run target (W * list Asked)))
  : Outcome (Run target W) :=
  match o with
  | Panicked => Panicked
  | Returned r => Returned (unrecorded r)
  end.

(** What an entry of the record asked for, and the error it returned. *)
Definition asked_what (a : Asked) : string * option error :=
  match a with
  | AskedMkdirAll p _ err _ => ("MkdirAll " +:+ p, err)
  | AskedTmpBackup _ f ofs _ _ err _ => ("createTmpBackup " +:+ ofs +:+ " " +:+ f, err)
  | AskedDelivery _ _ err _ _ => ("Delivery", err)
  end.

(** An entry of the record is a call of [h] with its answer. *)
Definition answered (h : Host target W) (a : Asked) : Prop :=
  match a with
  | AskedMkdirAll p w err w' => os_MkdirAll h p w = (err, w')
  | AskedTmpBackup j f ofs tgt w err w' => createTmpBackup h j f ofs tgt w = (err, w')
  | AskedDelivery j w err cs w' => storages_Delivery h j w = (err, cs, w')
  end.

(** What the turn of the target [x] asks of the host, from the state [w]
    of the host to the state [w'].  The directory of the temp file is
    made first; when that fails the turn is over.  Then the artifact is
    asked for, once, in the state that [os.MkdirAll] left; when that
    fails the turn is over.  When the artifact was made and copying is
    deferred, the turn is over as well.  When it is not deferred one
    delivery follows in the state that [createTmpBackup] left, and the
    job it is handed holds the artifact as the dump object of the
    target, not yet delivered. *)
Definition turn_calls (h : Host target W) (tmpDir : string) (deferred : bool)
    (x : string * target) (w : W) (st : list Asked) (w' : W) : Prop :=
  let f := GetFileFullPath h tmpDir x.1 "tar" "" (gzip h x.2) w in
  (∃ err, st = [AskedMkdirAll (path.Dir f) w (Some err) w'])
  ∨ (∃ w1 j1 err,
       st = [AskedMkdirAll (path.Dir f) w None w1;
             AskedTmpBackup j1 f x.1 x.2 w1 (Some err) w'])
  ∨ (∃ w1 j1 w2,
       let made := [AskedMkdirAll (path.Dir f) w None w1;
                    AskedTmpBackup j1 f x.1 x.2 w1 None w2] in
       if deferred then st = made ∧ w' = w2
       else ∃ j3 err cs,
              st = made ++ [AskedDelivery j3 w2 err cs w']
              ∧ dumpedObjects j3 !! x.1 = Some {| TmpFile := f; Delivered := false |}).

(** The turns of the targets [todo], one after the other: each starts in
    the state of the host that the one before left. *)
Inductive turns (h : Host target W) (tmpDir : string) (deferred : bool)
  : list (string * target) → W → list (list Asked) → W → Prop :=
| turns_done w : turns h tmpDir deferred [] w [] w
| turns_next x todo w st w1 steps w' :
    turn_calls h tmpDir deferred x w st w1 →
    turns h tmpDir deferred todo w1 steps w' →
    turns h tmpDir deferred (x :: todo) w (st :: steps) w'.

(** The artifact of a turn: the temp file for which [createTmpBackup]
    returned nil, with what [os.Stat] reads of its size in the state of
    the host that the call left.  A turn in which the directory or the
    artifact could not be made has none. *)
Definition artifact_of (h : Host target W) (st : list Asked) : option (string * option Z) :=
  match st with
  | _ :: AskedTmpBackup _ f _ _ _ None w' :: _ => Some (f, os_Stat h f w')
  | _ => None
  end.

(** The error [err] is among the errors [errs]. *)
Definition noted_in (err : error) (errs : list error) : Prop :=
  ∃ pre post, errs = pre ++ flat err ++ post.

(** What the run leaves in the metrics of the target [ofs] whose turn
    was [st], in the job [j'] and the errors [errs'] it ends with.  When
    the directory could not be made: [BackupOk] and [BackupSize] are 0
    and the error is among those of the run.  When the artifact could
    not be made: the same, and [BackupTime] is the time in milliseconds
    from the start of the turn to the return of [createTmpBackup].  When
    it was made: [BackupOk] is 1, [BackupSize] is the size of the temp
    file and [BackupTime] is that time. *)
Definition turn_metrics (h : Host target W) (j' : job target) (errs' : list error)
    (ofs : string) (st : list Asked) : Prop :=
  match st with
  | AskedMkdirAll _ _ (Some err) _ :: _ =>
      metric j' ofs metrics.BackupOk = Some (float64 0)
      ∧ metric j' ofs metrics.BackupSize = Some (float64 0)
      ∧ noted_in err errs'
  | AskedMkdirAll _ w0 None _ :: AskedTmpBackup _ _ _ _ _ (Some err) w2 :: _ =>
      metric j' ofs metrics.BackupOk = Some (float64 0)
      ∧ metric j' ofs metrics.BackupSize = Some (float64 0)
      ∧ metric j' ofs metrics.BackupTime
        = Some (float64 (Z.quot (clock h w2 - clock h w0) (10 ^ 6)))
      ∧ noted_in err errs'
  | AskedMkdirAll _ w0 None _ :: AskedTmpBackup _ f _ _ _ None w2 :: _ =>
      metric j' ofs metrics.BackupOk = Some (float64 1)
      ∧ (∃ size, os_Stat h f w2 = Some size
                 ∧ metric j' ofs metrics.BackupSize = Some (float64 size))
      ∧ metric j' ofs metrics.BackupTime
        = Some (float64 (Z.quot (clock h w2 - clock h w0) (10 ^ 6)))
  | _ => False
  end.

(** The dump object of [ofs] in [j'], when there is one, is the one of
    [j], with its temp file. *)
Definition came_from (j j' : job target) (ofs : string) : Prop :=
  ∀ d', dumpedObjects j' !! ofs = Some d' →
        ∃ d, dumpedObjects j !! ofs = Some d ∧ TmpFile d' = TmpFile d.

(** The dump object of [ofs] in [j], when there is one, is in [j'] with
    its temp file. *)
Definition kept_at (j j' : job target) (ofs : string) : Prop :=
  ∀ d, dumpedObjects j !! ofs = Some d →
       ∃ d', dumpedObjects j' !! ofs = Some d' ∧ TmpFile d' = TmpFile d.

(** What a run from the job [j] leaves in the job [j'] as the dump
    object of the target [ofs] whose turn was [st]: the artifact of the
    turn, under the name of the target and with the path of the temp
    file; and when the turn made no artifact, what the job held for the
    target before, and nothing when it held nothing. *)
Definition turn_dumps (h : Host target W) (j j' : job target) (ofs : string)
    (st : list Asked) : Prop :=
  match artifact_of h st with
  | Some (f, _) => ∃ d, dumpedObjects j' !! ofs = Some d ∧ TmpFile d = f
  | None => came_from j j' ofs ∧ kept_at j j' ofs
  end.

End Recorded.

Arguments Asked : clear implicits.

(** * Properties *)

(** ** Arithmetic of [int] *)

Lemma wrap64_small z : strconv.minInt <= z <= strconv.maxInt → wrap64 z = z.
Proof.
  unfold wrap64, strconv.minInt, strconv.maxInt. intros Hz.
  rewrite Z.mod_small; lia.
Qed.

(** ** The outdated entries of a bucket by count *)

Section Count.
Context `{Runtime}.

Lemma sort_Slice_length l : length (sort_Slice l) = length l.
Proof. apply Permutation_length, sort_Slice_perm. Qed.

Lemma outdated_count safety count date l :
  1 <= count <= strconv.maxInt →
  Z.of_nat (length l) <= strconv.maxInt →
  smb.outdated true safety count date l =
    Returned (take (length l - kept_count safety count) (sort_Slice l)).
Proof.
  intros Hc Hl. unfold smb.outdated, kept_count.
  assert (Hmin : strconv.minInt = - 2 ^ 63) by reflexivity.
  assert (Hmax : strconv.maxInt = 2 ^ 63 - 1) by reflexivity.
  rewrite sort_Slice_length.
  set (rc := if negb safety then wrap64 (count - 1) else count).
  assert (Hrc : rc = if safety then count else count - 1).
  { subst rc. destruct safety; simpl; [done|]. apply wrap64_small. lia. }
  rewrite Hrc. clear rc Hrc.
  set (k := if safety then count else count - 1).
  assert (Hk : 0 <= k <= strconv.maxInt) by (subst k; destruct safety; lia).
  destruct (Z.leb_spec k (Z.of_nat (length l))) as [Hle|Hgt].
  - rewrite wrap64_small by lia.
    replace ((0 <=? Z.of_nat (length l) - k) && (Z.of_nat (length l) - k <=? Z.of_nat (length l)))
      with true by (symmetry; apply andb_true_iff; split; apply Z.leb_le; lia).
    do 2 f_equal. lia.
  - replace (length l - Z.to_nat k)%nat with 0%nat by lia. by rewrite take_0.
Qed.

Lemma mark_toDel bakDir old ls k :
  smb.toDel ls k = true → smb.toDel (smb.mark bakDir old ls) k = true.
Proof.
  revert ls. induction old as [|f old IH]; intros ls Hk; simpl; [done|].
  destruct (_ || _); [by apply IH|]. apply IH.
  unfold smb.toDel in *. simpl.
  destruct (decide (path.Join [bakDir; Name f] = k)) as [->|Hne].
  - by rewrite lookup_insert_eq.
  - by rewrite lookup_insert_ne.
Qed.

Lemma mark_candidates bakDir old ls f :
  f ∈ old → Name f ≠ ".." → Name f ≠ "." →
  smb.toDel (smb.mark bakDir old ls) (path.Join [bakDir; Name f]) = true.
Proof.
  revert ls. induction old as [|g old IH]; intros ls Hin Hn1 Hn2; [by inversion Hin|].
  simpl. apply elem_of_cons in Hin as [->|Hin].
  - destruct (String.eqb_spec (Name g) ".."); [done|].
    destruct (String.eqb_spec (Name g) "."); [done|]. simpl.
    apply mark_toDel. unfold smb.toDel. simpl. by rewrite lookup_insert_eq.
  - destruct (_ || _); by apply IH.
Qed.

End Count.

Lemma mark_other bakDir old ls k :
  k ∉ entry_path bakDir <$> old →
  smb.toDel (smb.mark bakDir old ls) k = smb.toDel ls k.
Proof.
  revert ls. induction old as [|f old IH]; intros ls Hk; simpl; [done|].
  rewrite fmap_cons in Hk. apply not_elem_of_cons in Hk as [Hne Hk].
  destruct (_ || _); [by apply IH|]. rewrite IH by done.
  unfold smb.toDel, entry_path in *. simpl. by rewrite lookup_insert_ne.
Qed.




(** ** Rotation switched off *)

(** C9.  With [rotateEnabled = false], [DeleteOldBackups] returns nil for
    every job, [ofsPart] and [full], without a single call to the share:
    the share, its files and symlinks, its journal, is the one it was. *)
Theorem rotation_disabled_is_noop `{Runtime} (now : string → string) (s : smb.SMB)
    (ofsPart : string) (job : JobView) (full : bool) (sh : Share) :
  smb.rotateEnabled s = false →
  smb.DeleteOldBackups now s ofsPart job full sh = (Returned None, sh).
Proof. intros Hoff. unfold smb.DeleteOldBackups. by rewrite Hoff. Qed.

Lemma rotation_disabled_is_noop_witness :
  smb.DeleteOldBackups (H := stable_runtime) (fun _ => "01")
    {| smb.name := "nas"; smb.backupPath := "backups"; smb.rateLimit := 0;
       smb.rotateEnabled := false; smb.retention := count_retention 1 1 1 |}
    "db" {| GetName := "pg"; GetType := "postgresql"; IsBackupSafety := false |}
    true (reliable three_monthly)
  = (Returned None, reliable three_monthly).
Proof. apply rotation_disabled_is_noop. reflexivity. Defined.

(** ** The journal of the share *)

Lemma mutate_journal m sh :
  ∃ ok, journal (share.mutate m sh).2 = journal sh ++ [{| ev_call := m; ev_ok := ok |}]
        ∧ (ok = true ↔ (share.mutate m sh).1 = None).
Proof.
  unfold share.mutate. destruct (faults sh (calls sh)).
  - exists false. simpl. split; [done|]. split; discriminate.
  - destruct (share.apply _ _ _); simpl.
    + exists false. split; [done|]. split; discriminate.
    + exists true. by split.
Qed.

Lemma ReadDir_journal dir sh : journal (share.ReadDir dir sh).2 = journal sh.
Proof.
  unfold share.ReadDir. destruct (faults sh (calls sh)); [done|].
  by destruct (share.lookup _ _) as [[]|].
Qed.

Lemma Readlink_journal p sh : journal (share.Readlink p sh).2 = journal sh.
Proof.
  unfold share.Readlink. destruct (faults sh (calls sh)); [done|].
  by destruct (share.lookup _ _) as [[]|].
Qed.

Lemma scan_journal p bakDir l ls errs sh :
  journal (smb.scan p bakDir l ls errs sh).2 = journal sh.
Proof.
  revert ls errs sh. induction l as [|f l IH]; intros ls errs sh; simpl; [done|].
  destruct (IsSymlink f); [|apply IH].
  pose proof (Readlink_journal (path.Join [bakDir; Name f]) sh) as HR.
  destruct (share.Readlink _ sh) as [[err|link] sh1]; simpl in HR;
    rewrite IH; exact HR.
Qed.

Lemma collect_journal `{Runtime} s ofsPart safety periods ls errs sh :
  journal (smb.collect s ofsPart safety periods ls errs sh).2 = journal sh.
Proof.
  revert ls errs sh. induction periods as [|p ps IH]; intros ls errs sh; simpl; [done|].
  destruct (GetRetention p (smb.retention s)) as [rc rd].
  destruct (_ && _); [apply IH|].
  pose proof (ReadDir_journal (path.Join [smb.backupPath s; ofsPart; period_String p]) sh) as HR.
  destruct (share.ReadDir _ sh) as [[err|files] sh1]; simpl in HR.
  - destruct (IsNotExist err); [by rewrite IH|done].
  - pose proof (scan_journal p (path.Join [smb.backupPath s; ofsPart; period_String p])
                  files ls errs sh1) as HS.
    destruct (smb.scan _ _ _ _ _ _) as [[ls1 errs1] sh2]. simpl in HS.
    destruct (smb.outdated _ _ _ _ _); simpl; [rewrite IH|]; congruence.
Qed.

Lemma moveFile_events file n sh :
  ∃ g moved, journal (smb.moveFile file n sh).2 = journal sh ++ g
             ∧ move_events file n g moved
             ∧ moved = match (smb.moveFile file n sh).1 with None => true | Some _ => false end.
Proof.
  unfold smb.moveFile, share.Remove, share.Rename.
  destruct (mutate_journal (Remove_ n) sh) as (ok1 & H1 & Hok1).
  destruct (share.mutate (Remove_ n) sh) as [[e1|] sh1]; simpl in *.
  - assert (ok1 = false) as -> by (destruct ok1; [discriminate (proj1 Hok1 eq_refl)|done]).
    exists [ev (Remove_ n) false], false. split; [done|]. split; [by left|done].
  - assert (ok1 = true) as -> by (by apply Hok1).
    destruct (mutate_journal (Rename_ file n) sh1) as (ok2 & H2 & Hok2).
    destruct (share.mutate (Rename_ file n) sh1) as [[e2|] sh2]; simpl in *.
    + assert (ok2 = false) as -> by (destruct ok2; [discriminate (proj1 Hok2 eq_refl)|done]).
      exists [ev (Remove_ n) true; ev (Rename_ file n) false], false.
      split; [by rewrite H2, H1, <- app_assoc|]. split; [right; by exists false|done].
    + assert (ok2 = true) as -> by (by apply Hok2).
      exists [ev (Remove_ n) true; ev (Rename_ file n) true], true.
      split; [by rewrite H2, H1, <- app_assoc|]. split; [right; by exists true|done].
Qed.

Lemma relink_events_of fl sh :
  ∃ g cut, relink_events fl g cut
    ∧ match share.Remove (smb.dLink fl) sh with
      | (Some err, sh2) => journal sh2 = journal sh ++ g ∧ cut = true
      | (None, sh2) =>
          journal (share.Symlink (path.Rel (path.Dir (smb.dLink fl)) (smb.wLink fl))
                     (smb.dLink fl) sh2).2 = journal sh ++ g
          ∧ cut = false
      end.
Proof.
  unfold share.Remove, share.Symlink.
  destruct (mutate_journal (Remove_ (smb.dLink fl)) sh) as (ok2 & H2 & Hok2).
  destruct (share.mutate (Remove_ (smb.dLink fl)) sh) as [[e2|] sh2]; simpl in *.
  - assert (ok2 = false) as -> by (destruct ok2; [discriminate (proj1 Hok2 eq_refl)|done]).
    exists [ev (Remove_ (smb.dLink fl)) false], true. split; [by left|done].
  - assert (ok2 = true) as -> by (by apply Hok2).
    destruct (mutate_journal
                (Symlink_ (path.Rel (path.Dir (smb.dLink fl)) (smb.wLink fl)) (smb.dLink fl))
                sh2) as (ok3 & H3 & _).
    eexists [_; _], false. split; [right; by exists ok3|].
    split; [|done]. by rewrite H3, H2, <- app_assoc.
Qed.

Lemma reconcile_one_events ls file i fl errs sh :
  smb.cells ls !! i = Some fl →
  ∃ g (cut : bool) errs' sh',
    smb.reconcile_one ls file (Some i) errs sh
    = (Returned (if cut then smb.Break else smb.Continue, errs'), sh')
    ∧ journal sh' = journal sh ++ g
    ∧ turn_events ls file fl g cut.
Proof.
  intros Hfl. unfold smb.reconcile_one. simpl. rewrite Hfl.
  unfold turn_events, smb.weekly, smb.daily, smb.unlink.
  destruct (negb (String.eqb (smb.wLink fl) "") && negb (smb.toDel ls (smb.wLink fl)))
    eqn:Hweekly.
  - destruct (moveFile_events file (smb.wLink fl) sh) as (gm & moved & Hm & Hgm & Hmoved).
    destruct (smb.moveFile file (smb.wLink fl) sh) as [e sh1]. simpl in Hm, Hmoved.
    rewrite <- Hmoved.
    destruct (smb.toDel ls (smb.dLink fl)) eqn:Hd; simpl.
    + rewrite andb_false_r. simpl.
      exists gm, false. eexists _, _. split; [reflexivity|].
      split; [done|]. exists gm, moved, [], []. rewrite !app_nil_r.
      split; [done|]. split; [done|]. split; [done|]. by rewrite andb_false_r.
    + destruct (relink_events_of fl sh1) as (gl & cut & Hgl & Hrun).
      destruct (share.Remove (smb.dLink fl) sh1) as [[err|] sh2].
      * destruct Hrun as [Hj ->]. simpl.
        exists (gm ++ gl), true. eexists _, _. split; [reflexivity|].
        split; [by rewrite Hj, Hm, <- app_assoc|].
        exists gm, moved, gl, []. by rewrite app_nil_r.
      * destruct (share.Symlink _ _ sh2) as [e3 sh3]. destruct Hrun as [Hj ->]. simpl in *.
        rewrite andb_true_r.
        destruct (negb (String.eqb (smb.dLink fl) "") && negb moved) eqn:Hdaily; simpl.
        -- destruct (moveFile_events file (smb.dLink fl) sh3) as (gd & m' & Hgd & Hmd & _).
           destruct (smb.moveFile file (smb.dLink fl) sh3) as [e4 sh4]. simpl in *.
           exists (gm ++ gl ++ gd), false. eexists _, _. split; [reflexivity|].
           split; [by rewrite Hgd, Hj, Hm, <- !app_assoc|].
           exists gm, moved, gl, gd. split; [done|]. split; [done|]. split; [done|].
           simpl. rewrite andb_true_r, Hdaily. by exists m'.
        -- exists (gm ++ gl), false. eexists _, _. split; [reflexivity|].
           split; [by rewrite Hj, Hm, <- app_assoc|].
           exists gm, moved, gl, []. rewrite app_nil_r. split; [done|]. split; [done|].
           split; [done|]. simpl. by rewrite andb_true_r, Hdaily.
  - simpl. rewrite andb_true_r.
    destruct (negb (String.eqb (smb.dLink fl) "") && negb (smb.toDel ls (smb.dLink fl)))
      eqn:Hdaily; simpl.
    + destruct (moveFile_events file (smb.dLink fl) sh) as (gd & m' & Hgd & Hmd & _).
      destruct (smb.moveFile file (smb.dLink fl) sh) as [e4 sh4]. simpl in *.
      exists gd, false. eexists _, _. split; [reflexivity|]. split; [done|].
      split; [done|]. by exists m'.
    + unfold share.Remove.
      destruct (mutate_journal (Remove_ file) sh) as (ok & Hj & _).
      destruct (share.mutate (Remove_ file) sh) as [e sh1]. simpl in *.
      exists [ev (Remove_ file) ok], false. eexists _, _. split; [reflexivity|].
      split; [done|]. split; [done|]. by exists ok.
Qed.

Lemma reconcile_pass ls todo errs sh :
  ∃ groups, journal (smb.reconcile ls todo errs sh).2 = journal sh ++ concat groups
            ∧ pass ls todo groups.
Proof.
  revert errs sh. induction todo as [|[file ptr] todo IH]; intros errs sh; simpl.
  - exists []. rewrite app_nil_r. split; [done|constructor].
  - destruct (ptr ≫= (fun i => smb.cells ls !! i)) as [fl|] eqn:Hptr.
    + destruct ptr as [i|]; [|done]. simpl in Hptr.
      destruct (reconcile_one_events ls file i fl errs sh Hptr)
        as (g & cut & errs1 & sh1 & Hone & Hj & Hturn).
      rewrite Hone. destruct cut.
      * exists [g]. simpl. rewrite app_nil_r. split; [done|].
        apply pass_cut. unfold turn_of. simpl. rewrite Hptr. by exists true.
      * destruct (IH errs1 sh1) as (groups & Hjs & Hpass).
        exists (g :: groups). simpl. rewrite Hjs, Hj, <- app_assoc. split; [done|].
        apply pass_on; [|done]. unfold turn_of. simpl. rewrite Hptr. by exists false.
    + unfold smb.reconcile_one. rewrite Hptr. exists [[]]. simpl. rewrite app_nil_r.
      split; [done|]. apply pass_cut. unfold turn_of. simpl. by rewrite Hptr.
Qed.

Lemma move_events_spec file n g moved e :
  move_events file n g moved → e ∈ g →
  ev_call e = Remove_ n ∨ ev_call e = Rename_ file n.
Proof.
  intros [[-> _]|(ok & -> & _)] He.
  - apply list_elem_of_singleton in He as ->. by left.
  - apply elem_of_cons in He as [->|He]; [by left|].
    apply list_elem_of_singleton in He as ->. by right.
Qed.

Lemma relink_events_spec fl g cut e :
  relink_events fl g cut → e ∈ g →
  ev_call e = Remove_ (smb.dLink fl)
  ∨ ev_call e = Symlink_ (path.Rel (path.Dir (smb.dLink fl)) (smb.wLink fl)) (smb.dLink fl).
Proof.
  intros [[-> _]|(ok & -> & _)] He.
  - apply list_elem_of_singleton in He as ->. by left.
  - apply elem_of_cons in He as [->|He]; [by left|].
    apply list_elem_of_singleton in He as ->. by right.
Qed.

(** What the turns say of one candidate: every mutation of its turn is
    its own removal, the removal of one of its links that stays, its move
    onto such a link, or its new daily symlink; and its own removal is
    all of its turn. *)
Lemma turn_keeps_to_its_candidate ls file fl g cut :
  smb.toDel ls file = true → turn_events ls file fl g cut →
  (∀ e, e ∈ g →
     ev_call e = Remove_ file
     ∨ (∃ n, n ∈ [smb.wLink fl; smb.dLink fl] ∧ smb.toDel ls n = false
             ∧ (ev_call e = Remove_ n ∨ ev_call e = Rename_ file n))
     ∨ ev_call e = Symlink_ (path.Rel (path.Dir (smb.dLink fl)) (smb.wLink fl))
                     (smb.dLink fl))
  ∧ (∀ e, e ∈ g → ev_call e = Remove_ file → g = [e]).
Proof.
  intros Hfile. unfold turn_events.
  destruct (negb (String.eqb (smb.wLink fl) "") && negb (smb.toDel ls (smb.wLink fl)))
    eqn:Hweekly.
  - apply andb_true_iff in Hweekly as [_ Hw%negb_true_iff].
    intros (gm & moved & gl & gd & -> & Hgm & Hgl & Hgd).
    assert (Hall : ∀ e, e ∈ gm ++ gl ++ gd →
              (∃ n, n ∈ [smb.wLink fl; smb.dLink fl] ∧ smb.toDel ls n = false
                    ∧ (ev_call e = Remove_ n ∨ ev_call e = Rename_ file n))
              ∨ ev_call e = Symlink_ (path.Rel (path.Dir (smb.dLink fl)) (smb.wLink fl))
                              (smb.dLink fl)).
    { intros e He. apply elem_of_app in He as [He|He].
      { left. exists (smb.wLink fl). split; [by left|]. split; [done|].
        by eapply move_events_spec. }
      destruct (smb.toDel ls (smb.dLink fl)) eqn:Hd.
      { destruct Hgl as [-> ->]. rewrite andb_false_r in Hgd. subst gd.
        by apply elem_of_nil in He. }
      apply elem_of_app in He as [He|He].
      - destruct (relink_events_spec _ _ _ _ Hgl He) as [Hr|Hs]; [|by right].
        left. exists (smb.dLink fl). split; [by right; left|]. split; [done|]. by left.
      - destruct (negb cut && _ && _ && _); [|subst gd; by apply elem_of_nil in He].
        destruct Hgd as [m' Hgd]. left. exists (smb.dLink fl).
        split; [by right; left|]. split; [done|]. by eapply move_events_spec. }
    split; [intros e He; right; by apply Hall|].
    intros e He Hcall. exfalso.
    destruct (Hall e He) as [(n & _ & Hn & [Hr|Hr])|Hs]; rewrite Hcall in *; try done.
    injection Hr as Heq. rewrite Heq in Hfile. congruence.
  - intros [-> Hg].
    destruct (negb (String.eqb (smb.dLink fl) "") && negb (smb.toDel ls (smb.dLink fl)))
      eqn:Hdaily.
    + apply andb_true_iff in Hdaily as [_ Hd%negb_true_iff]. destruct Hg as [m' Hg].
      assert (Hall : ∀ e, e ∈ g → ev_call e = Remove_ (smb.dLink fl)
                                  ∨ ev_call e = Rename_ file (smb.dLink fl)).
      { intros e He. by eapply move_events_spec. }
      split.
      * intros e He. right. left. exists (smb.dLink fl).
        split; [by right; left|]. split; [done|]. by apply Hall.
      * intros e He Hcall. exfalso. destruct (Hall e He) as [Hr|Hr]; rewrite Hcall in Hr;
          [|done]. injection Hr as Heq. rewrite Heq in Hfile. congruence.
    + destruct Hg as [ok ->]. split.
      * intros e He. apply list_elem_of_singleton in He as ->. by left.
      * intros e He _. by apply list_elem_of_singleton in He as ->.
Qed.

Lemma range_map_candidates `{Runtime} (ls : smb.Links) file ptr :
  (file, ptr) ∈ range_map (smb.filesToDeleteMap ls) → smb.toDel ls file = true.
Proof.
  rewrite range_map_perm. intros Hin%elem_of_map_to_list.
  unfold smb.toDel. by rewrite Hin.
Qed.

Lemma range_map_once `{Runtime} {V} (m : gmap string V) : NoDup (range_map m).*1.
Proof. rewrite range_map_perm. apply NoDup_fst_map_to_list. Qed.

(** C8 (amended).  A pass handles the entries of the deletion map one
    after the other, in the order in which [range] visits the map, each
    entry once; every entry of the map is a candidate.  The mutations of
    the pass are the turns of the candidates, in that order, up to the
    first turn that cuts the pass short, and all of them when there is
    none.  The turn of a candidate holds the mutations of this candidate
    and of its own links and no other: with a weekly link that stays the
    candidate is moved onto it (and never removed), otherwise it is moved
    onto a daily link that stays, and removed, by one removal that is
    all of its turn, when there is neither.  So a candidate is moved or
    removed, never both, and nothing puts the moves of some candidates
    before the removals of others. *)
Theorem rotation_handles_candidates_in_turn `{Runtime} (ls : smb.Links)
    (errs : list error) (sh : Share) :
  let todo := range_map (smb.filesToDeleteMap ls) in
  NoDup todo.*1
  ∧ (∀ x, x ∈ todo → smb.toDel ls x.1 = true)
  ∧ ∃ groups,
      journal (smb.reconcile ls todo errs sh).2 = journal sh ++ concat groups
      ∧ pass ls todo groups.
Proof.
  intros todo. split; [apply range_map_once|]. split.
  - intros [file ptr]. apply range_map_candidates.
  - apply reconcile_pass.
Qed.

(** C8 as stated fails: when [range] visits [b.tar] before [a.tar], the
    removal of [b.tar] is the first mutation of the pass and the move of
    [a.tar] onto its weekly link comes after it. *)
Lemma removal_before_move_counterexample :
  ¬ moves_before_deletes
      ["backups/db/monthly/a.tar"; "backups/db/monthly/b.tar"]
      (journal (smb.deleteDescBackup (H := reversed_runtime) monthly_one "db" false
                  (reliable both_links)).2).
Proof.
  intros Hclaim.
  apply (Hclaim 0%nat 2%nat "backups/db/monthly/b.tar"
           "backups/db/monthly/a.tar" "backups/db/weekly/a.tar" true true).
  - lia.
  - vm_compute. reflexivity.
  - apply list_elem_of_further, list_elem_of_here.
  - vm_compute. reflexivity.
Qed.

(** C4 at the failing input.  [a.tar] has a weekly and a daily link,
    [b.tar] has none, both are outdated, and the transport drops call 7,
    the removal of the daily link of [a.tar].  The error is returned, but
    the pass ends there: [b.tar] is never asked to be removed and stays on
    the share.  When the transport drops call 5 instead (the removal of
    the weekly link inside the move), the pass goes on and removes
    [b.tar]. *)
Theorem failed_daily_unlink_ends_the_pass :
  let stopped := smb.deleteDescBackup (H := stable_runtime) monthly_one "db" false
                   (drops 7 both_links) in
  let went_on := smb.deleteDescBackup (H := stable_runtime) monthly_one "db" false
                   (drops 5 both_links) in
  stopped.1 = Returned (Some (ErrMulti [ErrTransport 7]))
  ∧ asked stopped.2 =
      [Remove_ "backups/db/weekly/a.tar";
       Rename_ "backups/db/monthly/a.tar" "backups/db/weekly/a.tar";
       Remove_ "backups/db/daily/a.tar"]
  ∧ share.lookup "backups/db/monthly/b.tar" (nodes stopped.2) = Some (File 2 "b")
  ∧ went_on.1 = Returned (Some (ErrMulti
      [ErrWrap "Failed to delete file" "backups/db/monthly/a.tar" (ErrTransport 5)]))
  ∧ last (asked went_on.2) = Some (Remove_ "backups/db/monthly/b.tar")
  ∧ share.lookup "backups/db/monthly/b.tar" (nodes went_on.2) = None.
Proof. vm_compute. repeat split. Qed.

(** C2 at the failing input.  [a.tar] is the target of a surviving weekly
    link and of no daily link, [b.tar] has no link, both are outdated.
    [a.tar] is moved onto the weekly link; then the code looks up the
    empty daily link in the deletion set, does not find it, asks the share
    to remove the empty path, and leaves the loop on the error: [b.tar],
    which should be removed, stays. *)
Theorem weekly_promotion_ends_the_pass :
  let r := smb.deleteDescBackup (H := stable_runtime) monthly_one "db" false
             (reliable weekly_link_only) in
  r.1 = Returned (Some (ErrMulti [ErrNotExist ""]))
  ∧ asked r.2 =
      [Remove_ "backups/db/weekly/a.tar";
       Rename_ "backups/db/monthly/a.tar" "backups/db/weekly/a.tar";
       Remove_ ""]
  ∧ share.lookup "backups/db/weekly/a.tar" (nodes r.2) = Some (File 1 "a")
  ∧ share.lookup "backups/db/monthly/b.tar" (nodes r.2) = Some (File 2 "b").
Proof. vm_compute. repeat split. Qed.

(** Where the pass is not cut short, the candidates fare as the
    specification says.  [a.tar] with a weekly and a daily link is moved
    onto the weekly link and the daily link is made to point at it;
    [b.tar] without links is removed. *)
Example both_links_promoted :
  let r := smb.deleteDescBackup (H := stable_runtime) monthly_one "db" false
             (reliable both_links) in
  r.1 = Returned None
  ∧ asked r.2 =
      [Remove_ "backups/db/weekly/a.tar";
       Rename_ "backups/db/monthly/a.tar" "backups/db/weekly/a.tar";
       Remove_ "backups/db/daily/a.tar";
       Symlink_ "../weekly/a.tar" "backups/db/daily/a.tar";
       Remove_ "backups/db/monthly/b.tar"]
  ∧ share.lookup "backups/db/weekly/a.tar" (nodes r.2) = Some (File 1 "a")
  ∧ share.lookup "backups/db/daily/a.tar" (nodes r.2) = Some (Link 100 "../weekly/a.tar")
  ∧ share.lookup "backups/db/monthly/a.tar" (nodes r.2) = None
  ∧ share.lookup "backups/db/monthly/b.tar" (nodes r.2) = None.
Proof. vm_compute. repeat split. Qed.

(** [a.tar] with a daily link alone is moved onto it. *)
Example daily_link_promoted :
  let r := smb.deleteDescBackup (H := stable_runtime) monthly_one "db" false
             (reliable daily_link_only) in
  r.1 = Returned None
  ∧ asked r.2 =
      [Remove_ "backups/db/daily/a.tar";
       Rename_ "backups/db/monthly/a.tar" "backups/db/daily/a.tar";
       Remove_ "backups/db/monthly/b.tar"]
  ∧ share.lookup "backups/db/daily/a.tar" (nodes r.2) = Some (File 1 "a")
  ∧ share.lookup "backups/db/monthly/b.tar" (nodes r.2) = None.
Proof. vm_compute. repeat split. Qed.

(** ** Delivery *)

Lemma mutate_asked m sh : asked (share.mutate m sh).2 = asked sh ++ [m].
Proof.
  destruct (mutate_journal m sh) as (ok & Hj & _). unfold asked.
  by rewrite Hj, fmap_app.
Qed.

Lemma copy_asked local srcPath dstPath sh :
  ∃ g, asked (smb.copy local srcPath dstPath sh).2 = asked sh ++ g
       ∧ Forall (uploads_to dstPath) g.
Proof.
  unfold smb.copy, share.MkdirAll.
  pose proof (mutate_asked (MkdirAll_ (path.Dir dstPath)) sh) as H1.
  destruct (share.mutate (MkdirAll_ (path.Dir dstPath)) sh) as [[e1|] sh1]; simpl in H1.
  { eexists. split; [exact H1|]. by repeat constructor. }
  pose proof (mutate_asked (Create_ dstPath) sh1) as H2.
  destruct (share.mutate (Create_ dstPath) sh1) as [[e2|] sh2]; simpl in H2.
  { exists [MkdirAll_ (path.Dir dstPath); Create_ dstPath].
    split; [simpl; by rewrite H2, H1, <- app_assoc|]. by repeat constructor. }
  destruct (local !! srcPath) as [data|]; simpl.
  - pose proof (mutate_asked (Write_ dstPath data) sh2) as H3.
    exists [MkdirAll_ (path.Dir dstPath); Create_ dstPath; Write_ dstPath data].
    split; [by rewrite H3, H2, H1, <- !app_assoc|]. by repeat constructor.
  - exists [MkdirAll_ (path.Dir dstPath); Create_ dstPath].
    split; [by rewrite H2, H1, <- app_assoc|]. by repeat constructor.
Qed.

Lemma make_links_asked todo sh dst :
  ∃ g, asked (smb.make_links todo sh).2 = asked sh ++ g ∧ Forall (uploads_to dst) g.
Proof.
  revert sh. induction todo as [|[d s] todo IH]; intros sh; simpl.
  - exists []. by rewrite app_nil_r.
  - unfold share.MkdirAll, share.Symlink.
    pose proof (mutate_asked (MkdirAll_ (path.Dir d)) sh) as H1.
    destruct (share.mutate (MkdirAll_ (path.Dir d)) sh) as [[e1|] sh1]; simpl in H1.
    { eexists. split; [exact H1|]. by repeat constructor. }
    pose proof (mutate_asked (Symlink_ s d) sh1) as H2.
    destruct (share.mutate (Symlink_ s d) sh1) as [[e2|] sh2]; simpl in H2.
    { exists [MkdirAll_ (path.Dir d); Symlink_ s d].
      split; [simpl; by rewrite H2, H1, <- app_assoc|]. by repeat constructor. }
    destruct (IH sh2) as (g & Hg & Hup).
    exists (MkdirAll_ (path.Dir d) :: Symlink_ s d :: g).
    split; [by rewrite Hg, H2, H1, <- !app_assoc|]. by repeat constructor.
Qed.

(** Whatever the resolvers return, an incremental delivery uploads to the
    destination of the artifact and nowhere else: the metadata
    destination is never written. *)
Lemma incremental_delivery_uploads_to_bakDstPath `{Runtime} `{smb.Resolvers}
    (local : gmap string string) (s : smb.SMB) (tmpBackupFile ofs : string) (sh : Share) :
  let r := smb.GetIncBackupDstAndLinks tmpBackupFile ofs (smb.backupPath s) in
  ∃ g, asked (smb.DeliveryBackup local s tmpBackupFile ofs IncFiles sh).2 = asked sh ++ g
       ∧ Forall (uploads_to (smb.bakDstPath r)) g.
Proof.
  intros r. unfold smb.DeliveryBackup. rewrite String.eqb_refl. fold r.
  destruct (smb.resolve_err r); [exists []; by rewrite app_nil_r|].
  assert (Hmeta : ∃ g, asked ((if negb (String.eqb (smb.mtdDstPath r) "")
                               then smb.copy local (tmpBackupFile +:+ ".inc") (smb.bakDstPath r) sh
                               else (None, sh)).2) = asked sh ++ g
                       ∧ Forall (uploads_to (smb.bakDstPath r)) g).
  { destruct (negb _); [apply copy_asked|]. exists []. by rewrite app_nil_r. }
  destruct Hmeta as (g1 & H1 & Hup1).
  destruct (if negb (String.eqb (smb.mtdDstPath r) "") then _ else _) as [[e1|] sh1];
    simpl in H1; [by exists g1|].
  destruct (copy_asked local tmpBackupFile (smb.bakDstPath r) sh1) as (g2 & H2 & Hup2).
  destruct (smb.copy local tmpBackupFile (smb.bakDstPath r) sh1) as [[e2|] sh2]; simpl in H2.
  { exists (g1 ++ g2). split; [simpl; by rewrite H2, H1, <- app_assoc|]. by apply Forall_app. }
  destruct (make_links_asked (range_map (smb.links r)) sh2 (smb.bakDstPath r))
    as (g3 & H3 & Hup3).
  exists (g1 ++ g2 ++ g3). split; [|by repeat (apply Forall_app; split)].
  destruct (smb.make_links _ sh2) as [e3 sh3]. simpl in *.
  by rewrite H3, H2, H1, <- !app_assoc.
Qed.


(** C3 at the failing input.  An incremental delivery uploads the sidecar
    to the destination of the artifact and then the artifact over it:
    nothing is ever created at the metadata destination, and after a
    successful delivery the artifact is on the share without its
    sidecar. *)
Theorem incremental_delivery_loses_sidecar :
  let r := smb.DeliveryBackup (H := stable_runtime) (H0 := dated_resolvers)
             tmp_incremental (nas (count_retention 1 1 1))
             "/tmp/srv/init.tar" "srv" IncFiles (reliable []) in
  r.1 = None
  ∧ asked r.2 =
      [MkdirAll_ "backups/srv/year_2025/month_01/day_01";
       Create_ "backups/srv/year_2025/month_01/day_01/init.tar";
       Write_ "backups/srv/year_2025/month_01/day_01/init.tar" "METADATA";
       MkdirAll_ "backups/srv/year_2025/month_01/day_01";
       Create_ "backups/srv/year_2025/month_01/day_01/init.tar";
       Write_ "backups/srv/year_2025/month_01/day_01/init.tar" "ARCHIVE"]
  ∧ share.lookup "backups/srv/year_2025/month_01/day_01/init.tar" (nodes r.2)
    = Some (File 100 "ARCHIVE")
  ∧ share.lookup "backups/srv/year_2025/month_01/day_01/init.tar.inc" (nodes r.2)
    = None.
Proof. vm_compute. repeat split. Qed.

(** ** Incremental rotation *)

Lemma Split_nonempty s sep : strings.Split s sep ≠ [].
Proof.
  destruct s as [|c s]; simpl; [done|].
  destruct (Ascii.eqb c sep); [done|]. by destruct (strings.Split s sep).
Qed.

Lemma Split_contains s sep :
  contains sep s = true → (2 <= length (strings.Split s sep))%nat.
Proof.
  induction s as [|c s IH]; simpl; [done|].
  destruct (Ascii.eqb c sep); simpl.
  - intros _. pose proof (Split_nonempty s sep).
    destruct (strings.Split s sep); [done|simpl; lia].
  - intros Hs. specialize (IH Hs).
    destruct (strings.Split s sep); simpl in *; lia.
Qed.

Lemma match_here_lit c p s :
  regexp.match_here (regexp.Lit c :: p) s = true →
  ∃ s', s = String c s' ∧ regexp.match_here p s' = true.
Proof.
  destruct s as [|c' s']; simpl; [discriminate|].
  intros [Hc Hp]%andb_true_iff. apply Ascii.eqb_eq in Hc as <-. by exists s'.
Qed.

Lemma month_here_contains s :
  regexp.match_here (regexp.lits "month_" ++ [regexp.Digit; regexp.Digit]) s = true →
  contains "_" s = true.
Proof.
  change (regexp.lits "month_" ++ [regexp.Digit; regexp.Digit])
    with (regexp.Lit "m" :: regexp.Lit "o" :: regexp.Lit "n" :: regexp.Lit "t"
          :: regexp.Lit "h" :: regexp.Lit "_" :: [regexp.Digit; regexp.Digit]).
  intros Hm.
  do 6 (apply match_here_lit in Hm as (? & -> & Hm)).
  reflexivity.
Qed.

Lemma month_from_contains s :
  regexp.match_from (regexp.lits "month_" ++ [regexp.Digit; regexp.Digit]) s = true →
  contains "_" s = true.
Proof.
  induction s as [|c s IH]; intros Hm.
  - discriminate.
  - change (regexp.match_from ?p (String c s))
      with (regexp.match_here p (String c s) || regexp.match_from p s) in Hm.
    apply orb_true_iff in Hm as [Hm|Hm].
    + by apply month_here_contains.
    + simpl. rewrite (IH Hm). apply orb_true_r.
Qed.

(** A name that matches [month_\d\d] has a second part: [dirParts[1]]
    never panics. *)
Lemma month_has_second_part dirName :
  regexp.MatchString smb.rx_month dirName = true →
  is_Some (strings.Split dirName "_" !! 1%nat).
Proof.
  unfold regexp.MatchString, smb.rx_month. simpl. rewrite orb_false_r.
  intros Hm%month_from_contains%Split_contains.
  apply lookup_lt_is_Some. lia.
Qed.

Lemma RemoveAll_spec p sh :
  asked (share.RemoveAll p sh).2 = asked sh ++ [RemoveAll_ p]
  ∧ match (share.RemoveAll p sh).1 with
    | None => nodes (share.RemoveAll p sh).2 = share.remove_tree p (nodes sh)
    | Some e => ∀ errs, multierror_Append errs e ≠ []
    end.
Proof.
  unfold share.RemoveAll, share.mutate, asked.
  destruct (faults sh (calls sh)); simpl.
  - rewrite fmap_app. split; [done|]. intros errs. by destruct errs.
  - rewrite fmap_app. done.
Qed.

Lemma remove_months_cons backupDir lastMonth dir dirs errs sh :
  smb.remove_months backupDir lastMonth (dir :: dirs) errs sh =
    if outdated_month lastMonth dir then
      let '(e, sh1) := share.RemoveAll (entry_path backupDir dir) sh in
      smb.remove_months backupDir lastMonth dirs (noted errs e) sh1
    else smb.remove_months backupDir lastMonth dirs errs sh.
Proof.
  cbn [smb.remove_months]. unfold outdated_month, month_of, entry_path.
  destruct (regexp.MatchString smb.rx_month (Name dir)) eqn:Hm; [|done].
  destruct (month_has_second_part _ Hm) as [part Hpart]. by rewrite Hpart.
Qed.

Lemma remove_months_spec backupDir lastMonth dirs errs sh :
  let gone := filter (fun d => outdated_month lastMonth d) dirs in
  ∃ errs' sh',
    smb.remove_months backupDir lastMonth dirs errs sh = (Returned errs', sh')
    ∧ asked sh' = asked sh ++ ((fun d => RemoveAll_ (entry_path backupDir d)) <$> gone)
    ∧ (errs' = [] →
         errs = []
         ∧ nodes sh' = foldl (fun t d => share.remove_tree (entry_path backupDir d) t)
                         (nodes sh) gone).
Proof.
  revert errs sh. induction dirs as [|dir dirs IH]; intros errs sh.
  - exists errs, sh. simpl. by rewrite app_nil_r.
  - rewrite remove_months_cons. cbn zeta. rewrite filter_cons.
    destruct (outdated_month lastMonth dir) eqn:Hout.
    + rewrite decide_True by done.
      destruct (RemoveAll_spec (entry_path backupDir dir) sh) as [Hask Hres].
      destruct (share.RemoveAll (entry_path backupDir dir) sh) as [e sh1].
      simpl in Hask, Hres.
      destruct (IH (noted errs e) sh1) as (errs' & sh' & Hrun & Hask' & Hnil).
      exists errs', sh'. split; [done|]. split.
      * rewrite Hask', Hask, fmap_cons, <- app_assoc. done.
      * intros Herrs. destruct (Hnil Herrs) as [Hnoted Hnodes].
        destruct e as [e|]; simpl in Hnoted; [by apply Hres in Hnoted|].
        split; [done|]. simpl. by rewrite Hnodes, Hres.
    + rewrite decide_False by (intros []). apply IH.
Qed.

Lemma remove_tree_gone p t q n :
  (q, n) ∈ share.remove_tree p t → q ≠ p ∧ share.below p q = false.
Proof. unfold share.remove_tree. intros Hin%list_elem_of_filter. apply Hin. Qed.

Lemma ReadDir_nodes dir sh :
  nodes (share.ReadDir dir sh).2 = nodes sh ∧ asked (share.ReadDir dir sh).2 = asked sh.
Proof.
  unfold share.ReadDir, asked. destruct (faults sh (calls sh)); [done|].
  by destruct (share.lookup _ _) as [[]|].
Qed.

Lemma last_month_no_wrap now months :
  let d := (strconv.Atoi (now "moy")).1 - months in
  strconv.minInt <= d <= strconv.maxInt →
  smb.last_month now months =
    if 0 <? d then (now "year", d) else (now "previous_year", d + 12).
Proof.
  intros d Hd. unfold smb.last_month. fold d. rewrite (wrap64_small d Hd).
  rewrite Z.gtb_ltb. destruct (Z.ltb_spec 0 d); [done|].
  rewrite wrap64_small; [done|]. unfold strconv.minInt, strconv.maxInt in *. lia.
Qed.

(** C5 (amended).  With [full = false] the month below which directories
    go is the current month minus [retention.months]; when that difference
    is zero or negative, the previous year's directory is used, with the
    difference plus 12.  When the year directory can be read, exactly its
    entries whose name matches [month_\d\d] and whose numeric month is
    strictly less are asked to be removed, in the order of the listing,
    and when no error is returned they are gone with all below them.
    With [full = true] the OFS directory is asked to be removed with all
    below it, and when no error is returned nothing is left at or below
    it. *)
Theorem incremental_rotation_by_month (now : string → string) (s : smb.SMB)
    (ofsPart : string) (sh : Share) :
  let d := (strconv.Atoi (now "moy")).1 - Months (smb.retention s) in
  strconv.minInt <= d <= strconv.maxInt →
  let year := if 0 <? d then now "year" else now "previous_year" in
  let lastMonth := if 0 <? d then d else d + 12 in
  let backupDir := path.Join [smb.backupPath s; ofsPart; year] in
  let ofsDir := path.Join [smb.backupPath s; ofsPart] in
  (∀ dirs sh1, share.ReadDir backupDir sh = (inr dirs, sh1) →
     let gone := filter (fun dir => outdated_month lastMonth dir) dirs in
     ∃ e sh',
       smb.deleteIncBackup now s ofsPart false sh = (Returned e, sh')
       ∧ asked sh' = asked sh ++ ((fun dir => RemoveAll_ (entry_path backupDir dir)) <$> gone)
       ∧ (e = None →
            nodes sh' = foldl (fun t dir => share.remove_tree (entry_path backupDir dir) t)
                          (nodes sh) gone))
  ∧ (∃ e sh',
       smb.deleteIncBackup now s ofsPart true sh = (Returned e, sh')
       ∧ asked sh' = asked sh ++ [RemoveAll_ ofsDir]
       ∧ (e = None → ∀ q n, (q, n) ∈ nodes sh' → q ≠ ofsDir ∧ share.below ofsDir q = false)).
Proof.
  intros d Hd year lastMonth backupDir ofsDir. split.
  - intros dirs sh1 Hread gone. unfold smb.deleteIncBackup.
    rewrite (last_month_no_wrap now (Months (smb.retention s)) Hd). fold d.
    assert (Hsel : (if 0 <? d then (now "year", d) else (now "previous_year", d + 12))
                   = (year, lastMonth)) by (subst year lastMonth; by destruct (0 <? d)).
    rewrite Hsel. fold backupDir. rewrite Hread.
    destruct (ReadDir_nodes backupDir sh) as [Hn Ha]. rewrite Hread in Hn, Ha. simpl in Hn, Ha.
    destruct (remove_months_spec backupDir lastMonth dirs [] sh1)
      as (errs' & sh' & Hrun & Hask & Hnil).
    rewrite Hrun. exists (ErrorOrNil errs'), sh'. split; [done|].
    split; [by rewrite Hask, Ha|].
    intros Hnone. destruct errs'; [|discriminate].
    destruct (Hnil eq_refl) as [_ Hnodes]. by rewrite Hnodes, Hn.
  - unfold smb.deleteIncBackup. fold ofsDir.
    destruct (RemoveAll_spec ofsDir sh) as [Hask Hres].
    destruct (share.RemoveAll ofsDir sh) as [e sh1]. simpl in Hask, Hres.
    exists (ErrorOrNil (noted [] e)), sh1. split; [done|]. split; [done|].
    intros Hnone q n Hin. destruct e as [e|].
    + simpl in Hnone. specialize (Hres []).
      destruct (multierror_Append [] e); [done|discriminate].
    + rewrite Hres in Hin. by eapply remove_tree_gone.
Qed.

Lemma incremental_rotation_by_month_witness :
  let now := march_2025 in
  let s := nas (months_retention 3) in
  let sh := reliable two_years in
  let d := (strconv.Atoi (now "moy")).1 - Months (smb.retention s) in
  let year := if 0 <? d then now "year" else now "previous_year" in
  let lastMonth := if 0 <? d then d else d + 12 in
  let backupDir := path.Join [smb.backupPath s; "srv"; year] in
  let ofsDir := path.Join [smb.backupPath s; "srv"] in
  (∀ dirs sh1, share.ReadDir backupDir sh = (inr dirs, sh1) →
     let gone := filter (fun dir => outdated_month lastMonth dir) dirs in
     ∃ e sh',
       smb.deleteIncBackup now s "srv" false sh = (Returned e, sh')
       ∧ asked sh' = asked sh ++ ((fun dir => RemoveAll_ (entry_path backupDir dir)) <$> gone)
       ∧ (e = None →
            nodes sh' = foldl (fun t dir => share.remove_tree (entry_path backupDir dir) t)
                          (nodes sh) gone))
  ∧ (∃ e sh',
       smb.deleteIncBackup now s "srv" true sh = (Returned e, sh')
       ∧ asked sh' = asked sh ++ [RemoveAll_ ofsDir]
       ∧ (e = None → ∀ q n, (q, n) ∈ nodes sh' → q ≠ ofsDir ∧ share.below ofsDir q = false)).
Proof.
  apply (incremental_rotation_by_month march_2025 (nas (months_retention 3)) "srv"
           (reliable two_years)).
  vm_compute. split; discriminate.
Defined.

(** C5 as stated fails: in March with three months kept the difference is
    zero, not negative; the code turns to the previous year and removes
    its months below 12, where the specification stays in the current year
    and removes nothing.  And when the share fails the call, nothing is
    removed: with [full = true] the error is returned and the OFS
    directory is still there. *)
Lemma incremental_rotation_counterexample :
  asked (smb.deleteIncBackup march_2025 (nas (months_retention 3)) "srv" false
           (reliable two_years)).2
  ≠ removed_as_specified march_2025 (nas (months_retention 3)) "srv" (reliable two_years)
  ∧ (let r := smb.deleteIncBackup march_2025 (nas (months_retention 3)) "srv" true
                (drops 0 two_years) in
     r.1 = Returned (Some (ErrMulti [ErrTransport 0]))
     ∧ nodes r.2 = two_years)
  ∧ (let r := smb.deleteIncBackup march_2025 (nas (months_retention 1)) "srv" false
                (drops 0 two_years) in
     r.1 = Returned (Some (ErrTransport 0))
     ∧ nodes r.2 = two_years
     ∧ removed_as_specified march_2025 (nas (months_retention 1)) "srv" (drops 0 two_years)
       = [RemoveAll_ "backups/srv/year_2025/month_01"]).
Proof. vm_compute. split; [discriminate|]. repeat split. Qed.

(** ** The pipeline of a job *)

Ltac metric_value :=
  unfold metrics.BackupOk, metrics.BackupTime, metrics.BackupSize,
    metrics.DeliveryOk, metrics.DeliveryTime, metrics.BackupTimestamp;
  simpl; repeat (rewrite lookup_insert_ne by done); by rewrite lookup_insert_eq.

Section Pipeline.
Context {target W : Type} (h : Host target W).

Lemma same_shape_refl (j : job target) : same_shape j j.
Proof. unfold same_shape. tauto. Qed.

Lemma same_shape_trans (j1 j2 j3 : job target) :
  same_shape j1 j2 → same_shape j2 j3 → same_shape j1 j3.
Proof.
  intros (Hd1 & Ht1 & Hm1 & Ho1) (Hd2 & Ht2 & Hm2 & Ho2).
  split; [congruence|]. split; [congruence|]. split.
  - intros ofs. rewrite Hm2. apply Hm1.
  - intros ofs Hx. by apply Ho2, Ho1.
Qed.

Lemma fold_insert_other (mm : list (string * Z)) (vs : gmap string Z) k :
  k ∉ mm.*1 →
  fold_left (fun vs mv => <[mv.1 := mv.2]> vs) mm vs !! k = vs !! k.
Proof.
  revert vs. induction mm as [|[m v] mm IH]; intros vs Hk; simpl; [done|].
  rewrite fmap_cons in Hk. apply not_elem_of_cons in Hk as [Hne Hk].
  rewrite IH by done. simpl in Hne. by rewrite lookup_insert_ne.
Qed.

Lemma SetOfsMetrics_spec (j : job target) ofs mm :
  is_Some (TargetMetrics j !! ofs) →
  ∃ j', SetOfsMetrics j ofs mm = Returned j'
        ∧ same_shape j j'
        ∧ dumpedObjects j' = dumpedObjects j
        ∧ (∀ ofs' k, ofs' ≠ ofs → metric j' ofs' k = metric j ofs' k)
        ∧ (∀ k, k ∉ mm.*1 → metric j' ofs k = metric j ofs k)
        ∧ (∀ vs, TargetMetrics j !! ofs = Some vs →
             ∀ k, metric j' ofs k
                  = fold_left (fun vs mv => <[mv.1 := mv.2]> vs) mm vs !! k).
Proof.
  intros [vs Hvs]. unfold SetOfsMetrics. destruct mm as [|mv mm].
  - exists j. split; [done|]. split; [apply same_shape_refl|].
    split; [done|]. split; [done|]. split; [done|].
    intros vs' Hvs' k. unfold metric. by rewrite Hvs'.
  - rewrite Hvs. eexists. split; [reflexivity|]. split.
    { split; [done|]. split; [done|]. split; [|done].
      intros ofs'. simpl. destruct (decide (ofs = ofs')) as [<-|Hne].
      - rewrite lookup_insert_eq, Hvs. split; intros _; by eexists.
      - by rewrite lookup_insert_ne. }
    split; [done|]. split; [|split].
    + intros ofs' k Hne. unfold metric. simpl. by rewrite lookup_insert_ne.
    + intros k Hk. unfold metric. simpl. rewrite lookup_insert_eq, Hvs. simpl.
      by apply (fold_insert_other (mv :: mm)).
    + intros vs' Hvs' k. unfold metric. simpl. rewrite lookup_insert_eq. simpl.
      congruence.
Qed.

Lemma SetDumpObjectDelivered_spec (j : job target) ofs :
  is_Some (dumpedObjects j !! ofs) →
  same_shape j (SetDumpObjectDelivered j ofs)
  ∧ (∀ ofs' k, metric (SetDumpObjectDelivered j ofs) ofs' k = metric j ofs' k)
  ∧ (∀ ofs', is_Some (dumpedObjects (SetDumpObjectDelivered j ofs) !! ofs') →
             is_Some (dumpedObjects j !! ofs')).
Proof.
  intros Hofs. unfold SetDumpObjectDelivered. split; [|split].
  - split; [done|]. split; [done|]. split; [done|].
    intros ofs' Hx. simpl. destruct (decide (ofs = ofs')) as [<-|Hne].
    + rewrite lookup_insert_eq. by eexists.
    + by rewrite lookup_insert_ne.
  - done.
  - intros ofs'. simpl. destruct (decide (ofs = ofs')) as [<-|Hne]; [done|].
    by rewrite lookup_insert_ne.
Qed.

Lemma registered_preserved (j j' : job target) :
  registered j → same_shape j j' →
  (∀ ofs, is_Some (dumpedObjects j' !! ofs) →
          is_Some (dumpedObjects j !! ofs) ∨ is_Some (TargetMetrics j !! ofs)) →
  registered j'.
Proof.
  intros Hreg (_ & Ht & Hm & _) Hd ofs [Hofs|Hofs]; apply Hm.
  - apply Hreg. left. by rewrite <- Ht.
  - destruct (Hd ofs Hofs) as [Hold|Hnew]; [|done]. apply Hreg. by right.
Qed.

Lemma apply_calls_spec (j : job target) (cs : list JobCall) :
  registered j →
  (∀ c, c ∈ cs → is_Some (dumpedObjects j !! call_ofs c)) →
  ∃ j', apply_calls j cs = Returned j'
        ∧ same_shape j j'
        ∧ registered j'
        ∧ ((∀ ofs mm k, CallSetOfsMetrics ofs mm ∈ cs → k ∈ backup_metrics → k ∉ mm.*1) →
           ∀ ofs k, k ∈ backup_metrics → metric j' ofs k = metric j ofs k).
Proof.
  revert j. induction cs as [|c cs IH]; intros j Hreg Hcs.
  - exists j. split; [done|]. split; [apply same_shape_refl|]. done.
  - assert (Hc : is_Some (dumpedObjects j !! call_ofs c)) by (apply Hcs; left).
    assert (Hstep : ∃ j1, apply_call j c = Returned j1
              ∧ same_shape j j1 ∧ registered j1
              ∧ (∀ ofs, is_Some (dumpedObjects j !! ofs) → is_Some (dumpedObjects j1 !! ofs))
              ∧ ((∀ ofs mm k, c = CallSetOfsMetrics ofs mm → k ∈ backup_metrics → k ∉ mm.*1) →
                 ∀ ofs k, k ∈ backup_metrics → metric j1 ofs k = metric j ofs k)).
    { destruct c as [ofs mm|ofs]; simpl in *.
      - destruct (SetOfsMetrics_spec j ofs mm) as (j1 & Hrun & Hshape & Hdump & Hother & Hkeep & _).
        { apply Hreg. by right. }
        exists j1. split; [done|]. split; [done|]. split.
        { apply (registered_preserved j); [done..|]. intros o Ho. left. by rewrite <- Hdump. }
        split; [intros o Ho; by rewrite Hdump|].
        intros Hframe o k Hk. destruct (decide (o = ofs)) as [->|Hne].
        + apply Hkeep. by eapply Hframe.
        + by apply Hother.
      - destruct (SetDumpObjectDelivered_spec j ofs Hc) as (Hshape & Hmetric & Hdump).
        eexists. split; [reflexivity|]. split; [done|]. split.
        { apply (registered_preserved j); [done..|]. intros o Ho. left. by apply Hdump. }
        split; [apply Hshape|]. intros _ o k _. apply Hmetric. }
    destruct Hstep as (j1 & Hrun1 & Hshape1 & Hreg1 & Hdump1 & Hframe1).
    destruct (IH j1 Hreg1) as (j' & Hrun & Hshape & Hreg' & Hframe).
    { intros c' Hc'. apply Hdump1, Hcs. by right. }
    exists j'. simpl. rewrite Hrun1. split; [done|].
    split; [by eapply same_shape_trans|]. split; [done|].
    intros Hall o k Hk. rewrite Hframe.
    + apply Hframe1; [|done]. intros o' mm k' -> Hk'. eapply Hall; [left|done].
    + intros o' mm k' Hin Hk'. eapply Hall; [by right|done].
    + done.
Qed.

Lemma multierror_Append_flat errs e : multierror_Append errs e = errs ++ flat e.
Proof. unfold flat. by destruct e. Qed.

Lemma noted_extends errs e : ∃ post, noted errs e = errs ++ post.
Proof.
  destruct e as [e|]; simpl.
  - exists (flat e). apply multierror_Append_flat.
  - exists []. by rewrite app_nil_r.
Qed.

Lemma deliver_spec (r : Run target W) :
  registered (run_job r) → delivery_on_dumps h →
  ∃ r', deliver h r = Returned r'
        ∧ same_shape (run_job r) (run_job r')
        ∧ registered (run_job r')
        ∧ run_calls r' = run_calls r ++ [Delivery]
        ∧ (∃ post, run_errs r' = run_errs r ++ post)
        ∧ (delivery_keeps_backup_metrics h →
           ∀ ofs k, k ∈ backup_metrics →
                    metric (run_job r') ofs k = metric (run_job r) ofs k).
Proof.
  intros Hreg Hdumps. unfold deliver.
  destruct (storages_Delivery h (run_job r) (run_host r)) as [[e cs] w] eqn:Hd.
  destruct (apply_calls_spec (run_job r) cs Hreg) as (j' & Hrun & Hshape & Hreg' & Hframe).
  { intros c Hc. eapply Hdumps; [exact Hd|done]. }
  rewrite Hrun. eexists. split; [reflexivity|]. simpl.
  split; [done|]. split; [done|]. split; [done|]. split; [apply noted_extends|].
  intros Hkeep. apply Hframe. intros ofs mm k Hin Hk. eapply Hkeep; [exact Hd|done..].
Qed.

Lemma in_backup_metrics :
  metrics.BackupOk ∈ backup_metrics ∧ metrics.BackupTime ∈ backup_metrics
  ∧ metrics.BackupSize ∈ backup_metrics.
Proof. unfold backup_metrics. repeat split; repeat constructor. Qed.

Lemma target_outcome_persists (j1 j2 : job target) errs1 errs2 ofs tgt st :
  target_outcome h j1 errs1 ofs tgt st →
  (∀ k, k ∈ backup_metrics → metric j2 ofs k = metric j1 ofs k) →
  (∃ post, errs2 = errs1 ++ post) →
  target_outcome h j2 errs2 ofs tgt st.
Proof.
  destruct in_backup_metrics as (Hok & Htime & Hsize).
  intros Hout Hm [post ->]. unfold target_outcome in *.
  rewrite !Hm by done.
  destruct Hout as [Hout|[Hout|Hout]]; [by left| |by right; right].
  right; left.
  destruct Hout as (f & jx & w0 & w1 & w2 & err & Hst & Hc & H1 & H2 & H3 & pre & post' & ->).
  exists f, jx, w0, w1, w2, err. repeat (split; [done|]).
  exists pre, (post' ++ post). by rewrite <- !app_assoc.
Qed.

Lemma publish_spec (j : job target) ofs d :
  registered j → is_Some (TargetMetrics j !! ofs) →
  let j' := with_dumped j (<[ofs := d]> (dumpedObjects j)) in
  same_shape j j' ∧ registered j' ∧ ∀ o k, metric j' o k = metric j o k.
Proof.
  intros Hreg Hofs j'.
  assert (Hshape : same_shape j j').
  { split; [done|]. split; [done|]. split; [done|].
    intros o Ho. subst j'. simpl. destruct (decide (ofs = o)) as [<-|Hne].
    - rewrite lookup_insert_eq. by eexists.
    - by rewrite lookup_insert_ne. }
  split; [done|]. split; [|done].
  apply (registered_preserved j); [done..|].
  intros o. subst j'. simpl. destruct (decide (ofs = o)) as [<-|Hne].
  - by right.
  - rewrite lookup_insert_ne by done. by left.
Qed.

Lemma backup_target_spec tmpDir ofs tgt (r : Run target W) :
  registered (run_job r) → artifacts_stay h → delivery_on_dumps h →
  targets (run_job r) !! ofs = Some tgt →
  ∃ r' st,
    backup_target h tmpDir ofs tgt r = Returned r'
    ∧ same_shape (run_job r) (run_job r')
    ∧ registered (run_job r')
    ∧ run_calls r' = run_calls r ++ st
    ∧ target_calls (deferredCopying (run_job r)) ofs st
    ∧ (∃ post, run_errs r' = run_errs r ++ post)
    ∧ (delivery_keeps_backup_metrics h →
         (∀ ofs' k, ofs' ≠ ofs → k ∈ backup_metrics →
                    metric (run_job r') ofs' k = metric (run_job r) ofs' k)
         ∧ target_outcome h (run_job r') (run_errs r') ofs tgt st).
Proof.
  intros Hreg Hstay Hdumps Htgt. unfold backup_target.
  assert (Hm0 : is_Some (TargetMetrics (run_job r) !! ofs)).
  { apply Hreg. left. rewrite Htgt. by eexists. }
  destruct (SetOfsMetrics_spec (run_job r) ofs
              [(metrics.BackupOk, float64 0); (metrics.BackupTime, float64 0);
               (metrics.DeliveryOk, float64 0); (metrics.DeliveryTime, float64 0);
               (metrics.BackupSize, float64 0);
               (metrics.BackupTimestamp,
                float64 (Z.quot (clock h (run_host r)) (10 ^ 9)))] Hm0)
    as (j1 & Hrun1 & Hshape1 & Hdump1 & Hother1 & _ & Hset1).
  rewrite Hrun1. destruct Hm0 as [vs0 Hvs0].
  assert (Hreg1 : registered j1).
  { apply (registered_preserved (run_job r)); [done..|].
    intros o Ho. left. by rewrite <- Hdump1. }
  assert (Hm1 : is_Some (TargetMetrics j1 !! ofs)).
  { apply Hshape1. by eexists. }
  set (f := GetFileFullPath h tmpDir ofs "tar" "" (gzip h tgt) (run_host r)).
  destruct (os_MkdirAll h (path.Dir f) (run_host r)) as [[err|] w1] eqn:Hmk.
  { eexists _, []. split; [reflexivity|]. simpl.
    split; [done|]. split; [done|]. split; [by rewrite app_nil_r|].
    split; [by left|]. split; [exists (flat err); apply multierror_Append_flat|].
    intros _. split; [intros o k Hne _; by apply Hother1|].
    left. split; [done|]. rewrite !(Hset1 _ Hvs0). split; metric_value. }
  destruct (createTmpBackup h j1 f ofs tgt w1) as [[err|] w2] eqn:Hc.
  { destruct (SetOfsMetrics_spec j1 ofs
                [(metrics.BackupTime,
                  float64 (Z.quot (clock h w2 - clock h (run_host r)) (10 ^ 6)))] Hm1)
      as (j2 & Hrun2 & Hshape2 & Hdump2 & Hother2 & Hkeep2 & Hset2).
    rewrite Hrun2. destruct Hm1 as [vs1 Hvs1].
    eexists _, [CreateTmpBackup ofs f false]. split; [reflexivity|]. simpl.
    split; [by eapply same_shape_trans|]. split.
    { apply (registered_preserved j1); [done..|].
      intros o Ho. left. by rewrite <- Hdump2. }
    split; [done|]. split; [right; left; by exists f|].
    split; [exists (flat err); apply multierror_Append_flat|].
    intros _. split.
    { intros o k Hne _. rewrite Hother2 by done. by apply Hother1. }
    right; left. exists f, j1, (run_host r), w1, w2, err.
    split; [done|]. split; [done|].
    split; [rewrite Hkeep2, (Hset1 _ Hvs0); [metric_value|]|].
    { unfold metrics.BackupTime, metrics.BackupOk. simpl.
      intros Hin%list_elem_of_singleton. discriminate. }
    split; [rewrite Hkeep2, (Hset1 _ Hvs0); [metric_value|]|].
    { unfold metrics.BackupTime, metrics.BackupSize. simpl.
      intros Hin%list_elem_of_singleton. discriminate. }
    split; [rewrite (Hset2 _ Hvs1); metric_value|].
    exists (run_errs r), []. by rewrite app_nil_r, multierror_Append_flat. }
  destruct (Hstay _ _ _ _ _ _ Hc) as [size Hsize]. rewrite Hsize.
  destruct (SetOfsMetrics_spec j1 ofs
              [(metrics.BackupOk, float64 1);
               (metrics.BackupTime,
                float64 (Z.quot (clock h w2 - clock h (run_host r)) (10 ^ 6)));
               (metrics.BackupSize, float64 size)] Hm1)
    as (j2 & Hrun2 & Hshape2 & Hdump2 & Hother2 & _ & Hset2).
  rewrite Hrun2. destruct Hm1 as [vs1 Hvs1].
  assert (Hreg2 : registered j2).
  { apply (registered_preserved j1); [done..|].
    intros o Ho. left. by rewrite <- Hdump2. }
  assert (Hm2 : is_Some (TargetMetrics j2 !! ofs)).
  { apply Hshape2. by eexists. }
  destruct (publish_spec j2 ofs {| TmpFile := f; Delivered := false |} Hreg2 Hm2)
    as (Hshape3 & Hreg3 & Hmetric3).
  set (j3 := with_dumped j2 _) in *.
  assert (Hshape03 : same_shape (run_job r) j3).
  { eapply same_shape_trans; [exact Hshape1|].
    eapply same_shape_trans; [exact Hshape2|exact Hshape3]. }
  assert (Hdef : deferredCopying j3 = deferredCopying (run_job r)) by apply Hshape03.
  assert (Hout3 : ∀ errs, target_outcome h j3 errs ofs tgt
                    (CreateTmpBackup ofs f true ::
                       if deferredCopying (run_job r) then [] else [Delivery])).
  { intros errs. right; right. exists f, j1, w1, w2, size.
    split; [done|]. split; [done|]. split; [done|].
    rewrite !Hmetric3, !(Hset2 _ Hvs1). split; metric_value. }
  assert (Hother3 : ∀ o k, o ≠ ofs → metric j3 o k = metric (run_job r) o k).
  { intros o k Hne. rewrite Hmetric3, Hother2 by done. by apply Hother1. }
  rewrite Hdef. destruct (deferredCopying (run_job r)) eqn:Hdeferred; simpl.
  { eexists _, [CreateTmpBackup ofs f true]. split; [reflexivity|]. simpl.
    split; [done|]. split; [done|]. split; [done|].
    split; [right; right; by exists f|].
    split; [exists []; by rewrite app_nil_r|].
    intros _. split; [intros o k Hne _; by apply Hother3|]. apply Hout3. }
  match goal with |- context [deliver h ?x] => set (r3 := x) end.
  destruct (deliver_spec r3 Hreg3 Hdumps)
    as (r' & Hrun & Hshape' & Hreg' & Hcalls' & Herrs' & Hframe').
  rewrite Hrun. exists r', [CreateTmpBackup ofs f true; Delivery].
  split; [done|]. split; [by eapply same_shape_trans|]. split; [done|].
  split; [rewrite Hcalls'; simpl; by rewrite <- app_assoc|].
  split; [right; right; by exists f|]. split; [done|].
  intros Hkeep. specialize (Hframe' Hkeep). split.
  - intros o k Hne Hk. rewrite Hframe' by done. by apply Hother3.
  - eapply target_outcome_persists; [apply (Hout3 (run_errs r))| |done].
    intros k Hk. by apply Hframe'.
Qed.

Lemma backup_targets_spec tmpDir todo (r : Run target W) :
  registered (run_job r) → artifacts_stay h → delivery_on_dumps h →
  NoDup todo.*1 →
  (∀ ofs tgt, (ofs, tgt) ∈ todo → targets (run_job r) !! ofs = Some tgt) →
  ∃ r' steps,
    backup_targets h tmpDir todo r = Returned r'
    ∧ same_shape (run_job r) (run_job r')
    ∧ registered (run_job r')
    ∧ run_calls r' = run_calls r ++ concat steps
    ∧ Forall2 (fun x st => target_calls (deferredCopying (run_job r)) x.1 st) todo steps
    ∧ (∃ post, run_errs r' = run_errs r ++ post)
    ∧ (delivery_keeps_backup_metrics h →
         (∀ ofs k, ofs ∉ todo.*1 → k ∈ backup_metrics →
                   metric (run_job r') ofs k = metric (run_job r) ofs k)
         ∧ Forall2 (fun x st => target_outcome h (run_job r') (run_errs r') x.1 x.2 st)
             todo steps).
Proof.
  intros Hreg Hstay Hdumps. revert r Hreg.
  induction todo as [|[ofs tgt] todo IH]; intros r Hreg Hnd Htodo.
  - exists r, []. simpl. split; [done|]. split; [apply same_shape_refl|].
    split; [done|]. split; [by rewrite app_nil_r|]. split; [constructor|].
    split; [exists []; by rewrite app_nil_r|]. intros _. split; [done|constructor].
  - rewrite fmap_cons in Hnd. apply NoDup_cons in Hnd as [Hfresh Hnd].
    destruct (backup_target_spec tmpDir ofs tgt r Hreg Hstay Hdumps)
      as (r1 & st & Hrun1 & Hshape1 & Hreg1 & Hcalls1 & Hst & [post1 Herrs1] & Hframe1).
    { apply Htodo. left. }
    destruct (IH r1 Hreg1 Hnd)
      as (r' & steps & Hrun & Hshape & Hreg' & Hcalls & Hsteps & [post Herrs] & Hframe).
    { intros o t Hin. destruct Hshape1 as (_ & -> & _). apply Htodo. by right. }
    exists r', (st :: steps). simpl. rewrite Hrun1.
    split; [done|]. split; [by eapply same_shape_trans|]. split; [done|].
    split; [by rewrite Hcalls, Hcalls1, <- app_assoc|].
    split.
    { constructor; [done|]. destruct Hshape1 as (<- & _). exact Hsteps. }
    split; [exists (post1 ++ post); by rewrite Herrs, Herrs1, <- app_assoc|].
    intros Hkeep. destruct (Hframe1 Hkeep) as [Hother1 Hout1].
    destruct (Hframe Hkeep) as [Hother Hout]. split.
    + intros o k Ho Hk. apply not_elem_of_cons in Ho as [Hne Ho].
      rewrite Hother by done. by apply Hother1.
    + constructor; [|done]. simpl.
      eapply target_outcome_persists; [exact Hout1| |by exists post].
      intros k Hk. by apply Hother.
Qed.

Lemma DoBackup_spec `{Runtime} (j : job target) tmpDir w :
  registered j → artifacts_stay h → delivery_on_dumps h →
  ∃ e r steps,
    DoBackup h j tmpDir w = Returned (e, r)
    ∧ e = ErrorOrNil (run_errs r)
    ∧ run_calls r = concat steps ++ [Delivery]
    ∧ Forall2 (fun x st => target_calls (deferredCopying j) x.1 st)
        (range_map (targets j)) steps
    ∧ (delivery_keeps_backup_metrics h →
       Forall2 (fun x st => target_outcome h (run_job r) (run_errs r) x.1 x.2 st)
         (range_map (targets j)) steps).
Proof.
  intros Hreg Hstay Hdumps. unfold DoBackup.
  set (r0 := {| run_job := j; run_errs := []; run_host := w; run_calls := [] |}).
  destruct (backup_targets_spec tmpDir (range_map (targets j)) r0 Hreg Hstay Hdumps)
    as (r1 & steps & Hrun1 & Hshape1 & Hreg1 & Hcalls1 & Hsteps & _ & Hframe1).
  { apply range_map_once. }
  { intros o t Hin. rewrite range_map_perm in Hin. by apply elem_of_map_to_list. }
  rewrite Hrun1.
  destruct (deliver_spec r1 Hreg1 Hdumps)
    as (r2 & Hrun2 & Hshape2 & Hreg2 & Hcalls2 & Herrs2 & Hframe2).
  rewrite Hrun2. exists (ErrorOrNil (run_errs r2)), r2, steps.
  split; [done|]. split; [done|]. split; [by rewrite Hcalls2, Hcalls1|].
  split; [done|]. intros Hkeep.
  destruct (Hframe1 Hkeep) as [_ Hout]. specialize (Hframe2 Hkeep).
  eapply Forall2_impl; [exact Hout|]. intros [o t] st Hone. simpl in *.
  eapply target_outcome_persists; [exact Hone| |done].
  intros k Hk. by apply Hframe2.
Qed.

Lemma keeps_files_refl (j : job target) : keeps_files j j.
Proof. intros ofs d Hd. by exists d. Qed.

Lemma keeps_files_trans (j1 j2 j3 : job target) :
  keeps_files j1 j2 → keeps_files j2 j3 → keeps_files j1 j3.
Proof.
  intros H12 H23 ofs d Hd. destruct (H12 ofs d Hd) as (d2 & Hd2 & Hf2).
  destruct (H23 ofs d2 Hd2) as (d3 & Hd3 & Hf3). exists d3. split; [done|congruence].
Qed.

Lemma SetOfsMetrics_dumps (j j' : job target) ofs mm :
  SetOfsMetrics j ofs mm = Returned j' → dumpedObjects j' = dumpedObjects j.
Proof.
  unfold SetOfsMetrics. destruct mm; [by intros [= <-]|].
  destruct (TargetMetrics j !! ofs); [|done]. by intros [= <-].
Qed.

Lemma apply_calls_dumps (j j' : job target) cs :
  (∀ c, c ∈ cs → is_Some (dumpedObjects j !! call_ofs c)) →
  apply_calls j cs = Returned j' →
  keeps_files j j'
  ∧ ∀ ofs, dumpedObjects j !! ofs = None → dumpedObjects j' !! ofs = None.
Proof.
  revert j. induction cs as [|c cs IH]; intros j Hcs; simpl.
  - intros [= <-]. split; [apply keeps_files_refl|done].
  - assert (Hc : is_Some (dumpedObjects j !! call_ofs c)) by (apply Hcs; left).
    destruct (apply_call j c) as [j1|] eqn:Hone; [|done]. intros Hrest.
    assert (Hstep : keeps_files j j1
                    ∧ ∀ ofs, dumpedObjects j !! ofs = None → dumpedObjects j1 !! ofs = None).
    { destruct c as [ofs mm|ofs]; simpl in Hone, Hc.
      - apply SetOfsMetrics_dumps in Hone. unfold keeps_files. rewrite Hone.
        split; [|done]. intros o d Hd. by exists d.
      - injection Hone as <-. destruct Hc as [d0 Hd0]. split.
        + intros o d Hd. simpl. destruct (decide (ofs = o)) as [->|Hne].
          * rewrite lookup_insert_eq. eexists. split; [done|]. simpl.
            rewrite Hd0 in Hd. injection Hd as <-. by rewrite Hd0.
          * rewrite lookup_insert_ne by done. by exists d.
        + intros o Ho. simpl. rewrite lookup_insert_ne; [done|]. intros ->.
          by rewrite Hd0 in Ho. }
    destruct Hstep as [Hk1 Hn1].
    apply IH in Hrest as [Hk2 Hn2].
    + split; [by eapply keeps_files_trans|]. intros ofs Ho. by apply Hn2, Hn1.
    + intros c' Hc'. destruct (Hcs c') as [d Hd]; [by right|].
      destruct (Hk1 _ _ Hd) as (d' & Hd' & _). by eexists.
Qed.

Lemma deliver_dumps (r r' : Run target W) :
  delivery_on_dumps h → deliver h r = Returned r' →
  keeps_files (run_job r) (run_job r')
  ∧ ∀ ofs, dumpedObjects (run_job r) !! ofs = None →
           dumpedObjects (run_job r') !! ofs = None.
Proof.
  intros Hdumps. unfold deliver.
  destruct (storages_Delivery h (run_job r) (run_host r)) as [[e cs] w] eqn:Hd.
  destruct (apply_calls (run_job r) cs) as [j|] eqn:Hcalls; [|done].
  intros [= <-]. simpl. eapply apply_calls_dumps; [|exact Hcalls].
  intros c Hc. eapply Hdumps; [exact Hd|done].
Qed.

End Pipeline.

(** ** The run as the host records it *)

Section Record.
Context {target W : Type} (h : Host target W).


Lemma recording_artifacts_stay : artifacts_stay h → artifacts_stay (recording h).
Proof.
  intros Hstay j f ofs tgt w w' Hc. simpl in *.
  destruct (createTmpBackup h j f ofs tgt w.1) as [e w1] eqn:Hc1.
  injection Hc as -> <-. simpl. by eapply Hstay.
Qed.

Lemma recording_delivery_on_dumps : delivery_on_dumps h → delivery_on_dumps (recording h).
Proof.
  intros Hd j w e cs w' c Hrun Hc. simpl in Hrun.
  destruct (storages_Delivery h j w.1) as [[e1 cs1] w1] eqn:Hrun1.
  injection Hrun as -> -> <-. by eapply Hd.
Qed.

Lemma recording_delivery_keeps_backup_metrics :
  delivery_keeps_backup_metrics h → delivery_keeps_backup_metrics (recording h).
Proof.
  intros Hd j w e cs w' ofs mm k Hrun Hc Hk. simpl in Hrun.
  destruct (storages_Delivery h j w.1) as [[e1 cs1] w1] eqn:Hrun1.
  injection Hrun as -> -> <-. by eapply Hd.
Qed.

Lemma deliver_unrecorded (r : Run target (W * list (Asked target W))) :
  deliver h (unrecorded r) = unrecorded_outcome (deliver (recording h) r).
Proof.
  unfold deliver. simpl.
  destruct (storages_Delivery h (run_job r) (run_host r).1) as [[e cs] w'].
  by destruct (apply_calls (run_job r) cs).
Qed.

Lemma backup_target_unrecorded tmpDir ofs tgt (r : Run target (W * list (Asked target W))) :
  backup_target h tmpDir ofs tgt (unrecorded r)
  = unrecorded_outcome (backup_target (recording h) tmpDir ofs tgt r).
Proof.
  unfold backup_target.
  cbn [recording clock GetFileFullPath os_MkdirAll os_Stat createTmpBackup gzip
       unrecorded run_job run_host run_errs run_calls].
  destruct (SetOfsMetrics (run_job r) ofs _) as [j1|]; [|done].
  destruct (os_MkdirAll h _ (run_host r).1) as [[err|] w1]; [done|].
  cbn [fst snd].
  destruct (createTmpBackup h j1 _ ofs tgt w1) as [[err|] w2]; cbn [fst snd].
  { by destruct (SetOfsMetrics j1 ofs _). }
  destruct (os_Stat h _ w2) as [size|]; [|done].
  destruct (SetOfsMetrics j1 ofs _) as [j2|]; [|done].
  destruct (negb _); [|done].
  by rewrite <- deliver_unrecorded.
Qed.

Lemma backup_targets_unrecorded tmpDir todo (r : Run target (W * list (Asked target W))) :
  backup_targets h tmpDir todo (unrecorded r)
  = unrecorded_outcome (backup_targets (recording h) tmpDir todo r).
Proof.
  revert r. induction todo as [|[ofs tgt] todo IH]; intros r; [done|].
  simpl. rewrite backup_target_unrecorded.
  destruct (backup_target (recording h) tmpDir ofs tgt r) as [r1|]; [|done].
  simpl. apply IH.
Qed.

Lemma DoBackup_unrecorded `{Runtime} (j : job target) tmpDir w l0 :
  DoBackup h j tmpDir w
  = match DoBackup (recording h) j tmpDir (w, l0) with
    | Panicked => Panicked
    | Returned (e, r) => Returned (e, unrecorded r)
    end.
Proof.
  unfold DoBackup.
  pose proof (backup_targets_unrecorded tmpDir (range_map (targets j))
                {| run_job := j; run_errs := []; run_host := (w, l0); run_calls := [] |})
    as Hloop.
  unfold unrecorded in Hloop at 1. simpl in Hloop. rewrite Hloop.
  destruct (backup_targets (recording h) _ _ _) as [r1|]; [|done].
  simpl. rewrite deliver_unrecorded.
  by destruct (deliver (recording h) r1).
Qed.


Lemma came_from_refl (j : job target) o : came_from j j o.
Proof. intros d Hd. by exists d. Qed.

Lemma came_from_trans (j1 j2 j3 : job target) o :
  came_from j1 j2 o → came_from j2 j3 o → came_from j1 j3 o.
Proof.
  intros H12 H23 d3 Hd3. destruct (H23 d3 Hd3) as (d2 & Hd2 & Hf2).
  destruct (H12 d2 Hd2) as (d1 & Hd1 & Hf1). exists d1. split; [done|congruence].
Qed.

Lemma kept_at_refl (j : job target) o : kept_at j j o.
Proof. intros d Hd. by exists d. Qed.

Lemma kept_at_trans (j1 j2 j3 : job target) o :
  kept_at j1 j2 o → kept_at j2 j3 o → kept_at j1 j3 o.
Proof.
  intros H12 H23 d Hd. destruct (H12 d Hd) as (d2 & Hd2 & Hf2).
  destruct (H23 d2 Hd2) as (d3 & Hd3 & Hf3). exists d3. split; [done|congruence].
Qed.

Lemma same_dumps_frames (j j' : job target) o :
  dumpedObjects j' !! o = dumpedObjects j !! o → kept_at j j' o ∧ came_from j j' o.
Proof.
  intros Heq. split; intros d Hd; exists d; split; congruence.
Qed.

Lemma deliver_recorded (r : Run target (W * list (Asked target W))) :
  registered (run_job r) → delivery_on_dumps h →
  ∃ r' err cs,
    deliver (recording h) r = Returned r'
    ∧ record_of r'
      = record_of r ++ [AskedDelivery (run_job r) (run_host r).1 err cs (run_host r').1]
    ∧ storages_Delivery h (run_job r) (run_host r).1 = (err, cs, (run_host r').1)
    ∧ same_shape (run_job r) (run_job r')
    ∧ registered (run_job r')
    ∧ (∃ post, run_errs r' = run_errs r ++ post)
    ∧ (∀ o, kept_at (run_job r) (run_job r') o ∧ came_from (run_job r) (run_job r') o)
    ∧ (delivery_keeps_backup_metrics h →
       ∀ ofs k, k ∈ backup_metrics →
                metric (run_job r') ofs k = metric (run_job r) ofs k).
Proof.
  intros Hreg Hdumps.
  destruct (deliver_spec (recording h) r Hreg (recording_delivery_on_dumps Hdumps))
    as (r' & Hrun & Hshape & Hreg' & _ & Herrs & Hframe).
  destruct (deliver_dumps (recording h) r r' (recording_delivery_on_dumps Hdumps) Hrun)
    as [Hkeep Hnone].
  pose proof Hrun as Hrun'. unfold deliver in Hrun'. simpl in Hrun'.
  destruct (storages_Delivery h (run_job r) (run_host r).1) as [[err cs] w'] eqn:Hd.
  destruct (apply_calls (run_job r) cs) as [j'|]; [|done].
  injection Hrun' as <-. eexists _, err, cs. split; [exact Hrun|]. simpl in *.
  split; [done|]. split; [done|]. split; [done|]. split; [done|]. split; [done|].
  split.
  - intros o. split; [intros d Hd'; by apply Hkeep|].
    intros d' Hd'. destruct (dumpedObjects (run_job r) !! o) as [d|] eqn:Hold.
    + exists d. split; [done|]. destruct (Hkeep o d Hold) as (d'' & Hd'' & Hf).
      simpl in Hd''. congruence.
    + apply Hnone in Hold. simpl in Hold. congruence.
  - intros Hk. apply Hframe. by apply recording_delivery_keeps_backup_metrics.
Qed.

Lemma turn_metrics_persists (j1 j2 : job target) errs1 errs2 ofs st :
  turn_metrics h j1 errs1 ofs st →
  (∀ k, k ∈ backup_metrics → metric j2 ofs k = metric j1 ofs k) →
  (∃ post, errs2 = errs1 ++ post) →
  turn_metrics h j2 errs2 ofs st.
Proof.
  destruct in_backup_metrics as (Hok & Htime & Hsize).
  intros Hout Hm [post ->]. unfold turn_metrics in *.
  assert (Hnoted : ∀ err, noted_in err errs1 → noted_in err (errs1 ++ post)).
  { intros err (pre & post' & ->). exists pre, (post' ++ post). by rewrite <- !app_assoc. }
  destruct st as [|[p w0 [err|] w1|?|?] st]; [done| | |done|done].
  - rewrite !Hm by done. destruct Hout as (? & ? & ?). auto.
  - destruct st as [|[?|j f o t w [err|] w2|?] st]; [done|done| | |done].
    + rewrite !Hm by done. destruct Hout as (? & ? & ? & ?). auto.
    + rewrite !Hm by done. done.
Qed.

Lemma backup_target_recorded tmpDir ofs tgt (r : Run target (W * list (Asked target W))) :
  registered (run_job r) → artifacts_stay h → delivery_on_dumps h →
  targets (run_job r) !! ofs = Some tgt →
  ∃ r' st,
    backup_target (recording h) tmpDir ofs tgt r = Returned r'
    ∧ same_shape (run_job r) (run_job r')
    ∧ registered (run_job r')
    ∧ (∃ post, run_errs r' = run_errs r ++ post)
    ∧ record_of r' = record_of r ++ st
    ∧ Forall (answered h) st
    ∧ turn_calls h tmpDir (deferredCopying (run_job r)) (ofs, tgt)
        (run_host r).1 st (run_host r').1
    ∧ turn_dumps h (run_job r) (run_job r') ofs st
    ∧ (∀ o, o ≠ ofs →
            kept_at (run_job r) (run_job r') o ∧ came_from (run_job r) (run_job r') o)
    ∧ (delivery_keeps_backup_metrics h →
         (∀ o k, o ≠ ofs → k ∈ backup_metrics →
                 metric (run_job r') o k = metric (run_job r) o k)
         ∧ turn_metrics h (run_job r') (run_errs r') ofs st).
Proof.
  intros Hreg Hstay Hdumps Htgt. unfold backup_target, record_of.
  cbn [recording clock GetFileFullPath os_MkdirAll os_Stat createTmpBackup gzip].
  assert (Hm0 : is_Some (TargetMetrics (run_job r) !! ofs)).
  { apply Hreg. left. rewrite Htgt. by eexists. }
  destruct (SetOfsMetrics_spec (run_job r) ofs
              [(metrics.BackupOk, float64 0); (metrics.BackupTime, float64 0);
               (metrics.DeliveryOk, float64 0); (metrics.DeliveryTime, float64 0);
               (metrics.BackupSize, float64 0);
               (metrics.BackupTimestamp,
                float64 (Z.quot (clock h (run_host r).1) (10 ^ 9)))] Hm0)
    as (j1 & Hrun1 & Hshape1 & Hdump1 & Hother1 & _ & Hset1).
  rewrite Hrun1. destruct Hm0 as [vs0 Hvs0].
  assert (Hreg1 : registered j1).
  { apply (registered_preserved (run_job r)); [done..|].
    intros o Ho. left. by rewrite <- Hdump1. }
  assert (Hm1 : is_Some (TargetMetrics j1 !! ofs)).
  { apply Hshape1. by eexists. }
  set (f := GetFileFullPath h tmpDir ofs "tar" "" (gzip h tgt) (run_host r).1).
  destruct (os_MkdirAll h (path.Dir f) (run_host r).1) as [[err|] w1] eqn:Hmk.
  { eexists _, [_]. split; [reflexivity|]. simpl.
    split; [done|]. split; [done|].
    split; [exists (flat err); apply multierror_Append_flat|].
    split; [done|]. split; [by constructor|].
    split; [left; by exists err|].
    split; [unfold turn_dumps; simpl;
            by destruct (same_dumps_frames (run_job r) j1 ofs); [by rewrite Hdump1|]|].
    split; [intros o _; apply same_dumps_frames; by rewrite Hdump1|].
    intros _. split; [intros o k Hne _; by apply Hother1|].
    rewrite !(Hset1 _ Hvs0). split; [metric_value|]. split; [metric_value|].
    exists (run_errs r), []. by rewrite app_nil_r, multierror_Append_flat. }
  cbn [fst snd].
  destruct (createTmpBackup h j1 f ofs tgt w1) as [[err|] w2] eqn:Hc; cbn [fst snd].
  { destruct (SetOfsMetrics_spec j1 ofs
                [(metrics.BackupTime,
                  float64 (Z.quot (clock h w2 - clock h (run_host r).1) (10 ^ 6)))] Hm1)
      as (j2 & Hrun2 & Hshape2 & Hdump2 & Hother2 & Hkeep2 & Hset2).
    rewrite Hrun2. destruct Hm1 as [vs1 Hvs1].
    eexists _, [_; _]. split; [reflexivity|]. simpl.
    split; [by eapply same_shape_trans|]. split.
    { apply (registered_preserved j1); [done..|].
      intros o Ho. left. by rewrite <- Hdump2. }
    split; [exists (flat err); apply multierror_Append_flat|].
    split; [by rewrite <- app_assoc|].
    split; [by repeat constructor|].
    split; [right; left; by exists w1, j1, err|].
    split; [unfold turn_dumps; simpl;
            by destruct (same_dumps_frames (run_job r) j2 ofs); [by rewrite Hdump2, Hdump1|]|].
    split; [intros o _; apply same_dumps_frames; by rewrite Hdump2, Hdump1|].
    intros _. split.
    { intros o k Hne _. rewrite Hother2 by done. by apply Hother1. }
    split; [rewrite Hkeep2, (Hset1 _ Hvs0); [metric_value|]|].
    { unfold metrics.BackupTime, metrics.BackupOk. simpl.
      intros Hin%list_elem_of_singleton. discriminate. }
    split; [rewrite Hkeep2, (Hset1 _ Hvs0); [metric_value|]|].
    { unfold metrics.BackupTime, metrics.BackupSize. simpl.
      intros Hin%list_elem_of_singleton. discriminate. }
    split; [rewrite (Hset2 _ Hvs1); metric_value|].
    exists (run_errs r), []. by rewrite app_nil_r, multierror_Append_flat. }
  destruct (Hstay _ _ _ _ _ _ Hc) as [size Hsize]. rewrite Hsize.
  destruct (SetOfsMetrics_spec j1 ofs
              [(metrics.BackupOk, float64 1);
               (metrics.BackupTime,
                float64 (Z.quot (clock h w2 - clock h (run_host r).1) (10 ^ 6)));
               (metrics.BackupSize, float64 size)] Hm1)
    as (j2 & Hrun2 & Hshape2 & Hdump2 & Hother2 & _ & Hset2).
  rewrite Hrun2. destruct Hm1 as [vs1 Hvs1].
  assert (Hreg2 : registered j2).
  { apply (registered_preserved j1); [done..|].
    intros o Ho. left. by rewrite <- Hdump2. }
  assert (Hm2 : is_Some (TargetMetrics j2 !! ofs)).
  { apply Hshape2. by eexists. }
  destruct (publish_spec j2 ofs {| TmpFile := f; Delivered := false |} Hreg2 Hm2)
    as (Hshape3 & Hreg3 & Hmetric3).
  set (j3 := with_dumped j2 _) in *.
  assert (Hshape03 : same_shape (run_job r) j3).
  { eapply same_shape_trans; [exact Hshape1|].
    eapply same_shape_trans; [exact Hshape2|exact Hshape3]. }
  assert (Hdef : deferredCopying j3 = deferredCopying (run_job r)) by apply Hshape03.
  assert (Hd3 : dumpedObjects j3 !! ofs = Some {| TmpFile := f; Delivered := false |}).
  { subst j3. simpl. by rewrite lookup_insert_eq. }
  assert (Hframe3 : ∀ o, o ≠ ofs → kept_at (run_job r) j3 o ∧ came_from (run_job r) j3 o).
  { intros o Hne. apply same_dumps_frames. subst j3. simpl.
    rewrite lookup_insert_ne by done. by rewrite Hdump2, Hdump1. }
  assert (Hout3 : ∀ errs jl wl rest,
            turn_metrics h j3 errs ofs
              (AskedMkdirAll (path.Dir f) (run_host r).1 None w1
               :: AskedTmpBackup jl f ofs tgt wl None w2 :: rest)).
  { intros errs jl wl rest. simpl. rewrite !Hmetric3, !(Hset2 _ Hvs1).
    split; [metric_value|]. split; [|metric_value].
    exists size. split; [done|]. metric_value. }
  assert (Hother3 : ∀ o k, o ≠ ofs → metric j3 o k = metric (run_job r) o k).
  { intros o k Hne. rewrite Hmetric3, Hother2 by done. by apply Hother1. }
  rewrite Hdef. destruct (deferredCopying (run_job r)) eqn:Hdeferred; simpl.
  { eexists _, [_; _]. split; [reflexivity|]. simpl.
    split; [done|]. split; [done|].
    split; [exists []; by rewrite app_nil_r|].
    split; [by rewrite <- app_assoc|].
    split; [by repeat constructor|].
    split; [right; right; by exists w1, j1, w2|].
    split; [unfold turn_dumps; simpl; by eexists|].
    split; [done|].
    intros _. split; [intros o k Hne _; by apply Hother3|].
    exact (Hout3 (run_errs r) j1 w1 []). }
  match goal with |- context [deliver (recording h) ?x] => set (r3 := x) end.
  destruct (deliver_recorded r3 Hreg3 Hdumps)
    as (r' & e & cs & Hrun & Hrec & Hans & Hshape' & Hreg' & Herrs' & Hframe' & Hmetrics').
  rewrite Hrun. simpl in Hrec, Hans.
  exists r', [AskedMkdirAll (path.Dir f) (run_host r).1 None w1;
              AskedTmpBackup j1 f ofs tgt w1 None w2;
              AskedDelivery j3 w2 e cs (run_host r').1].
  split; [done|]. split; [by eapply same_shape_trans|]. split; [done|].
  split; [done|].
  split; [unfold record_of in Hrec; rewrite Hrec; simpl; by rewrite <- !app_assoc|].
  split; [by repeat constructor|].
  split; [right; right; exists w1, j1, w2; simpl; by exists j3, e, cs|].
  split.
  { unfold turn_dumps. simpl. destruct (Hframe' ofs) as [Hk _].
    destruct (Hk _ Hd3) as (d' & Hd' & Hf'). by exists d'. }
  split.
  { intros o Hne. destruct (Hframe3 o Hne) as [Hk3 Hc3]. destruct (Hframe' o) as [Hk' Hc'].
    split; [by eapply kept_at_trans|by eapply came_from_trans]. }
  intros Hkeep. specialize (Hmetrics' Hkeep). split.
  - intros o k Hne Hk. rewrite Hmetrics' by done. by apply Hother3.
  - eapply turn_metrics_persists; [apply (Hout3 (run_errs r))| |done].
    intros k Hk. by apply Hmetrics'.
Qed.

Lemma turn_dumps_later (j j1 j' : job target) ofs st :
  turn_dumps h j j1 ofs st → kept_at j1 j' ofs → came_from j1 j' ofs →
  turn_dumps h j j' ofs st.
Proof.
  unfold turn_dumps. intros Hturn Hk Hc. destruct (artifact_of h st) as [[f size]|].
  - destruct Hturn as (d & Hd & Hf). destruct (Hk d Hd) as (d' & Hd' & Hf').
    exists d'. split; [done|congruence].
  - destruct Hturn as [Hc1 Hk1].
    split; [by eapply came_from_trans|by eapply kept_at_trans].
Qed.

Lemma turn_dumps_earlier (j j1 j' : job target) ofs st :
  turn_dumps h j1 j' ofs st → kept_at j j1 ofs → came_from j j1 ofs →
  turn_dumps h j j' ofs st.
Proof.
  unfold turn_dumps. intros Hturn Hk Hc. destruct (artifact_of h st) as [[f size]|].
  - done.
  - destruct Hturn as [Hc1 Hk1].
    split; [by eapply came_from_trans|by eapply kept_at_trans].
Qed.

Lemma backup_targets_recorded tmpDir todo (r : Run target (W * list (Asked target W))) :
  registered (run_job r) → artifacts_stay h → delivery_on_dumps h →
  NoDup todo.*1 →
  (∀ ofs tgt, (ofs, tgt) ∈ todo → targets (run_job r) !! ofs = Some tgt) →
  ∃ r' steps,
    backup_targets (recording h) tmpDir todo r = Returned r'
    ∧ same_shape (run_job r) (run_job r')
    ∧ registered (run_job r')
    ∧ (∃ post, run_errs r' = run_errs r ++ post)
    ∧ record_of r' = record_of r ++ concat steps
    ∧ Forall (answered h) (concat steps)
    ∧ turns h tmpDir (deferredCopying (run_job r)) todo (run_host r).1 steps
        (run_host r').1
    ∧ Forall2 (fun x st => turn_dumps h (run_job r) (run_job r') x.1 st) todo steps
    ∧ (∀ o, o ∉ todo.*1 →
            kept_at (run_job r) (run_job r') o ∧ came_from (run_job r) (run_job r') o)
    ∧ (delivery_keeps_backup_metrics h →
         (∀ o k, o ∉ todo.*1 → k ∈ backup_metrics →
                 metric (run_job r') o k = metric (run_job r) o k)
         ∧ Forall2 (fun x st => turn_metrics h (run_job r') (run_errs r') x.1 st)
             todo steps).
Proof.
  intros Hreg Hstay Hdumps. revert r Hreg.
  induction todo as [|[ofs tgt] todo IH]; intros r Hreg Hnd Htodo.
  - exists r, []. simpl. split; [done|]. split; [apply same_shape_refl|].
    split; [done|]. split; [exists []; by rewrite app_nil_r|].
    split; [by rewrite app_nil_r|]. split; [constructor|]. split; [constructor|].
    split; [constructor|].
    split; [intros o _; split; [apply kept_at_refl|apply came_from_refl]|].
    intros _. split; [done|constructor].
  - rewrite fmap_cons in Hnd. apply NoDup_cons in Hnd as [Hfresh Hnd].
    destruct (backup_target_recorded tmpDir ofs tgt r Hreg Hstay Hdumps)
      as (r1 & st & Hrun1 & Hshape1 & Hreg1 & [post1 Herrs1] & Hrec1 & Hans1 & Hturn1
          & Hdump1 & Hframe1 & Hmetrics1).
    { apply Htodo. left. }
    destruct (IH r1 Hreg1 Hnd)
      as (r' & steps & Hrun & Hshape & Hreg' & [post Herrs] & Hrec & Hans & Hturns
          & Hdump & Hframe & Hmetrics).
    { intros o t Hin. destruct Hshape1 as (_ & -> & _). apply Htodo. by right. }
    exists r', (st :: steps). simpl. rewrite Hrun1.
    split; [done|]. split; [by eapply same_shape_trans|]. split; [done|].
    split; [exists (post1 ++ post); by rewrite Herrs, Herrs1, <- app_assoc|].
    split; [by rewrite Hrec, Hrec1, <- app_assoc|].
    split; [by apply Forall_app|].
    split.
    { econstructor; [exact Hturn1|]. destruct Hshape1 as (<- & _). exact Hturns. }
    split.
    { constructor.
      - simpl. destruct (Hframe ofs Hfresh) as [Hk Hc]. by eapply turn_dumps_later.
      - clear -Hdump Hfresh Hframe1.
        induction Hdump as [|[o t] sto todo' steps' Hone Hrest IHd]; constructor.
        + simpl in *. destruct (Hframe1 o) as [Hk Hc].
          { intros ->. apply Hfresh. by left. }
          by eapply turn_dumps_earlier.
        + apply IHd. intros Hin. apply Hfresh. by right. }
    split.
    { intros o Ho. apply not_elem_of_cons in Ho as [Hne Ho].
      destruct (Hframe1 o Hne) as [Hk1 Hc1]. destruct (Hframe o Ho) as [Hk Hc].
      split; [by eapply kept_at_trans|by eapply came_from_trans]. }
    intros Hkeep. destruct (Hmetrics1 Hkeep) as [Hother1 Hout1].
    destruct (Hmetrics Hkeep) as [Hother Hout]. split.
    + intros o k Ho Hk. apply not_elem_of_cons in Ho as [Hne Ho].
      rewrite Hother by done. by apply Hother1.
    + constructor; [|done]. simpl.
      eapply turn_metrics_persists; [exact Hout1| |by exists post].
      intros k Hk. by apply Hother.
Qed.

Lemma DoBackup_recorded `{Runtime} (j : job target) tmpDir w l0 :
  registered j → artifacts_stay h → delivery_on_dumps h →
  ∃ e r steps jl wl el csl,
    DoBackup (recording h) j tmpDir (w, l0) = Returned (e, r)
    ∧ DoBackup h j tmpDir w = Returned (e, unrecorded r)
    ∧ e = ErrorOrNil (run_errs r)
    ∧ record_of r = l0 ++ concat steps ++ [AskedDelivery jl wl el csl (run_host r).1]
    ∧ Forall (answered h) (concat steps ++ [AskedDelivery jl wl el csl (run_host r).1])
    ∧ turns h tmpDir (deferredCopying j) (range_map (targets j)) w steps wl
    ∧ Forall2 (fun x st => turn_dumps h j jl x.1 st ∧ turn_dumps h j (run_job r) x.1 st)
        (range_map (targets j)) steps
    ∧ (delivery_keeps_backup_metrics h →
       Forall2 (fun x st => turn_metrics h (run_job r) (run_errs r) x.1 st)
         (range_map (targets j)) steps).
Proof.
  intros Hreg Hstay Hdumps.
  assert (Hsim := DoBackup_unrecorded j tmpDir w l0). revert Hsim. unfold DoBackup at 2.
  set (r0 := {| run_job := j; run_errs := []; run_host := (w, l0); run_calls := [] |}).
  destruct (backup_targets_recorded tmpDir (range_map (targets j)) r0 Hreg Hstay Hdumps)
    as (r1 & steps & Hrun1 & Hshape1 & Hreg1 & _ & Hrec1 & Hans1 & Hturns & Hdump1 & _
        & Hmetrics1).
  { apply range_map_once. }
  { intros o t Hin. rewrite range_map_perm in Hin. by apply elem_of_map_to_list. }
  unfold DoBackup. fold r0. rewrite Hrun1.
  destruct (deliver_recorded r1 Hreg1 Hdumps)
    as (r2 & el & csl & Hrun2 & Hrec2 & Hans2 & Hshape2 & Hreg2 & Herrs2 & Hframe2
        & Hmetrics2).
  rewrite Hrun2. intros Hsim.
  exists (ErrorOrNil (run_errs r2)), r2, steps, (run_job r1), (run_host r1).1, el, csl.
  split; [done|]. split; [done|]. split; [done|].
  split; [by rewrite Hrec2, Hrec1, <- app_assoc|].
  split; [apply Forall_app; split; [done|by constructor]|].
  split; [done|].
  split.
  { eapply Forall2_impl; [exact Hdump1|]. intros [o t] st Hone. simpl in *.
    split; [done|]. destruct (Hframe2 o) as [Hk Hc]. by eapply turn_dumps_later. }
  intros Hkeep. destruct (Hmetrics1 Hkeep) as [_ Hout]. specialize (Hmetrics2 Hkeep).
  eapply Forall2_impl; [exact Hout|]. intros [o t] st Hone. simpl in *.
  eapply turn_metrics_persists; [exact Hone| |done].
  intros k Hk. by apply Hmetrics2.
Qed.

Lemma turn_tells_the_artifact (j' : job target) errs' tmpDir deferred x w st w' :
  turn_calls h tmpDir deferred x w st w' →
  turn_metrics h j' errs' x.1 st →
  metric j' x.1 metrics.BackupOk = Some (float64 1)
  ↔ ∃ f size, artifact_of h st = Some (f, Some size)
              ∧ metric j' x.1 metrics.BackupSize = Some (float64 size).
Proof.
  intros [(err & ->)|[(w1 & j1 & err & ->)|(w1 & j1 & w2 & Hmade)]] Hm.
  - simpl in *. destruct Hm as (Hok & _). rewrite Hok.
    split; [discriminate|]. by intros (f & size & Hf & _).
  - simpl in *. destruct Hm as (Hok & _). rewrite Hok.
    split; [discriminate|]. by intros (f & size & Hf & _).
  - assert (Hst : ∃ rest, st = AskedMkdirAll
                    (path.Dir (GetFileFullPath h tmpDir x.1 "tar" "" (gzip h x.2) w))
                    w None w1
                    :: AskedTmpBackup j1 (GetFileFullPath h tmpDir x.1 "tar" "" (gzip h x.2) w)
                         x.1 x.2 w1 None w2 :: rest).
    { simpl in Hmade. destruct deferred.
      - destruct Hmade as [-> _]. by exists [].
      - destruct Hmade as (j3 & e & cs & -> & _). by eexists. }
    destruct Hst as [rest ->]. simpl in *.
    destruct Hm as (Hok & (size & Hsize & Hbytes) & _). rewrite Hok, Hsize.
    split; [|done]. intros _. by eexists _, size.
Qed.

Lemma turns_tell_the_artifacts (j' : job target) errs' tmpDir deferred todo w steps w' :
  turns h tmpDir deferred todo w steps w' →
  Forall2 (fun x st => turn_metrics h j' errs' x.1 st) todo steps →
  Forall2 (fun x st =>
             turn_metrics h j' errs' x.1 st
             ∧ (metric j' x.1 metrics.BackupOk = Some (float64 1)
                ↔ ∃ f size, artifact_of h st = Some (f, Some size)
                            ∧ metric j' x.1 metrics.BackupSize = Some (float64 size)))
    todo steps.
Proof.
  induction 1 as [|x todo w st w1 steps w' Hturn Hrest IH]; intros Hm.
  - constructor.
  - apply Forall2_cons in Hm as [Hone Hm]. constructor; [|by apply IH].
    split; [done|]. by eapply turn_tells_the_artifact.
Qed.

End Record.


(** C6.  [DoBackup] (of the psql_physical job and of the mongodump job,
    which are [DoBackup] at their hosts) returns, and what it asks of the
    host, as the host records it, is the turns of the targets, in the
    order of [range] and each in the state of the host that the one
    before left, followed by exactly one delivery in the state that the
    last turn left.  Within the turn of a target a delivery comes right
    after [createTmpBackup] returned nil, in the state it left and with
    the artifact as the dump object of the target, when copying is not
    deferred, and nowhere else.  The last delivery is made whatever the
    flag and whatever the earlier deliveries returned.  The run is that
    of the host itself: it returns the same error and the same job. *)
Theorem delivery_after_each_artifact_and_once_more `{Runtime} {target W}
    (h : Host target W) (j : job target) (tmpDir : string) (w : W)
    (l0 : list (Asked target W)) :
  registered j → artifacts_stay h → delivery_on_dumps h →
  ∃ e r steps jl wl el csl,
    DoBackup (recording h) j tmpDir (w, l0) = Returned (e, r)
    ∧ DoBackup h j tmpDir w = Returned (e, unrecorded r)
    ∧ record_of r = l0 ++ concat steps ++ [AskedDelivery jl wl el csl (run_host r).1]
    ∧ Forall (answered h) (concat steps ++ [AskedDelivery jl wl el csl (run_host r).1])
    ∧ turns h tmpDir (deferredCopying j) (range_map (targets j)) w steps wl.
Proof.
  intros Hreg Hstay Hdumps.
  destruct (DoBackup_recorded h j tmpDir w l0 Hreg Hstay Hdumps)
    as (e & r & steps & jl & wl & el & csl & Hrun & Hsim & _ & Hrec & Hans & Hturns & _).
  by exists e, r, steps, jl, wl, el, csl.
Qed.

(** C7.  [DoBackup] returns the errors it met, and for every target of the
    job, after the run and by what the host records of its turn: when
    the temp directory could not be made, [BackupOk] and [BackupSize] are
    0 and the error is among the errors returned; when [createTmpBackup]
    returned an error, [BackupOk] and [BackupSize] are 0, [BackupTime] is
    the time from the start of the turn to the return of the call, the
    error is among the errors returned, and the run went on with the next
    target; when it returned nil, [BackupOk] is 1, [BackupSize] is the
    size that [os.Stat] read of the temp file right after, and
    [BackupTime] is that time.  So [BackupOk] is 1 exactly when the turn
    of the target made an artifact whose byte length is [BackupSize]. *)
Theorem backup_metrics_tell_the_artifact `{Runtime} {target W}
    (h : Host target W) (j : job target) (tmpDir : string) (w : W)
    (l0 : list (Asked target W)) :
  registered j → artifacts_stay h → delivery_on_dumps h →
  delivery_keeps_backup_metrics h →
  ∃ e r steps jl wl el csl,
    DoBackup (recording h) j tmpDir (w, l0) = Returned (e, r)
    ∧ DoBackup h j tmpDir w = Returned (e, unrecorded r)
    ∧ e = ErrorOrNil (run_errs r)
    ∧ record_of r = l0 ++ concat steps ++ [AskedDelivery jl wl el csl (run_host r).1]
    ∧ Forall (answered h) (concat steps)
    ∧ turns h tmpDir (deferredCopying j) (range_map (targets j)) w steps wl
    ∧ Forall2 (fun x st =>
                 turn_metrics h (run_job r) (run_errs r) x.1 st
                 ∧ (metric (run_job r) x.1 metrics.BackupOk = Some (float64 1)
                    ↔ ∃ f size, artifact_of h st = Some (f, Some size)
                                ∧ metric (run_job r) x.1 metrics.BackupSize
                                  = Some (float64 size)))
        (range_map (targets j)) steps.
Proof.
  intros Hreg Hstay Hdumps Hkeep.
  destruct (DoBackup_recorded h j tmpDir w l0 Hreg Hstay Hdumps)
    as (e & r & steps & jl & wl & el & csl & Hrun & Hsim & He & Hrec & Hans & Hturns & _
        & Hout).
  exists e, r, steps, jl, wl, el, csl.
  split; [done|]. split; [done|]. split; [done|]. split; [done|].
  split; [by apply Forall_app in Hans as [Hans _]|]. split; [done|].
  eapply turns_tell_the_artifacts; [exact Hturns|exact (Hout Hkeep)].
Qed.

Lemma plain_artifacts_stay : artifacts_stay plain_host.
Proof. intros j f ofs tgt w w' _. by eexists. Qed.

Lemma plain_delivery_calls (j : job psql_physical.target) w e cs w' c :
  storages_Delivery plain_host j w = (e, cs, w') → c ∈ cs →
  ∃ ofs, is_Some (dumpedObjects j !! ofs)
         ∧ (c = CallSetOfsMetrics ofs [(metrics.DeliveryOk, float64 1);
                                       (metrics.DeliveryTime, float64 0)]
            ∨ c = CallSetDumpObjectDelivered ofs).
Proof.
  intros Hd Hc. simpl in Hd. injection Hd as _ <- _.
  apply list_elem_of_bind in Hc as ([ofs d] & Hc & Hin).
  apply elem_of_map_to_list in Hin. simpl in Hc.
  exists ofs. split; [by eexists|].
  destruct (Delivered d); [by apply elem_of_nil in Hc|].
  apply elem_of_cons in Hc as [->|Hc]; [by left|].
  apply list_elem_of_singleton in Hc as ->. by right.
Qed.

Lemma plain_delivery_on_dumps : delivery_on_dumps plain_host.
Proof.
  intros j w e cs w' c Hd Hc.
  by destruct (plain_delivery_calls j w e cs w' c Hd Hc) as (ofs & Hofs & [->| ->]).
Qed.

Lemma plain_delivery_keeps_backup_metrics : delivery_keeps_backup_metrics plain_host.
Proof.
  intros j w e cs w' ofs mm k Hd Hc Hk.
  destruct (plain_delivery_calls j w e cs w' _ Hd Hc) as (o & _ & [Heq|Heq]);
    [|discriminate].
  injection Heq as _ ->. unfold backup_metrics in Hk.
  repeat (apply elem_of_cons in Hk as [->|Hk]);
    [| | |by apply elem_of_nil in Hk];
    (intros Hin; simpl in Hin;
     repeat (apply elem_of_cons in Hin as [Hin|Hin]; [discriminate|]);
     by apply elem_of_nil in Hin).
Qed.

Lemma two_databases_registered deferred : registered (two_databases deferred).
Proof.
  intros ofs [[t Ht]|[d Hd]]; simpl in *; [|by rewrite lookup_empty in Hd].
  apply lookup_insert_Some in Ht as [[<- _]|[Hne Ht]].
  - rewrite lookup_insert_eq. by eexists.
  - apply lookup_singleton_Some in Ht as [<- _].
    rewrite lookup_insert_ne, lookup_singleton_eq by done. by eexists.
Qed.

Lemma delivery_after_each_artifact_and_once_more_witness :
  ∃ e r steps jl wl el csl,
    DoBackup (H := stable_runtime) (recording plain_host) (two_databases false) "/tmp"
      (0%nat, []) = Returned (e, r)
    ∧ DoBackup (H := stable_runtime) plain_host (two_databases false) "/tmp" 0%nat
      = Returned (e, unrecorded r)
    ∧ record_of r = [] ++ concat steps ++ [AskedDelivery jl wl el csl (run_host r).1]
    ∧ Forall (answered plain_host)
        (concat steps ++ [AskedDelivery jl wl el csl (run_host r).1])
    ∧ turns plain_host "/tmp" (deferredCopying (two_databases false))
        (range_map (Runtime := stable_runtime) (targets (two_databases false))) 0%nat
        steps wl.
Proof.
  apply (delivery_after_each_artifact_and_once_more (H := stable_runtime)
           plain_host (two_databases false) "/tmp" 0%nat []).
  - apply two_databases_registered.
  - apply plain_artifacts_stay.
  - apply plain_delivery_on_dumps.
Defined.

Lemma backup_metrics_tell_the_artifact_witness :
  ∃ e r steps jl wl el csl,
    DoBackup (H := stable_runtime) (recording plain_host) (two_databases true) "/tmp"
      (0%nat, []) = Returned (e, r)
    ∧ DoBackup (H := stable_runtime) plain_host (two_databases true) "/tmp" 0%nat
      = Returned (e, unrecorded r)
    ∧ e = ErrorOrNil (run_errs r)
    ∧ record_of r = [] ++ concat steps ++ [AskedDelivery jl wl el csl (run_host r).1]
    ∧ Forall (answered plain_host) (concat steps)
    ∧ turns plain_host "/tmp" (deferredCopying (two_databases true))
        (range_map (Runtime := stable_runtime) (targets (two_databases true))) 0%nat
        steps wl
    ∧ Forall2 (fun x st =>
                 turn_metrics plain_host (run_job r) (run_errs r) x.1 st
                 ∧ (metric (run_job r) x.1 metrics.BackupOk = Some (float64 1)
                    ↔ ∃ f size, artifact_of plain_host st = Some (f, Some size)
                                ∧ metric (run_job r) x.1 metrics.BackupSize
                                  = Some (float64 size)))
        (range_map (Runtime := stable_runtime) (targets (two_databases true))) steps.
Proof.
  apply (backup_metrics_tell_the_artifact (H := stable_runtime)
           plain_host (two_databases true) "/tmp" 0%nat []).
  - apply two_databases_registered.
  - apply plain_artifacts_stay.
  - apply plain_delivery_on_dumps.
  - apply plain_delivery_keeps_backup_metrics.
Defined.

(** The run of the two databases, computed: the artifact of [main] is
    made and delivered at once, the dump of [replica] fails, and one more
    delivery ends the run; the metrics of the two targets follow. *)
Example two_databases_run :
  ∃ r, psql_physical_DoBackup (H := stable_runtime) (plain_system _) plain_commands
         (two_databases false) "/tmp" 0%nat
       = Returned (Some (ErrMulti [ErrCmd "pg_basebackup"]), r)
       ∧ run_calls r = [CreateTmpBackup "main" "/tmp/main.tar.gz" true; Delivery;
                        CreateTmpBackup "replica" "/tmp/replica.tar.gz" false; Delivery]
       ∧ metric (run_job r) "main" metrics.BackupOk = Some 1
       ∧ metric (run_job r) "main" metrics.BackupSize = Some 2048
       ∧ metric (run_job r) "replica" metrics.BackupOk = Some 0
       ∧ metric (run_job r) "replica" metrics.BackupSize = Some 0.
Proof. eexists. vm_compute. repeat split. Qed.

(** The same run as the host records it, and the run with copying
    deferred, where the one delivery is the last. *)
Example two_databases_record :
  ∃ e r, DoBackup (H := stable_runtime) (recording plain_host) (two_databases false)
           "/tmp" (0%nat, []) = Returned (e, r)
         ∧ asked_what <$> record_of r
           = [("MkdirAll /tmp", None);
              ("createTmpBackup main /tmp/main.tar.gz", None);
              ("Delivery", None);
              ("MkdirAll /tmp", None);
              ("createTmpBackup replica /tmp/replica.tar.gz", Some (ErrCmd "pg_basebackup"));
              ("Delivery", None)].
Proof. eexists _, _. vm_compute. split; reflexivity. Qed.

Example two_databases_deferred_record :
  ∃ e r, DoBackup (H := stable_runtime) (recording plain_host) (two_databases true)
           "/tmp" (0%nat, []) = Returned (e, r)
         ∧ asked_what <$> record_of r
           = [("MkdirAll /tmp", None);
              ("createTmpBackup main /tmp/main.tar.gz", None);
              ("MkdirAll /tmp", None);
              ("createTmpBackup replica /tmp/replica.tar.gz", Some (ErrCmd "pg_basebackup"));
              ("Delivery", None)].
Proof. eexists _, _. vm_compute. split; reflexivity. Qed.

(** ** The extra keys of a [postgresql_basebackup] job *)

Section Keys.
Context {W : Type} (x : Commands W) (c : psql_physical.Connect W).

Lemma init_sources_refuses jp srcs j w :
  (∃ src key, src ∈ srcs ∧ key ∈ psql_physical.ExtraKeys src
              ∧ psql_physical.forbidden key = true) →
  ∃ err w', psql_physical.init_sources c jp srcs j w = (None, Some err, w').
Proof.
  revert j w. induction srcs as [|src srcs IH]; intros j w (bad & key & Hin & Hkey & Hbad).
  - by apply elem_of_nil in Hin.
  - simpl. destruct (existsb psql_physical.forbidden (psql_physical.ExtraKeys src)) eqn:Hany;
      [by eexists _, _|].
    assert (Hrest : ∃ src key, src ∈ srcs ∧ key ∈ psql_physical.ExtraKeys src
                               ∧ psql_physical.forbidden key = true).
    { apply elem_of_cons in Hin as [->|Hin]; [|by exists bad, key].
      exfalso. apply Bool.not_true_iff_false in Hany. apply Hany.
      apply existsb_exists. exists key. split; [by apply list_elem_of_In|done]. }
    destruct (psql_physical.GetConnect c _ w) as [[err|] w1]; [by eexists _, _|].
    destruct (psql_physical.Ping c _ w1) as [[err|] w2]; [by eexists _, _|].
    by apply IH.
Qed.

Lemma init_sources_clean jp srcs j w j' e w' :
  (∀ ofs tgt, targets j !! ofs = Some tgt → clean_keys tgt) →
  psql_physical.init_sources c jp srcs j w = (Some j', e, w') →
  ∀ ofs tgt, targets j' !! ofs = Some tgt → clean_keys tgt.
Proof.
  revert j w. induction srcs as [|src srcs IH]; intros j w Hclean Hrun.
  - simpl in Hrun. by injection Hrun as <- _ _.
  - simpl in Hrun.
    destruct (existsb psql_physical.forbidden (psql_physical.ExtraKeys src)) eqn:Hany;
      [discriminate|].
    destruct (psql_physical.GetConnect c _ w) as [[err|] w1]; [discriminate|].
    destruct (psql_physical.Ping c _ w1) as [[err|] w2]; [discriminate|].
    eapply IH; [|exact Hrun]. simpl. intros ofs tgt Htgt.
    apply lookup_insert_Some in Htgt as [[_ <-]|[_ Htgt]]; [|by eapply Hclean].
    unfold clean_keys. simpl. apply Forall_forall. intros key Hkey.
    destruct (psql_physical.forbidden key) eqn:Hbad; [|done].
    apply Bool.not_true_iff_false in Hany. exfalso. apply Hany.
    apply existsb_exists. exists key. split; [by apply list_elem_of_In|done].
Qed.

Lemma init_sources_registered jp srcs (j : job psql_physical.target) w j' e w' :
  registered j →
  psql_physical.init_sources c jp srcs j w = (Some j', e, w') →
  registered j'.
Proof.
  revert j w. induction srcs as [|src srcs IH]; intros j w Hreg Hrun.
  - simpl in Hrun. by injection Hrun as <- _ _.
  - simpl in Hrun.
    destruct (existsb psql_physical.forbidden (psql_physical.ExtraKeys src)); [discriminate|].
    destruct (psql_physical.GetConnect c _ w) as [[err|] w1]; [discriminate|].
    destruct (psql_physical.Ping c _ w1) as [[err|] w2]; [discriminate|].
    eapply IH; [|exact Hrun]. intros ofs Hofs. simpl in *.
    destruct (decide (psql_physical.Name src = ofs)) as [<-|Hne].
    + rewrite lookup_insert_eq. by eexists.
    + rewrite lookup_insert_ne by done. apply Hreg.
      destruct Hofs as [Hofs|Hofs]; [left; by rewrite lookup_insert_ne in Hofs|by right].
Qed.

(** A job that [Init] returns has a metrics shell for each of its
    targets. *)
Lemma Init_registered jp w j e w' :
  psql_physical.Init x c jp w = (Some j, e, w') → registered j.
Proof.
  unfold psql_physical.Init.
  destruct (Exec x "pg_basebackup" ["--version"] w) as [[err|] w1]; [discriminate|].
  destruct (Exec x "tar" ["--version"] w1) as [[err|] w2]; [discriminate|].
  apply init_sources_registered. intros ofs [Hofs|Hofs]; simpl in Hofs;
    rewrite lookup_empty in Hofs; by destruct Hofs.
Qed.

(** C10.  When an extra key of some source matches [(-D|--pgdata=)],
    [Init] returns a nil job and an error.  So every target of a job
    that [Init] returns has extra keys none of which matches, and the
    command line that [createTmpBackup] builds for it is these keys
    followed by [--dbname=], the [--pgdata=] of the job's own temporary
    path and [--format=plain]. *)
Theorem pgdata_override_is_refused (jp : psql_physical.JobParams) (w : W) :
  ((∃ src key, src ∈ psql_physical.Sources jp ∧ key ∈ psql_physical.ExtraKeys src
               ∧ psql_physical.forbidden key = true) →
   ∃ err w', psql_physical.Init x c jp w = (None, Some err, w'))
  ∧ (∀ j e w', psql_physical.Init x c jp w = (Some j, e, w') →
     ∀ ofs tgt tmpBasebackupPath, targets j !! ofs = Some tgt →
       clean_keys tgt
       ∧ ∃ tail, psql_physical.basebackup_args j tmpBasebackupPath tgt
                 = psql_physical.extraKeys tgt
                   ++ ["--dbname=" +:+ psql_physical.connUrl tgt;
                       "--pgdata=" +:+ tmpBasebackupPath; "--format=plain"] ++ tail).
Proof.
  split.
  - intros Hbad. unfold psql_physical.Init.
    destruct (Exec x "pg_basebackup" ["--version"] w) as [[err|] w1]; [by eexists _, _|].
    destruct (Exec x "tar" ["--version"] w1) as [[err|] w2]; [by eexists _, _|].
    by apply init_sources_refuses.
  - intros j e w' Hrun ofs tgt p Htgt. unfold psql_physical.Init in Hrun.
    destruct (Exec x "pg_basebackup" ["--version"] w) as [[err|] w1]; [discriminate|].
    destruct (Exec x "tar" ["--version"] w1) as [[err|] w2]; [discriminate|].
    split.
    + eapply init_sources_clean; [|exact Hrun|exact Htgt].
      intros o t Ht. simpl in Ht. by rewrite lookup_empty in Ht.
    + unfold psql_physical.basebackup_args.
      assert (Hargs : (if (0 <? length (psql_physical.extraKeys tgt))%nat
                       then psql_physical.extraKeys tgt else [])
                      = psql_physical.extraKeys tgt).
      { by destruct (psql_physical.extraKeys tgt). }
      rewrite Hargs. destruct (diskRateLimit j >? 0).
      * eexists [_]. by rewrite <- !app_assoc.
      * exists []. by rewrite <- !app_assoc.
Qed.

End Keys.

Lemma pgdata_override_is_refused_witness :
  ∃ err w', psql_physical.Init plain_commands plain_connect overriding 0%nat
            = (None, Some err, w').
Proof.
  apply (proj1 (pgdata_override_is_refused plain_commands plain_connect overriding 0%nat)).
  exists (hd (psql_physical.Build_SourceParams "" (psql_physical.Build_Params "" "" "") [] false false)
            (psql_physical.Sources overriding)), "-D/var/lib/elsewhere".
  split; [apply list_elem_of_here|].
  split; [apply list_elem_of_further, list_elem_of_here|reflexivity].
Defined.

(** * Further properties *)

(** ** What a rotation pass touches, and what it reports *)

Lemma failed_app g1 g2 : failed (g1 ++ g2) = (failed g1 + failed g2)%nat.
Proof. unfold failed. by rewrite filter_app, length_app. Qed.

Lemma plain_Append errs e :
  plain e → length (multierror_Append errs e) = S (length errs).
Proof. destruct e; simpl; try done; intros _; rewrite length_app; simpl; lia. Qed.

Lemma mutate_report m sh :
  ∃ ok, journal (share.mutate m sh).2 = journal sh ++ [{| ev_call := m; ev_ok := ok |}]
        ∧ match (share.mutate m sh).1 with
          | None => ok = true
          | Some e => ok = false ∧ plain e
          end.
Proof.
  unfold share.mutate. destruct (faults sh (calls sh)).
  - exists false. by simpl.
  - destruct (share.apply (srvTime sh) m (nodes sh)) as [e|t] eqn:Happly; simpl.
    + exists false. split; [done|]. split; [done|].
      destruct m; simpl in Happly;
        repeat match type of Happly with
               | context [match ?x with _ => _ end] => destruct x
               end; by simplify_eq.
    + by exists true.
Qed.

Lemma moveFile_report file n sh :
  ∃ g, journal (smb.moveFile file n sh).2 = journal sh ++ g
       ∧ Forall (fun e => ev_call e = Remove_ n ∨ ev_call e = Rename_ file n) g
       ∧ match (smb.moveFile file n sh).1 with
         | None => failed g = 0%nat
         | Some e => failed g = 1%nat ∧ plain e
         end.
Proof.
  unfold smb.moveFile, share.Remove, share.Rename.
  destruct (mutate_report (Remove_ n) sh) as (ok1 & H1 & Hr1).
  destruct (share.mutate (Remove_ n) sh) as [[e1|] sh1]; simpl in *.
  - destruct Hr1 as [-> _]. eexists. split; [exact H1|].
    split; [constructor; [by left|constructor]|]. done.
  - subst ok1. destruct (mutate_report (Rename_ file n) sh1) as (ok2 & H2 & Hr2).
    destruct (share.mutate (Rename_ file n) sh1) as [[e2|] sh2]; simpl in *.
    + destruct Hr2 as [-> _]. eexists [_; _].
      split; [rewrite H2, H1, <- app_assoc; reflexivity|].
      split; [constructor; [by left|constructor; [by right|constructor]]|]. done.
    + subst ok2. eexists [_; _].
      split; [rewrite H2, H1, <- app_assoc; reflexivity|].
      split; [constructor; [by left|constructor; [by right|constructor]]|]. done.
Qed.

Lemma noted_report errs e g :
  match e with None => failed g = 0%nat | Some e => failed g = 1%nat ∧ plain e end →
  length (noted errs e) = (length errs + failed g)%nat.
Proof.
  destruct e as [e|]; simpl.
  - intros [-> He]. rewrite plain_Append by done. lia.
  - intros ->. lia.
Qed.

Lemma touches_moveFile file fl n g :
  n = smb.wLink fl ∨ n = smb.dLink fl →
  Forall (fun e => ev_call e = Remove_ n ∨ ev_call e = Rename_ file n) g →
  Forall (fun e => touches file fl (ev_call e)) g.
Proof.
  intros Hn HF. eapply Forall_impl; [exact HF|]. simpl.
  intros e [-> | ->]; unfold touches; destruct Hn as [-> | ->]; tauto.
Qed.

Lemma weekly_report ls file fl errs sh :
  ∃ g, journal (smb.weekly ls file fl errs sh).2 = journal sh ++ g
       ∧ Forall (fun e => touches file fl (ev_call e)) g
       ∧ length (smb.errs_of (smb.weekly ls file fl errs sh).1)
         = (length errs + failed g)%nat.
Proof.
  unfold smb.weekly.
  destruct (negb (String.eqb (smb.wLink fl) "") && negb (smb.toDel ls (smb.wLink fl)));
    [|exists []; simpl; rewrite app_nil_r; repeat split; [constructor|unfold failed; simpl; lia]].
  destruct (moveFile_report file (smb.wLink fl) sh) as (g1 & H1 & Hc1 & Hr1).
  apply (touches_moveFile file fl) in Hc1; [|by left].
  pose proof (noted_report errs _ g1 Hr1) as Hn1.
  destruct (smb.moveFile file (smb.wLink fl) sh) as [e1 sh1]. simpl in H1, Hn1.
  destruct (negb (smb.toDel ls (smb.dLink fl))); simpl; [|by exists g1].
  unfold share.Remove, share.Symlink.
  destruct (mutate_report (Remove_ (smb.dLink fl)) sh1) as (ok2 & H2 & Hr2).
  destruct (share.mutate (Remove_ (smb.dLink fl)) sh1) as [[e2|] sh2]; simpl in *.
  - destruct Hr2 as [-> He2].
    exists (g1 ++ [{| ev_call := Remove_ (smb.dLink fl); ev_ok := false |}]).
    rewrite H2, H1, <- app_assoc. split; [done|]. split.
    + apply Forall_app. split; [done|]. constructor; [|constructor].
      unfold touches. simpl. tauto.
    + rewrite plain_Append, failed_app, Hn1 by done. unfold failed at 3. simpl. lia.
  - subst ok2.
    destruct (mutate_report
                (Symlink_ (path.Rel (path.Dir (smb.dLink fl)) (smb.wLink fl)) (smb.dLink fl))
                sh2) as (ok3 & H3 & Hr3).
    destruct (share.mutate (Symlink_ _ _) sh2) as [e3 sh3]. simpl in *.
    exists (g1 ++ [{| ev_call := Remove_ (smb.dLink fl); ev_ok := true |};
                   {| ev_call := Symlink_ (path.Rel (path.Dir (smb.dLink fl)) (smb.wLink fl))
                                   (smb.dLink fl); ev_ok := ok3 |}]).
    rewrite H3, H2, H1, <- !app_assoc. split; [done|]. split.
    + apply Forall_app. split; [done|].
      constructor; [unfold touches; simpl; tauto|].
      constructor; [unfold touches; simpl; tauto|constructor].
    + rewrite failed_app. destruct e3 as [e3|]; simpl.
      * destruct Hr3 as [-> He3]. rewrite plain_Append, Hn1 by done.
        unfold failed at 3. simpl. lia.
      * subst ok3. rewrite Hn1. unfold failed at 3. simpl. lia.
Qed.

Lemma daily_report ls file fl st sh :
  ∃ g, journal (smb.daily ls file fl st sh).2 = journal sh ++ g
       ∧ Forall (fun e => touches file fl (ev_call e)) g
       ∧ length (smb.errs_of (smb.daily ls file fl st sh).1)
         = (length (smb.errs_of st) + failed g)%nat.
Proof.
  unfold smb.daily.
  destruct (_ && _);
    [|exists []; simpl; rewrite app_nil_r; repeat split; [constructor|unfold failed; simpl; lia]].
  destruct (moveFile_report file (smb.dLink fl) sh) as (g1 & H1 & Hc1 & Hr1).
  apply (touches_moveFile file fl) in Hc1; [|by right].
  pose proof (noted_report (smb.errs_of st) _ g1 Hr1) as Hn1.
  destruct (smb.moveFile file (smb.dLink fl) sh) as [e1 sh1]. simpl in *.
  by exists g1.
Qed.

Lemma unlink_report file fl st sh :
  ∃ g, journal (smb.unlink file st sh).2 = journal sh ++ g
       ∧ Forall (fun e => touches file fl (ev_call e)) g
       ∧ length (smb.errs_of (smb.unlink file st sh).1)
         = (length (smb.errs_of st) + failed g)%nat.
Proof.
  unfold smb.unlink, share.Remove. destruct (smb.delFile st);
    [|exists []; simpl; rewrite app_nil_r; repeat split; [constructor|unfold failed; simpl; lia]].
  destruct (mutate_report (Remove_ file) sh) as (ok & H1 & Hr).
  destruct (share.mutate (Remove_ file) sh) as [e sh1]. simpl in *.
  eexists [_]. split; [exact H1|]. split.
  - constructor; [|constructor]. unfold touches. simpl. tauto.
  - destruct e as [e|]; simpl.
    + destruct Hr as [-> He]. rewrite plain_Append by done. unfold failed. simpl. lia.
    + subst ok. unfold failed. simpl. lia.
Qed.

(** The turn of one candidate. *)
Lemma reconcile_one_report ls file ptr errs sh flow errs' sh' :
  smb.reconcile_one ls file ptr errs sh = (Returned (flow, errs'), sh') →
  ∃ i fl g, ptr = Some i ∧ smb.cells ls !! i = Some fl
            ∧ journal sh' = journal sh ++ g
            ∧ Forall (fun e => touches file fl (ev_call e)) g
            ∧ length errs' = (length errs + failed g)%nat.
Proof.
  unfold smb.reconcile_one. destruct ptr as [i|]; simpl; [|discriminate].
  destruct (smb.cells ls !! i) as [fl|] eqn:Hfl; simpl; [|discriminate].
  destruct (weekly_report ls file fl errs sh) as (gw & Hw & Htw & Hew).
  destruct (smb.weekly ls file fl errs sh) as [st1 sh1]. simpl in *.
  destruct (smb.flow st1).
  2:{ intros Heq. injection Heq as _ <- <-. by exists i, fl, gw. }
  destruct (daily_report ls file fl st1 sh1) as (gd & Hd & Htd & Hed).
  destruct (smb.daily ls file fl st1 sh1) as [st2 sh2]. simpl in *.
  destruct (unlink_report file fl st2 sh2) as (gu & Hu & Htu & Heu).
  destruct (smb.unlink file st2 sh2) as [st3 sh3]. simpl in *.
  intros Heq. injection Heq as _ <- <-.
  exists i, fl, (gw ++ gd ++ gu). split; [done|]. split; [done|].
  split; [by rewrite Hu, Hd, Hw, <- !app_assoc|].
  split; [by repeat (apply Forall_app; split)|].
  rewrite !failed_app. lia.
Qed.

Lemma reconcile_report ls todo errs sh :
  ∃ g, journal (smb.reconcile ls todo errs sh).2 = journal sh ++ g
       ∧ Forall (of_a_candidate ls todo) g
       ∧ match (smb.reconcile ls todo errs sh).1 with
         | Returned errs' => length errs' = (length errs + failed g)%nat
         | Panicked => True
         end.
Proof.
  revert errs sh. induction todo as [|[file ptr] todo IH]; intros errs sh.
  - exists []. simpl. rewrite app_nil_r. split; [done|]. split; [constructor|].
    unfold failed. simpl. lia.
  - simpl.
    destruct (smb.reconcile_one ls file ptr errs sh) as [[[flow errs1]|] sh1] eqn:Hone.
    2:{ exists []. unfold smb.reconcile_one in Hone.
        destruct (ptr ≫= _); [|injection Hone as <-; simpl; by rewrite app_nil_r].
        destruct (smb.weekly _ _ _ _ _) as [st1 sh1']. destruct (smb.flow st1); [|done].
        destruct (smb.daily _ _ _ _ _) as [st2 sh2]. by destruct (smb.unlink _ _ _). }
    destruct (reconcile_one_report _ _ _ _ _ _ _ _ Hone) as (i & fl & g & -> & Hfl & Hj & Ht & Hlen).
    assert (Hmine : Forall (of_a_candidate ls ((file, Some i) :: todo)) g).
    { eapply Forall_impl; [exact Ht|]. intros e He. exists file, i, fl.
      split; [left|done]. }
    destruct flow.
    + destruct (IH errs1 sh1) as (g' & Hj' & Ht' & Hlen').
      exists (g ++ g'). split; [by rewrite Hj', Hj, <- app_assoc|]. split.
      * apply Forall_app. split; [done|]. eapply Forall_impl; [exact Ht'|].
        intros e (f & k & l & Hin & Hl & He). exists f, k, l. split; [by right|done].
      * destruct (smb.reconcile ls todo errs1 sh1) as [[errs'|] sh']; [|done].
        simpl in *. rewrite failed_app. lia.
    + exists g. by simpl.
Qed.


(** X2.  Every mutation of a pass that fails adds exactly one error to those
    the pass started with, and nothing else adds one: when the pass
    returns, the errors are as many as before plus the failed calls. *)
Theorem rotation_reports_each_failure_once (ls : smb.Links)
    (todo : list (string * option nat)) (errs errs' : list error) (sh sh' : Share) :
  smb.reconcile ls todo errs sh = (Returned errs', sh') →
  ∃ g, journal sh' = journal sh ++ g
       ∧ length errs' = (length errs + failed g)%nat.
Proof.
  intros Hrun. destruct (reconcile_report ls todo errs sh) as (g & Hj & _ & Hlen).
  rewrite Hrun in Hj, Hlen. by exists g.
Qed.

Lemma ReadDir_error_plain dir sh err sh1 :
  share.ReadDir dir sh = (inl err, sh1) → plain err.
Proof.
  unfold share.ReadDir. destruct (faults sh (calls sh)); [by intros [= <- _]|].
  destruct (share.lookup dir (nodes sh)) as [[]|]; by intros [= <- _].
Qed.

Lemma collect_error_plain `{Runtime} s ofsPart safety periods ls errs sh err sh1 :
  smb.collect s ofsPart safety periods ls errs sh = (Returned (inl err), sh1) → plain err.
Proof.
  revert ls errs sh. induction periods as [|p ps IH]; intros ls errs sh; simpl; [done|].
  destruct (GetRetention p (smb.retention s)) as [rc rd].
  destruct (_ && _); [apply IH|].
  destruct (share.ReadDir _ sh) as [[e|files] sh0] eqn:Hread.
  - destruct (IsNotExist e); [apply IH|]. intros [= <- _].
    by eapply ReadDir_error_plain.
  - destruct (smb.scan _ _ _ _ _ _) as [[ls1 errs1] sh2].
    destruct (smb.outdated _ _ _ _ _); [apply IH|done].
Qed.

(** X3.  What the result of [deleteDescBackup] tells: nil, and every mutation
    asked for succeeded; a multi-error, and it holds at least one error
    for each mutation that failed; any other error (a bucket that could
    not be read), and nothing was asked of the share, the errors noted
    before being dropped. *)
Theorem rotation_result_tells `{Runtime} (s : smb.SMB) (ofsPart : string) (safety : bool)
    (sh sh' : Share) (r : option error) :
  smb.deleteDescBackup s ofsPart safety sh = (Returned r, sh') →
  ∃ g, journal sh' = journal sh ++ g ∧ result_tells r g.
Proof.
  unfold smb.deleteDescBackup.
  pose proof (collect_journal s ofsPart safety RetentionPeriodsList smb.no_links [] sh) as Hc.
  destruct (smb.collect _ _ _ _ _ _ _) as [[[err|[ls errs]]|] sh1] eqn:Hcollect;
    simpl in Hc; [| |done].
  - intros [= <- <-]. exists []. rewrite app_nil_r. split; [done|].
    apply collect_error_plain in Hcollect. by destruct err.
  - destruct (reconcile_report ls (range_map (smb.filesToDeleteMap ls)) errs sh1)
      as (g & Hj & _ & Hlen).
    destruct (smb.reconcile _ _ _ _) as [[errs'|] sh2]; [|done]. simpl in *.
    intros [= <- <-]. exists g. split; [by rewrite Hj, Hc|].
    destruct errs' as [|e errs']; simpl in *; lia.
Qed.

Lemma rotation_reports_each_failure_once_witness :
  ∃ g, journal (smb.reconcile
                  {| smb.cells := [{| smb.wLink := ""; smb.dLink := "" |}];
                     smb.filesMap := ∅;
                     smb.filesToDeleteMap := {[ "backups/db/monthly/a.tar" := Some 0%nat ]} |}
                  [("backups/db/monthly/a.tar", Some 0%nat)] [] (drops 0 three_monthly)).2
       = journal (drops 0 three_monthly) ++ g
       ∧ length [ErrTransport 0] = (length (@nil error) + failed g)%nat.
Proof.
  apply (rotation_reports_each_failure_once
           {| smb.cells := [{| smb.wLink := ""; smb.dLink := "" |}];
              smb.filesMap := ∅;
              smb.filesToDeleteMap := {[ "backups/db/monthly/a.tar" := Some 0%nat ]} |}
           [("backups/db/monthly/a.tar", Some 0%nat)] [] [ErrTransport 0]
           (drops 0 three_monthly)).
  vm_compute. reflexivity.
Defined.

Lemma rotation_result_tells_witness :
  ∃ g, journal (smb.deleteDescBackup (H := stable_runtime) monthly_one "db" false
                  (drops 5 both_links)).2
       = journal (drops 5 both_links) ++ g
       ∧ result_tells
           (Some (ErrMulti [ErrWrap "Failed to delete file" "backups/db/monthly/a.tar"
                              (ErrTransport 5)])) g.
Proof.
  apply (rotation_result_tells (H := stable_runtime) monthly_one "db" false
           (drops 5 both_links)
           (smb.deleteDescBackup (H := stable_runtime) monthly_one "db" false
              (drops 5 both_links)).2).
  vm_compute. reflexivity.
Defined.

(** ** The scan of the buckets *)

Lemma collect_by_age `{Runtime} s ofsPart periods ls errs sh :
  UseCount (smb.retention s) = false →
  smb.collect s ofsPart true periods ls errs sh
  = smb.collect s ofsPart false periods ls errs sh.
Proof.
  intros Hage. revert ls errs sh.
  induction periods as [|p ps IH]; intros ls errs sh; simpl; [done|].
  destruct (GetRetention p (smb.retention s)) as [rc rd].
  destruct (_ && _); [apply IH|].
  destruct (share.ReadDir _ sh) as [[e|files] sh0].
  - destruct (IsNotExist e); [apply IH|done].
  - destruct (smb.scan _ _ _ _ _ _) as [[ls1 errs1] sh2].
    unfold smb.outdated. rewrite Hage. apply IH.
Qed.

(** X4.  By age the safety flag of the job plays no part: the rotation with
    the safety backup and without it are the same run. *)
Theorem rotation_by_age_ignores_safety `{Runtime} (s : smb.SMB) (ofsPart : string)
    (sh : Share) :
  UseCount (smb.retention s) = false →
  smb.deleteDescBackup s ofsPart true sh = smb.deleteDescBackup s ofsPart false sh.
Proof. intros Hage. unfold smb.deleteDescBackup. by rewrite collect_by_age. Qed.

Lemma rotation_by_age_ignores_safety_witness :
  smb.deleteDescBackup (H := stable_runtime) (nas (age_retention 3 0 0)) "db" true
    (reliable three_monthly)
  = smb.deleteDescBackup (H := stable_runtime) (nas (age_retention 3 0 0)) "db" false
      (reliable three_monthly).
Proof.
  apply (rotation_by_age_ignores_safety (H := stable_runtime)
           (nas (age_retention 3 0 0)) "db" (reliable three_monthly)).
  reflexivity.
Defined.

Lemma range_map_empty `{Runtime} {V} : range_map (∅ : gmap string V) = [].
Proof.
  apply Permutation_nil_r. rewrite range_map_perm. by rewrite map_to_list_empty.
Qed.

Lemma collect_unused `{Runtime} s ofsPart safety periods ls errs sh :
  (∀ p, bucket (smb.retention s) p = (0, 0)) →
  smb.collect s ofsPart safety periods ls errs sh = (Returned (inr (ls, errs)), sh).
Proof.
  intros Hno. induction periods as [|p ps IH]; simpl; [done|].
  unfold GetRetention. by rewrite Hno.
Qed.

(** X5.  A storage none of whose buckets is in use (count 0 and no date for
    each) rotates nothing and asks the share for nothing, not even for a
    listing: the call returns nil and leaves the share as it was. *)
Theorem rotation_without_buckets_calls_nothing `{Runtime} (s : smb.SMB)
    (ofsPart : string) (safety : bool) (sh : Share) :
  (∀ p, bucket (smb.retention s) p = (0, 0)) →
  smb.deleteDescBackup s ofsPart safety sh = (Returned None, sh).
Proof.
  intros Hno. unfold smb.deleteDescBackup. rewrite collect_unused by done.
  simpl. by rewrite range_map_empty.
Qed.

Lemma rotation_without_buckets_calls_nothing_witness :
  smb.deleteDescBackup (H := stable_runtime) (nas (months_retention 3)) "db" false
    (drops 0 three_monthly)
  = (Returned None, drops 0 three_monthly).
Proof.
  apply (rotation_without_buckets_calls_nothing (H := stable_runtime)
           (nas (months_retention 3)) "db" false (drops 0 three_monthly)).
  intros p. reflexivity.
Defined.

Lemma collect_missing `{Runtime} s ofsPart safety periods ls errs sh :
  lossless sh →
  (∀ p, bucket (smb.retention s) p = (0, 0)
        ∨ share.lookup (bucket_dir s ofsPart p) (nodes sh) = None) →
  ∃ sh', smb.collect s ofsPart safety periods ls errs sh = (Returned (inr (ls, errs)), sh')
         ∧ nodes sh' = nodes sh ∧ journal sh' = journal sh ∧ faults sh' = faults sh.
Proof.
  intros Hfine Hgone. revert sh Hfine Hgone.
  induction periods as [|p ps IH]; intros sh Hfine Hgone; simpl; [by exists sh|].
  unfold GetRetention. destruct (Hgone p) as [Hno|Hmiss].
  - rewrite Hno. simpl. by apply IH.
  - destruct (bucket (smb.retention s) p) as [rc rd].
    destruct (_ && _); [by apply IH|].
    unfold share.ReadDir. rewrite Hfine. fold (bucket_dir s ofsPart p).
    rewrite Hmiss. simpl.
    destruct (IH (share.called sh (nodes sh) (journal sh))) as (sh' & Hrun & Hn & Hj & Hf);
      [done|done|].
    exists sh'. by rewrite Hrun.
Qed.

(** X6.  A bucket whose directory is not on the share is passed over as if it
    were out of use: when every bucket in use is missing and no call is
    dropped, the rotation returns nil, and the tree and the journal of the
    share are as before. *)
Theorem rotation_skips_missing_buckets `{Runtime} (s : smb.SMB) (ofsPart : string)
    (safety : bool) (sh : Share) :
  lossless sh →
  (∀ p, bucket (smb.retention s) p = (0, 0)
        ∨ share.lookup (bucket_dir s ofsPart p) (nodes sh) = None) →
  ∃ sh', smb.deleteDescBackup s ofsPart safety sh = (Returned None, sh')
         ∧ nodes sh' = nodes sh ∧ journal sh' = journal sh.
Proof.
  intros Hfine Hgone. unfold smb.deleteDescBackup.
  destruct (collect_missing s ofsPart safety RetentionPeriodsList smb.no_links [] sh
              Hfine Hgone) as (sh' & -> & Hn & Hj & _).
  simpl. rewrite range_map_empty. simpl. by exists sh'.
Qed.

Lemma rotation_skips_missing_buckets_witness :
  ∃ sh', smb.deleteDescBackup (H := stable_runtime) monthly_one "mail" false
           (reliable three_monthly) = (Returned None, sh')
         ∧ nodes sh' = nodes (reliable three_monthly)
         ∧ journal sh' = journal (reliable three_monthly).
Proof.
  apply (rotation_skips_missing_buckets (H := stable_runtime) monthly_one "mail" false
           (reliable three_monthly)).
  - intros k. reflexivity.
  - intros []; vm_compute; auto.
Defined.

(** X7.  The incremental rotation by month makes no exception for a
    directory that is missing, as the rotation by buckets does: when the
    directory of the year is not on the share, the call returns the error
    of the listing (which says that the directory does not exist) and
    asks for no mutation. *)
Theorem incremental_rotation_needs_the_year (now : string → string) (s : smb.SMB)
    (ofsPart : string) (sh : Share) :
  let backupDir :=
    path.Join [smb.backupPath s; ofsPart; (smb.last_month now (Months (smb.retention s))).1] in
  faults sh (calls sh) = false →
  share.lookup backupDir (nodes sh) = None →
  ∃ sh', smb.deleteIncBackup now s ofsPart false sh
         = (Returned (Some (ErrNotExist backupDir)), sh')
         ∧ nodes sh' = nodes sh ∧ journal sh' = journal sh.
Proof.
  intros backupDir Hfine Hmiss. unfold smb.deleteIncBackup. subst backupDir.
  destruct (smb.last_month now _) as [year lastMonth]. simpl in *.
  unfold share.ReadDir. rewrite Hfine, Hmiss. by eexists.
Qed.

Lemma incremental_rotation_needs_the_year_witness :
  ∃ sh', smb.deleteIncBackup march_2025 (nas (months_retention 1)) "mail" false
           (reliable two_years)
         = (Returned (Some (ErrNotExist "backups/mail/year_2025")), sh')
         ∧ nodes sh' = nodes (reliable two_years)
         ∧ journal sh' = journal (reliable two_years).
Proof.
  apply (incremental_rotation_needs_the_year march_2025 (nas (months_retention 1))
           "mail" (reliable two_years)); reflexivity.
Defined.

(** ** When a rotation panics *)

Lemma Readlink_error_plain p sh err sh1 :
  share.Readlink p sh = (inl err, sh1) → plain err.
Proof.
  unfold share.Readlink. destruct (faults sh (calls sh)); [by intros [= <- _]|].
  destruct (share.lookup p (nodes sh)) as [[]|]; by intros [= <- _].
Qed.

Lemma plain_Append_ne errs e : plain e → multierror_Append errs e ≠ [].
Proof. intros He Hnil. apply plain_Append with (errs := errs) in He. by rewrite Hnil in He. Qed.

Lemma scan_pointers p bakDir l ls errs sh ls' errs' sh' :
  smb.scan p bakDir l ls errs sh = (ls', errs', sh') →
  (∀ k i, smb.filesMap ls !! k = Some i → (i < length (smb.cells ls))%nat) →
  (∀ k i, smb.filesMap ls' !! k = Some i → (i < length (smb.cells ls'))%nat)
  ∧ smb.filesToDeleteMap ls' = smb.filesToDeleteMap ls
  ∧ (length (smb.cells ls) <= length (smb.cells ls'))%nat
  ∧ (∀ k, is_Some (smb.filesMap ls !! k) → is_Some (smb.filesMap ls' !! k))
  ∧ (errs' = [] →
       errs = []
       ∧ ∀ f, f ∈ l → is_Some (smb.filesMap ls' !! path.Join [bakDir; Name f])).
Proof.
  revert ls errs sh. induction l as [|file rest IH]; intros ls errs sh Hrun Hval.
  - simpl in Hrun. injection Hrun as <- <- <-. repeat split; try done.
    intros f Hf. by apply elem_of_nil in Hf.
  - simpl in Hrun.
    set (fPath := path.Join [bakDir; Name file]) in *.
    assert (Hfresh : ∀ ls0 errs0 sh0,
      smb.scan p bakDir rest
        {| smb.cells := smb.cells ls0 ++ [{| smb.wLink := ""; smb.dLink := "" |}];
           smb.filesMap := <[fPath := length (smb.cells ls0)]> (smb.filesMap ls0);
           smb.filesToDeleteMap := smb.filesToDeleteMap ls0 |} errs0 sh0
      = (ls', errs', sh') →
      (∀ k i, smb.filesMap ls0 !! k = Some i → (i < length (smb.cells ls0))%nat) →
      (∀ k i, smb.filesMap ls' !! k = Some i → (i < length (smb.cells ls'))%nat)
      ∧ smb.filesToDeleteMap ls' = smb.filesToDeleteMap ls0
      ∧ (length (smb.cells ls0) <= length (smb.cells ls'))%nat
      ∧ (∀ k, is_Some (smb.filesMap ls0 !! k) → is_Some (smb.filesMap ls' !! k))
      ∧ (errs' = [] →
           errs0 = []
           ∧ ∀ f, f ∈ file :: rest →
                  is_Some (smb.filesMap ls' !! path.Join [bakDir; Name f]))).
    { intros ls0 errs0 sh0 Hrun0 Hval0.
      destruct (IH _ _ _ Hrun0) as (Hv & Hdel & Hlen & Hkeep & Hnil).
      { simpl. intros k i Hk. rewrite length_app. simpl.
        apply lookup_insert_Some in Hk as [[_ <-]|[_ Hk]]; [lia|].
        apply Hval0 in Hk. lia. }
      simpl in *. rewrite length_app in Hlen. simpl in Hlen.
      split; [done|]. split; [done|]. split; [lia|]. split.
      + intros k Hk. apply Hkeep.
        destruct (decide (fPath = k)) as [->|Hne];
          [rewrite lookup_insert_eq; by eexists|by rewrite lookup_insert_ne].
      + intros Herrs. destruct (Hnil Herrs) as [-> Hall]. split; [done|].
        intros f Hf. apply elem_of_cons in Hf as [->|Hf]; [|by apply Hall].
        apply Hkeep. fold fPath. rewrite lookup_insert_eq. by eexists. }
    destruct (IsSymlink file); [|by apply (Hfresh _ _ _ Hrun)].
    destruct (share.Readlink fPath sh) as [[err|link] sh1] eqn:Hread.
    + apply Readlink_error_plain in Hread.
      destruct (IH _ _ _ Hrun Hval) as (Hv & Hdel & Hlen & Hkeep & Hnil).
      split; [done|]. split; [done|]. split; [done|]. split; [done|].
      intros Herrs. destruct (Hnil Herrs) as [Habs _].
      by apply plain_Append_ne in Habs.
    + destruct (smb.filesMap ls !! path.Join [bakDir; link]) as [ptr|] eqn:Hptr;
        [|by apply (Hfresh _ _ _ Hrun)].
      destruct (Hfresh _ _ _ Hrun) as (Hv & Hdel & Hlen & Hkeep & Hnil); simpl in *.
      { intros k i Hk. rewrite length_alter.
        apply lookup_insert_Some in Hk as [[_ <-]|[_ Hk]]; by eapply Hval. }
      rewrite length_alter in Hlen.
      split; [done|]. split; [done|]. split; [done|]. split; [|done].
      intros k Hk. apply Hkeep.
      destruct (decide (path.Join [bakDir; link] = k)) as [<-|Hne];
        [rewrite lookup_insert_eq; by eexists|by rewrite lookup_insert_ne].
Qed.

Lemma mark_pointers bakDir old ls :
  pointers_valid ls →
  (∀ f, f ∈ old → is_Some (smb.filesMap ls !! path.Join [bakDir; Name f])) →
  pointers_valid (smb.mark bakDir old ls)
  ∧ smb.cells (smb.mark bakDir old ls) = smb.cells ls
  ∧ smb.filesMap (smb.mark bakDir old ls) = smb.filesMap ls.
Proof.
  revert ls. induction old as [|f old IH]; intros ls Hval Hall; simpl; [done|].
  assert (Hrest : ∀ g, g ∈ old → is_Some (smb.filesMap ls !! path.Join [bakDir; Name g])).
  { intros g Hg. apply Hall. by right. }
  destruct (_ || _); [by apply IH|].
  destruct (Hall f) as [i Hi]; [by left|].
  destruct (IH {| smb.cells := smb.cells ls; smb.filesMap := smb.filesMap ls;
                  smb.filesToDeleteMap :=
                    <[path.Join [bakDir; Name f] := smb.filesMap ls !! path.Join [bakDir; Name f]]>
                      (smb.filesToDeleteMap ls) |}) as (Hv & Hc & Hm); [|done|done].
  destruct Hval as [Hv1 Hv2]. split; [done|]. simpl. intros k q Hk.
  apply lookup_insert_Some in Hk as [[_ <-]|[_ Hk]]; [|by eapply Hv2].
  exists i. split; [done|]. by eapply Hv1.
Qed.

Lemma outdated_among `{Runtime} useCount safety rc rd l old :
  smb.outdated useCount safety rc rd l = Returned old → ∀ f, f ∈ old → f ∈ l.
Proof.
  unfold smb.outdated. destruct useCount.
  - destruct (_ <=? _).
    + destruct (_ && _); [|done]. intros [= <-] f Hf.
      rewrite <- (sort_Slice_perm l).
      match type of Hf with _ ∈ take ?n _ => rewrite <- (take_drop n (sort_Slice l)) end.
      apply elem_of_app. by left.
    + intros [= <-] f Hf. by apply elem_of_nil in Hf.
  - intros [= <-] f Hf. by apply list_elem_of_filter in Hf as [_ Hf].
Qed.

Lemma scan_errs_nil p bakDir l ls errs sh ls' sh' :
  smb.scan p bakDir l ls errs sh = (ls', [], sh') → errs = [].
Proof.
  revert ls errs sh. induction l as [|file rest IH]; intros ls errs sh Hrun;
    simpl in Hrun.
  - by injection Hrun as _ -> _.
  - destruct (IsSymlink file); [|by eapply IH].
    destruct (share.Readlink _ sh) as [[err|link] sh1] eqn:Hread; [|by eapply IH].
    apply IH in Hrun. apply Readlink_error_plain in Hread.
    by apply plain_Append_ne in Hrun.
Qed.

Lemma collect_errs_nil `{Runtime} s ofsPart safety periods ls errs sh ls' sh' :
  smb.collect s ofsPart safety periods ls errs sh = (Returned (inr (ls', [])), sh') →
  errs = [].
Proof.
  revert ls errs sh. induction periods as [|p ps IH]; intros ls errs sh Hrun;
    simpl in Hrun.
  - by injection Hrun as _ -> _.
  - destruct (GetRetention p (smb.retention s)) as [rc rd].
    destruct (_ && _); [by eapply IH|].
    destruct (share.ReadDir _ sh) as [[e|files] sh0].
    { destruct (IsNotExist e); [by eapply IH|done]. }
    destruct (smb.scan _ _ _ _ _ _) as [[ls1 errs1] sh2] eqn:Hscan.
    destruct (smb.outdated _ _ _ _ _) as [old|]; [|done].
    apply IH in Hrun. subst errs1. by eapply scan_errs_nil.
Qed.

Lemma collect_pointers `{Runtime} s ofsPart safety periods ls errs sh ls' sh' :
  smb.collect s ofsPart safety periods ls errs sh = (Returned (inr (ls', [])), sh') →
  pointers_valid ls → pointers_valid ls'.
Proof.
  revert ls errs sh. induction periods as [|p ps IH]; intros ls errs sh Hrun Hval;
    simpl in Hrun.
  - by injection Hrun as <- _ _.
  - destruct (GetRetention p (smb.retention s)) as [rc rd].
    destruct (_ && _); [by eapply IH|].
    destruct (share.ReadDir _ sh) as [[e|files] sh0].
    { destruct (IsNotExist e); [by eapply IH|done]. }
    destruct (smb.scan _ _ _ _ _ _) as [[ls1 errs1] sh2] eqn:Hscan.
    destruct (smb.outdated _ _ _ _ _) as [old|] eqn:Hold; [|done].
    assert (Herrs1 : errs1 = []) by (by eapply collect_errs_nil).
    subst errs1. destruct Hval as [Hv1 Hv2].
    apply scan_pointers in Hscan as (Hv & Hdel & Hlen & Hkeep & Hnil); [|done].
    destruct (Hnil eq_refl) as [_ Hall].
    eapply IH; [exact Hrun|]. apply mark_pointers.
    + split; [done|]. rewrite Hdel. intros k q Hk.
      destruct (Hv2 k q Hk) as (i & -> & Hi). exists i. split; [done|lia].
    + intros f Hf. apply Hall. by eapply outdated_among.
Qed.

Lemma reconcile_returns ls todo errs sh :
  (∀ file p, (file, p) ∈ todo → ∃ i, p = Some i ∧ (i < length (smb.cells ls))%nat) →
  ∃ errs' sh', smb.reconcile ls todo errs sh = (Returned errs', sh').
Proof.
  revert errs sh. induction todo as [|[file ptr] todo IH]; intros errs sh Hok; simpl.
  - by eexists _, _.
  - destruct (Hok file ptr) as (i & -> & Hi); [by left|].
    apply lookup_lt_is_Some in Hi as [fl Hfl].
    unfold smb.reconcile_one. simpl. rewrite Hfl.
    destruct (smb.weekly ls file fl errs sh) as [st1 sh1].
    destruct (smb.flow st1); [|by eexists _, _].
    destruct (smb.daily ls file fl st1 sh1) as [st2 sh2].
    destruct (smb.unlink file st2 sh2) as [st3 sh3].
    apply IH. intros f p Hin. apply (Hok f p). by right.
Qed.

(** X8.  The last loop reads the links of a candidate through its pointer.
    When the scan of the buckets ended without an error noted (no
    [Readlink] failed), no pointer of the deletion map is nil and the loop
    returns: a nil pointer there comes from a symlink whose [Readlink]
    failed and nowhere else. *)
Theorem links_resolved_when_scan_met_no_error `{Runtime} (s : smb.SMB)
    (ofsPart : string) (safety : bool) (sh sh1 : Share) (ls : smb.Links) :
  smb.collect s ofsPart safety RetentionPeriodsList smb.no_links [] sh
  = (Returned (inr (ls, [])), sh1) →
  pointers_valid ls
  ∧ ∃ r sh2, smb.deleteDescBackup s ofsPart safety sh = (Returned r, sh2).
Proof.
  intros Hscan.
  assert (Hval : pointers_valid ls).
  { eapply collect_pointers; [exact Hscan|]. split; simpl; intros k i Hk;
      by rewrite lookup_empty in Hk. }
  split; [done|]. unfold smb.deleteDescBackup. rewrite Hscan.
  destruct (reconcile_returns ls (range_map (smb.filesToDeleteMap ls)) [] sh1)
    as (errs' & sh2 & ->); [|by eexists _, _].
  intros file p Hin. rewrite range_map_perm in Hin.
  apply elem_of_map_to_list in Hin. by eapply (proj2 Hval).
Qed.

Lemma links_resolved_when_scan_met_no_error_witness :
  ∃ r sh2, smb.deleteDescBackup (H := stable_runtime) monthly_one "db" false
             (reliable both_links) = (Returned r, sh2).
Proof.
  refine (proj2 (links_resolved_when_scan_met_no_error (H := stable_runtime)
                   monthly_one "db" false (reliable both_links)
                   (smb.collect (H := stable_runtime) monthly_one "db" false
                      RetentionPeriodsList smb.no_links [] (reliable both_links)).2
                   match (smb.collect (H := stable_runtime) monthly_one "db" false
                            RetentionPeriodsList smb.no_links [] (reliable both_links)).1
                   with
                   | Returned (inr (ls, _)) => ls
                   | _ => smb.no_links
                   end _)).
  vm_compute. reflexivity.
Defined.

(** The hypothesis is needed: a weekly symlink that is outdated and whose
    [Readlink] the transport drops is marked with a nil pointer, and the
    last loop panics on it. *)
Example failed_Readlink_leaves_nil_link :
  (smb.deleteDescBackup (H := stable_runtime) (nas (count_retention 1 1 5)) "db" false
     (drops 2 both_links)).1 = Panicked.
Proof. vm_compute. reflexivity. Qed.

Lemma scan_nodes p bakDir l ls errs sh :
  nodes (smb.scan p bakDir l ls errs sh).2 = nodes sh.
Proof.
  revert ls errs sh. induction l as [|file rest IH]; intros ls errs sh; simpl; [done|].
  destruct (IsSymlink file); [|apply IH].
  assert (Hn : nodes (share.Readlink (path.Join [bakDir; Name file]) sh).2 = nodes sh).
  { unfold share.Readlink. destruct (faults sh (calls sh)); [done|].
    by destruct (share.lookup _ _) as [[]|]. }
  destruct (share.Readlink _ sh) as [[err|link] sh1]; simpl in Hn; by rewrite IH.
Qed.

Lemma entries_length dir t : (length (share.entries dir t) <= length t)%nat.
Proof.
  unfold share.entries. induction t as [|e t IH]; csimpl; [done|].
  destruct (_ && _); simpl; lia.
Qed.

Lemma ReadDir_listing dir sh files sh1 :
  share.ReadDir dir sh = (inr files, sh1) →
  nodes sh1 = nodes sh ∧ (length files <= length (nodes sh))%nat.
Proof.
  unfold share.ReadDir. destruct (faults sh (calls sh)); [done|].
  destruct (share.lookup dir (nodes sh)) as [[]|]; try done.
  intros [= <- <-]. split; [done|]. apply entries_length.
Qed.

Lemma collect_returns `{Runtime} s ofsPart safety periods ls errs sh :
  counts_positive (smb.retention s) →
  Z.of_nat (length (nodes sh)) <= strconv.maxInt →
  ∃ r sh', smb.collect s ofsPart safety periods ls errs sh = (Returned r, sh').
Proof.
  intros Hpos. revert ls errs sh.
  induction periods as [|p ps IH]; intros ls errs sh Hsize; simpl; [by eexists _, _|].
  unfold GetRetention. destruct (bucket (smb.retention s) p) as [rc rd] eqn:Hb.
  destruct (_ && _) eqn:Hused; [by apply IH|].
  destruct (share.ReadDir _ sh) as [[e|files] sh0] eqn:Hread.
  - assert (Hn : nodes sh0 = nodes sh).
    { pose proof (ReadDir_nodes (path.Join [smb.backupPath s; ofsPart; period_String p]) sh)
        as [Hn _]. by rewrite Hread in Hn. }
    destruct (IsNotExist e); [apply IH; by rewrite Hn|by eexists _, _].
  - apply ReadDir_listing in Hread as [Hn Hlen].
    pose proof (scan_nodes p (path.Join [smb.backupPath s; ofsPart; period_String p])
                  files ls errs sh0) as Hsn.
    destruct (smb.scan _ _ _ _ _ _) as [[ls1 errs1] sh2]. simpl in Hsn.
    assert (Hold : ∃ old, smb.outdated (UseCount (smb.retention s)) safety rc rd files
                          = Returned old).
    { destruct (UseCount (smb.retention s)) eqn:Hmode; [|by eexists].
      destruct (Hpos Hmode p) as [Hzero|Hrc]; rewrite Hb in *.
      - injection Hzero as -> ->. done.
      - simpl in Hrc. rewrite outdated_count; [by eexists|done|lia]. }
    destruct Hold as [old ->]. apply IH. by rewrite Hsn, Hn.
Qed.

(** X9.  The scan of the buckets computes its slice bound from the count to
    keep.  By age, and by count when the count of every bucket in use is
    positive, the bound stays within the listing and the scan returns;
    the share is taken to hold fewer than 2^63 entries. *)
Theorem bucket_scan_returns `{Runtime} (s : smb.SMB) (ofsPart : string) (safety : bool)
    (sh : Share) :
  counts_positive (smb.retention s) →
  Z.of_nat (length (nodes sh)) <= strconv.maxInt →
  ∃ r sh', smb.collect s ofsPart safety RetentionPeriodsList smb.no_links [] sh
           = (Returned r, sh').
Proof. apply collect_returns. Qed.

Lemma bucket_scan_returns_witness :
  ∃ r sh', smb.collect (H := stable_runtime) monthly_one "db" false RetentionPeriodsList
             smb.no_links [] (reliable both_links) = (Returned r, sh').
Proof.
  apply (bucket_scan_returns (H := stable_runtime) monthly_one "db" false
           (reliable both_links)).
  - intros _ []; vm_compute; auto; right; split; discriminate.
  - vm_compute. discriminate.
Defined.

(** ** What the calls leave on the share *)

Lemma lookup_remove p q t :
  share.lookup q (share.remove p t) = if decide (q = p) then None else share.lookup q t.
Proof.
  unfold share.remove, Tree. induction t as [|[k n] t IH]; [simpl; by destruct (decide _)|].
  rewrite filter_cons. simpl. destruct (decide (k ≠ p)) as [Hk|Hk]; simpl.
  - rewrite IH. destruct (String.eqb_spec k q) as [->|Hkq]; [|done].
    by rewrite decide_False.
  - apply dec_stable in Hk. subst k. rewrite IH.
    destruct (decide (q = p)) as [->|Hq]; [done|].
    destruct (String.eqb_spec p q) as [->|]; done.
Qed.

Lemma lookup_remove_tree p q t :
  share.lookup q (share.remove_tree p t)
  = if decide (q ≠ p ∧ share.below p q = false) then share.lookup q t else None.
Proof.
  unfold share.remove_tree, Tree. induction t as [|[k n] t IH]; [simpl; by destruct (decide _)|].
  rewrite filter_cons. simpl.
  destruct (decide (k ≠ p ∧ share.below p k = false)) as [Hk|Hk]; simpl.
  - rewrite IH. destruct (String.eqb_spec k q) as [->|Hkq]; [|done].
    by destruct (decide _).
  - rewrite IH. destruct (String.eqb_spec k q) as [->|Hkq]; [|done].
    by destruct (decide _).
Qed.

Lemma lookup_app_Some q n t t' :
  share.lookup q t = Some n → share.lookup q (t ++ t') = Some n.
Proof.
  induction t as [|[k m] t IH]; simpl; [done|]. by destruct (String.eqb k q).
Qed.

Lemma lookup_app_None q t t' :
  share.lookup q t = None → share.lookup q (t ++ t') = share.lookup q t'.
Proof.
  induction t as [|[k m] t IH]; simpl; [done|]. by destruct (String.eqb k q).
Qed.

Lemma lookup_replace p v q t :
  share.lookup q (map (fun e => if String.eqb e.1 p then (p, v) else e) t)
  = if decide (q = p) then (fun _ => v) <$> share.lookup p t else share.lookup q t.
Proof.
  induction t as [|[k m] t IH]; simpl; [by destruct (decide _)|].
  destruct (String.eqb_spec k p) as [->|Hkp]; simpl.
  - destruct (String.eqb_spec p q) as [<-|Hpq].
    + by destruct (decide (p = p)).
    + rewrite IH. destruct (decide (q = p)); [by subst|done].
  - rewrite IH. destruct (decide (q = p)) as [->|Hq]; [|done].
    by destruct (String.eqb_spec k p).
Qed.

Lemma lookup_replace_eq p v t :
  share.lookup p (map (fun e => if String.eqb e.1 p then (p, v) else e) t)
  = (fun _ => v) <$> share.lookup p t.
Proof. rewrite lookup_replace. by destruct (decide _). Qed.

Lemma lookup_replace_ne p v q t :
  q ≠ p →
  share.lookup q (map (fun e => if String.eqb e.1 p then (p, v) else e) t)
  = share.lookup q t.
Proof. intros Hq. rewrite lookup_replace. by destruct (decide _). Qed.

Lemma mutate_done m sh sh' :
  share.mutate m sh = (None, sh') →
  share.apply (srvTime sh) m (nodes sh) = inr (nodes sh') ∧ srvTime sh' = srvTime sh.
Proof.
  unfold share.mutate. destruct (faults sh (calls sh)); [done|].
  destruct (share.apply _ _ _); [done|]. by intros [= <-].
Qed.

Lemma mutate_failed m sh e sh' :
  share.mutate m sh = (Some e, sh') → nodes sh' = nodes sh ∧ srvTime sh' = srvTime sh.
Proof.
  unfold share.mutate. destruct (faults sh (calls sh)); [by intros [= _ <-]|].
  destruct (share.apply _ _ _); [by intros [= _ <-]|done].
Qed.

Lemma mkdirs_keep now dirs t q n :
  share.lookup q t = Some n → share.lookup q (fold_left (share.mkdir now) dirs t) = Some n.
Proof.
  revert t. induction dirs as [|d dirs IH]; intros t Hq; simpl; [done|].
  apply IH. unfold share.mkdir. destruct (share.lookup d t); [done|].
  by apply lookup_app_Some.
Qed.

(** Making directories or a symlink leaves every entry that is on the
    share as it is. *)
Lemma MkdirAll_keeps p sh sh' q n :
  share.MkdirAll p sh = (None, sh') →
  share.lookup q (nodes sh) = Some n → share.lookup q (nodes sh') = Some n.
Proof.
  intros [Hdone _]%mutate_done Hq. simpl in Hdone.
  destruct (find _ _); [done|]. injection Hdone as <-. by apply mkdirs_keep.
Qed.

Lemma Symlink_done target p sh sh' :
  share.Symlink target p sh = (None, sh') →
  share.lookup p (nodes sh') = Some (Link (srvTime sh) target)
  ∧ ∀ q n, share.lookup q (nodes sh) = Some n → share.lookup q (nodes sh') = Some n.
Proof.
  intros [Hdone _]%mutate_done. simpl in Hdone.
  destruct (share.lookup p (nodes sh)) eqn:Hp; [done|]. injection Hdone as <-. split.
  - rewrite lookup_app_None by done. simpl. by rewrite String.eqb_refl.
  - intros q n Hq. by apply lookup_app_Some.
Qed.

Lemma Create_done p sh sh' :
  share.mutate (Create_ p) sh = (None, sh') →
  share.lookup p (nodes sh') = Some (File (srvTime sh) "")
  ∧ ∀ q, q ≠ p → share.lookup q (nodes sh') = share.lookup q (nodes sh).
Proof.
  intros [Hdone _]%mutate_done. simpl in Hdone.
  destruct (share.lookup p (nodes sh)) as [[]|] eqn:Hp; try done; injection Hdone as <-.
  - split; [by rewrite lookup_replace_eq, Hp|intros q Hq; by rewrite lookup_replace_ne].
  - split; [by rewrite lookup_replace_eq, Hp|intros q Hq; by rewrite lookup_replace_ne].
  - split.
    + rewrite lookup_app_None by done. simpl. by rewrite String.eqb_refl.
    + intros q Hq. destruct (share.lookup q (nodes sh)) eqn:Hl.
      * by apply lookup_app_Some.
      * rewrite lookup_app_None by done. simpl.
        destruct (String.eqb_spec p q); [by subst|done].
Qed.

Lemma Write_done p data sh sh' :
  share.mutate (Write_ p data) sh = (None, sh') →
  ∃ t old, share.lookup p (nodes sh) = Some (File t old)
           ∧ share.lookup p (nodes sh') = Some (File (srvTime sh) (old +:+ data))
           ∧ ∀ q, q ≠ p → share.lookup q (nodes sh') = share.lookup q (nodes sh).
Proof.
  intros [Hdone _]%mutate_done. simpl in Hdone.
  destruct (share.lookup p (nodes sh)) as [[t old| |]|] eqn:Hp; try done.
  injection Hdone as <-. exists t, old. split; [done|].
  split; [by rewrite lookup_replace_eq, Hp|intros q Hq; by rewrite lookup_replace_ne].
Qed.

Lemma copy_done local srcPath dstPath sh sh' :
  smb.copy local srcPath dstPath sh = (None, sh') →
  srvTime sh' = srvTime sh
  ∧ ∃ data, local !! srcPath = Some data
            ∧ share.lookup dstPath (nodes sh') = Some (File (srvTime sh) data).
Proof.
  unfold smb.copy.
  destruct (share.MkdirAll _ sh) as [[e1|] sh1] eqn:H1; [done|].
  destruct (share.mutate (Create_ dstPath) sh1) as [[e2|] sh2] eqn:H2; [done|].
  destruct (local !! srcPath) as [data|]; [|done]. intros H3.
  apply mutate_done in H1 as [_ Ht1].
  pose proof (mutate_done _ _ _ H2) as [_ Ht2].
  pose proof (mutate_done _ _ _ H3) as [_ Ht3].
  apply Create_done in H2 as [Hnew _].
  apply Write_done in H3 as (t & old & Hold & Hfile & _).
  rewrite Hnew in Hold. injection Hold as <- <-.
  split; [congruence|]. exists data. split; [done|].
  rewrite Hfile. simpl. by rewrite Ht2, Ht1.
Qed.

(** X10.  [copy] truncates its destination: after a successful call the
    destination is a file that holds the bytes of the local source and
    nothing else, whatever file was there before. *)
Theorem copy_leaves_the_source_bytes (local : gmap string string)
    (srcPath dstPath : string) (sh sh' : Share) :
  smb.copy local srcPath dstPath sh = (None, sh') →
  ∃ data, local !! srcPath = Some data
          ∧ share.lookup dstPath (nodes sh') = Some (File (srvTime sh) data).
Proof. intros Hrun. by apply copy_done in Hrun as [_ Hfile]. Qed.

Lemma copy_leaves_the_source_bytes_witness :
  ∃ data, tmp_incremental !! "/tmp/srv/init.tar" = Some data
          ∧ share.lookup "backups/db/monthly/a.tar"
              (nodes (smb.copy tmp_incremental "/tmp/srv/init.tar"
                        "backups/db/monthly/a.tar" (reliable three_monthly)).2)
            = Some (File (srvTime (reliable three_monthly)) data).
Proof.
  apply (copy_leaves_the_source_bytes tmp_incremental "/tmp/srv/init.tar"
           "backups/db/monthly/a.tar" (reliable three_monthly)).
  vm_compute. reflexivity.
Defined.

Lemma make_links_done todo sh sh' :
  smb.make_links todo sh = (None, sh') →
  srvTime sh' = srvTime sh
  ∧ (∀ q n, share.lookup q (nodes sh) = Some n → share.lookup q (nodes sh') = Some n)
  ∧ ∀ dst src, (dst, src) ∈ todo →
               share.lookup dst (nodes sh') = Some (Link (srvTime sh) src).
Proof.
  revert sh. induction todo as [|[d s] todo IH]; intros sh Hrun; simpl in Hrun.
  - injection Hrun as <-. split; [done|]. split; [done|].
    intros dst src Hin. by apply elem_of_nil in Hin.
  - destruct (share.MkdirAll _ sh) as [[e1|] sh1] eqn:H1; [done|].
    destruct (share.Symlink s d sh1) as [[e2|] sh2] eqn:H2; [done|].
    pose proof (mutate_done _ _ _ H1) as [_ Ht1].
    pose proof (mutate_done _ _ _ H2) as [_ Ht2].
    apply Symlink_done in H2 as [Hlink Hkeep2].
    destruct (IH _ Hrun) as (Ht & Hkeep & Hlinks).
    split; [congruence|]. split.
    + intros q n Hq. apply Hkeep, Hkeep2. by eapply MkdirAll_keeps.
    + intros dst src Hin. apply elem_of_cons in Hin as [[= -> ->]|Hin].
      * apply Hkeep. by rewrite Hlink, Ht1.
      * rewrite (Hlinks _ _ Hin). by rewrite Ht2, Ht1.
Qed.

(** X11.  After a delivery that returned nil, the destination of the artifact
    holds the bytes of the temporary file (for an incremental backup too,
    whose sidecar was written there first), and every symlink that the
    resolver asked for is on the share and points to its source. *)
Theorem delivered_artifact_is_the_temp_file `{Runtime} `{smb.Resolvers}
    (local : gmap string string) (s : smb.SMB) (tmpBackupFile ofs bakType : string)
    (sh sh' : Share) :
  smb.DeliveryBackup local s tmpBackupFile ofs bakType sh = (None, sh') →
  let r := resolved s tmpBackupFile ofs bakType in
  (∃ data, local !! tmpBackupFile = Some data
           ∧ share.lookup (smb.bakDstPath r) (nodes sh') = Some (File (srvTime sh) data))
  ∧ ∀ dst src, smb.links r !! dst = Some src →
               share.lookup dst (nodes sh') = Some (Link (srvTime sh) src).
Proof.
  intros Hrun r. unfold smb.DeliveryBackup in Hrun.
  change (if String.eqb bakType IncFiles then _ else _) with r in Hrun.
  destruct (smb.resolve_err r); [done|].
  assert (Hmeta : ∀ sh1,
    (if negb (String.eqb (smb.mtdDstPath r) "")
     then smb.copy local (tmpBackupFile +:+ ".inc") (smb.bakDstPath r) sh
     else (None, sh)) = (None, sh1) → srvTime sh1 = srvTime sh).
  { intros sh1. destruct (negb _); [|by intros [= <-]].
    by intros [Ht _]%copy_done. }
  destruct (if negb (String.eqb (smb.mtdDstPath r) "") then _ else _) as [[e1|] sh1];
    [done|].
  specialize (Hmeta sh1 eq_refl).
  destruct (smb.copy local tmpBackupFile (smb.bakDstPath r) sh1) as [[e2|] sh2] eqn:H2;
    [done|].
  apply copy_done in H2 as (Ht2 & data & Hdata & Hfile).
  apply make_links_done in Hrun as (Ht3 & Hkeep & Hlinks).
  split.
  - exists data. split; [done|]. rewrite (Hkeep _ _ Hfile). by rewrite Hmeta.
  - intros dst src Hin. rewrite (Hlinks dst src).
    + by rewrite Ht2, Hmeta.
    + rewrite range_map_perm. by apply elem_of_map_to_list.
Qed.

Lemma delivered_artifact_is_the_temp_file_witness :
  let sh' := (smb.DeliveryBackup (H := stable_runtime) (H0 := dated_resolvers)
                tmp_incremental (nas (count_retention 1 1 1))
                "/tmp/srv/init.tar" "srv" IncFiles (reliable [])).2 in
  let r := resolved (H := dated_resolvers) (nas (count_retention 1 1 1))
             "/tmp/srv/init.tar" "srv" IncFiles in
  (∃ data, tmp_incremental !! "/tmp/srv/init.tar" = Some data
           ∧ share.lookup (smb.bakDstPath r) (nodes sh')
             = Some (File (srvTime (reliable [])) data))
  ∧ ∀ dst src, smb.links r !! dst = Some src →
               share.lookup dst (nodes sh') = Some (Link (srvTime (reliable [])) src).
Proof.
  apply (delivered_artifact_is_the_temp_file (H := stable_runtime) (H0 := dated_resolvers)
           tmp_incremental (nas (count_retention 1 1 1))
           "/tmp/srv/init.tar" "srv" IncFiles (reliable [])).
  vm_compute. reflexivity.
Defined.

(** ** Fail-fast delivery *)

Lemma failed_one e : failed [e] = if ev_ok e then 0%nat else 1%nat.
Proof. unfold failed. rewrite filter_cons. by destruct e as [m []]. Qed.

Lemma stops_nil : stops_at_failure [].
Proof. done. Qed.

Lemma stops_one e : stops_at_failure [e].
Proof. done. Qed.

Lemma stops_app g1 g2 :
  failed g1 = 0%nat → stops_at_failure g2 → stops_at_failure (g1 ++ g2).
Proof.
  unfold stops_at_failure. intros H1 H2. destruct g2 as [|e g2].
  - rewrite app_nil_r. destruct g1 as [|e g1] using rev_ind; [done|].
    rewrite removelast_last. rewrite failed_app in H1. lia.
  - rewrite removelast_app by done. rewrite failed_app. lia.
Qed.

Lemma mutate_outcome m sh :
  ∃ e, journal (share.mutate m sh).2 = journal sh ++ [e]
       ∧ ((share.mutate m sh).1 = None → ev_ok e = true).
Proof.
  destruct (mutate_report m sh) as (ok & Hj & Hres). exists {| ev_call := m; ev_ok := ok |}.
  split; [done|]. intros Hnone. rewrite Hnone in Hres. done.
Qed.

Lemma copy_stops local srcPath dstPath sh :
  ∃ g, journal (smb.copy local srcPath dstPath sh).2 = journal sh ++ g
       ∧ stops_at_failure g
       ∧ ((smb.copy local srcPath dstPath sh).1 = None → failed g = 0%nat).
Proof.
  unfold smb.copy, share.MkdirAll.
  destruct (mutate_outcome (MkdirAll_ (path.Dir dstPath)) sh) as (e1 & Hj1 & Hok1).
  destruct (share.mutate (MkdirAll_ (path.Dir dstPath)) sh) as [[err1|] sh1];
    simpl in Hj1, Hok1.
  { exists [e1]. by repeat split. }
  destruct (mutate_outcome (Create_ dstPath) sh1) as (e2 & Hj2 & Hok2).
  destruct (share.mutate (Create_ dstPath) sh1) as [[err2|] sh2]; simpl in Hj2, Hok2.
  { exists [e1; e2]. simpl. rewrite Hj2, Hj1, <- app_assoc. split; [done|].
    split; [|done]. apply (stops_app [e1] [e2]); [|done].
    rewrite failed_one. by rewrite Hok1. }
  assert (H12 : failed [e1; e2] = 0%nat).
  { change [e1; e2] with ([e1] ++ [e2]). rewrite failed_app, !failed_one.
    by rewrite Hok1, Hok2. }
  destruct (local !! srcPath) as [data|]; simpl.
  - destruct (mutate_outcome (Write_ dstPath data) sh2) as (e3 & Hj3 & Hok3).
    exists ([e1; e2] ++ [e3]). rewrite Hj3, Hj2, Hj1, <- !app_assoc. split; [done|].
    split; [by apply stops_app|]. intros Hnone. rewrite failed_app, failed_one.
    rewrite (Hok3 Hnone). lia.
  - exists [e1; e2]. rewrite Hj2, Hj1, <- app_assoc. split; [done|].
    split; [|done]. unfold stops_at_failure. simpl. rewrite failed_one. by rewrite Hok1.
Qed.

Lemma make_links_stops todo sh :
  ∃ g, journal (smb.make_links todo sh).2 = journal sh ++ g
       ∧ stops_at_failure g
       ∧ ((smb.make_links todo sh).1 = None → failed g = 0%nat).
Proof.
  revert sh. induction todo as [|[d s] todo IH]; intros sh; simpl.
  - exists []. by rewrite app_nil_r.
  - unfold share.MkdirAll, share.Symlink.
    destruct (mutate_outcome (MkdirAll_ (path.Dir d)) sh) as (e1 & Hj1 & Hok1).
    destruct (share.mutate (MkdirAll_ (path.Dir d)) sh) as [[err1|] sh1];
      simpl in Hj1, Hok1.
    { exists [e1]. by repeat split. }
    destruct (mutate_outcome (Symlink_ s d) sh1) as (e2 & Hj2 & Hok2).
    destruct (share.mutate (Symlink_ s d) sh1) as [[err2|] sh2]; simpl in Hj2, Hok2.
    { exists [e1; e2]. simpl. rewrite Hj2, Hj1, <- app_assoc. split; [done|].
      split; [|done]. apply (stops_app [e1] [e2]); [|done].
      rewrite failed_one. by rewrite Hok1. }
    assert (H12 : failed [e1; e2] = 0%nat).
    { change [e1; e2] with ([e1] ++ [e2]). rewrite failed_app, !failed_one.
    by rewrite Hok1, Hok2. }
    destruct (IH sh2) as (g & Hj & Hstop & Hnone).
    exists ([e1; e2] ++ g). rewrite Hj, Hj2, Hj1, <- !app_assoc. split; [done|].
    split; [by apply stops_app|]. intros Hn. rewrite failed_app, (Hnone Hn). lia.
Qed.

(** X12.  A delivery gives up at the first call that fails: of the calls it
    made, none but the last failed, and none at all when it returns
    nil.  When the resolver fails nothing is asked of the share. *)
Theorem delivery_stops_at_the_first_failure `{Runtime} `{smb.Resolvers}
    (local : gmap string string) (s : smb.SMB) (tmpBackupFile ofs bakType : string)
    (sh : Share) :
  let run := smb.DeliveryBackup local s tmpBackupFile ofs bakType sh in
  ∃ g, journal run.2 = journal sh ++ g
       ∧ stops_at_failure g
       ∧ (run.1 = None → failed g = 0%nat)
       ∧ (is_Some (smb.resolve_err (resolved s tmpBackupFile ofs bakType)) → g = []).
Proof.
  unfold smb.DeliveryBackup. fold (resolved s tmpBackupFile ofs bakType).
  set (r := resolved s tmpBackupFile ofs bakType). simpl.
  destruct (smb.resolve_err r) as [err|] eqn:Herr.
  { exists []. simpl. by rewrite app_nil_r. }
  assert (Hmeta : ∃ g, journal ((if negb (String.eqb (smb.mtdDstPath r) "")
                               then smb.copy local (tmpBackupFile +:+ ".inc") (smb.bakDstPath r) sh
                               else (None, sh)).2) = journal sh ++ g
              ∧ stops_at_failure g
              ∧ ((if negb (String.eqb (smb.mtdDstPath r) "")
                  then smb.copy local (tmpBackupFile +:+ ".inc") (smb.bakDstPath r) sh
                  else (None, sh)).1 = None → failed g = 0%nat)).
  { destruct (negb _); [apply copy_stops|]. exists []. by rewrite app_nil_r. }
  destruct Hmeta as (g1 & H1 & Hs1 & Hn1).
  destruct (if negb (String.eqb (smb.mtdDstPath r) "") then _ else _) as [[e1|] sh1];
    simpl in H1, Hn1.
  { exists g1. repeat split; try done. all: by intros []. }
  specialize (Hn1 eq_refl).
  destruct (copy_stops local tmpBackupFile (smb.bakDstPath r) sh1) as (g2 & H2 & Hs2 & Hn2).
  destruct (smb.copy local tmpBackupFile (smb.bakDstPath r) sh1) as [[e2|] sh2];
    simpl in H2, Hn2.
  { exists (g1 ++ g2). simpl. rewrite H2, H1, <- app_assoc. split; [done|].
    split; [by apply stops_app|]. split; [done|]. by intros []. }
  specialize (Hn2 eq_refl).
  destruct (make_links_stops (range_map (smb.links r)) sh2) as (g3 & H3 & Hs3 & Hn3).
  exists (g1 ++ g2 ++ g3). rewrite H3, H2, H1, <- !app_assoc. split; [done|].
  split; [apply stops_app; [done|by apply stops_app]|].
  split; [|by intros []]. intros Hn. rewrite !failed_app, (Hn3 Hn). lia.
Qed.

(** ** Moves and wipes *)

Lemma append_eq_self s x : s +:+ x = s → x = "".
Proof. induction s as [|c s IH]; simpl; [done|]. intros [= Hs]. by apply IH. Qed.

Lemma below_suffix o q :
  share.below o q = true →
  String.substring (String.length o) (String.length q - String.length o) q ≠ "".
Proof.
  unfold share.below. revert q. induction o as [|c o IH]; intros q.
  - destruct q as [|c' q]; [done|]. intros _. simpl. done.
  - change (String c o +:+ "/") with (String c (o +:+ "/")).
    destruct q as [|c' q]; [done|]. simpl.
    destruct (Ascii.ascii_dec c c'); [|done]. apply IH.
Qed.

Lemma rekey_target o n q : q ≠ o → q ≠ n → share.rekey o n q ≠ n.
Proof.
  intros Hqo Hqn. unfold share.rekey.
  destruct (String.eqb_spec q o); [done|].
  destruct (share.below o q) eqn:Hbelow; [|done].
  intros Heq%append_eq_self. by apply below_suffix in Hbelow.
Qed.

Lemma lookup_rekey o n t v :
  share.lookup o t = Some v → share.lookup n t = None →
  share.lookup n (map (fun e => (share.rekey o n e.1, e.2)) t) = Some v.
Proof.
  induction t as [|[k m] t IH]; simpl; [done|].
  destruct (String.eqb_spec k n) as [->|Hkn]; [done|].
  destruct (String.eqb_spec k o) as [->|Hko].
  - intros [= <-] _. unfold share.rekey. by rewrite !String.eqb_refl.
  - intros Ho Hn. pose proof (rekey_target o n k Hko Hkn) as Hre.
    destruct (String.eqb_spec (share.rekey o n k) n); [done|]. by apply IH.
Qed.

(** X13.  A [moveFile] that returned nil has put the entry of [oldPath] in the
    place of the one it removed at [newPath]: a symlink to a backup
    becomes the backup itself. *)
Theorem moveFile_puts_the_file_in_place_of_the_link (oldPath newPath : string)
    (sh sh' : Share) :
  smb.moveFile oldPath newPath sh = (None, sh') →
  ∃ v, share.lookup oldPath (nodes sh) = Some v
       ∧ is_Some (share.lookup newPath (nodes sh))
       ∧ share.lookup newPath (nodes sh') = Some v.
Proof.
  unfold smb.moveFile, share.Remove, share.Rename.
  destruct (share.mutate (Remove_ newPath) sh) as [[e1|] sh1] eqn:H1; [done|].
  destruct (share.mutate (Rename_ oldPath newPath) sh1) as [[e2|] sh2] eqn:H2; [done|].
  intros [= <-]. apply mutate_done in H1 as [H1 _]. apply mutate_done in H2 as [H2 _].
  simpl in H1, H2.
  assert (Hrem : is_Some (share.lookup newPath (nodes sh))
                 ∧ nodes sh1 = share.remove newPath (nodes sh)).
  { destruct (share.lookup newPath (nodes sh)) as [[]|]; try done.
    - injection H1 as <-. by split; [eexists|].
    - injection H1 as <-. by split; [eexists|].
    - destruct (share.has_children _ _); [done|]. injection H1 as <-. by split; [eexists|]. }
  destruct Hrem as [Hthere Hsh1].
  destruct (share.lookup oldPath (nodes sh1)) as [v|] eqn:Hold; [|done].
  destruct (share.lookup newPath (nodes sh1)) eqn:Hnew; [done|].
  injection H2 as <-. exists v. split.
  - rewrite Hsh1, lookup_remove in Hold. by destruct (decide _).
  - split; [done|]. by apply lookup_rekey.
Qed.

Lemma moveFile_puts_the_file_in_place_of_the_link_witness :
  ∃ v, share.lookup "backups/db/monthly/a.tar" (nodes (reliable both_links)) = Some v
       ∧ is_Some (share.lookup "backups/db/weekly/a.tar" (nodes (reliable both_links)))
       ∧ share.lookup "backups/db/weekly/a.tar"
           (nodes (smb.moveFile "backups/db/monthly/a.tar" "backups/db/weekly/a.tar"
                     (reliable both_links)).2) = Some v.
Proof.
  apply (moveFile_puts_the_file_in_place_of_the_link "backups/db/monthly/a.tar"
           "backups/db/weekly/a.tar" (reliable both_links)).
  vm_compute. reflexivity.
Defined.

(** X14.  The rotation of a full incremental backup removes the directory of
    the target with everything below it and nothing else: when the call
    reaches the server it returns nil, no entry at or below the directory
    is left and every other entry is as before. *)
Theorem full_rotation_wipes_the_target (now : string → string) (s : smb.SMB)
    (ofsPart : string) (sh : Share) :
  faults sh (calls sh) = false →
  let backupDir := path.Join [smb.backupPath s; ofsPart] in
  ∃ sh', smb.deleteIncBackup now s ofsPart true sh = (Returned None, sh')
         ∧ ∀ q, share.lookup q (nodes sh')
                = if decide (q ≠ backupDir ∧ share.below backupDir q = false)
                  then share.lookup q (nodes sh) else None.
Proof.
  intros Hfine backupDir. unfold smb.deleteIncBackup, share.RemoveAll, share.mutate.
  fold backupDir. rewrite Hfine. simpl. eexists. split; [done|]. simpl.
  intros q. apply lookup_remove_tree.
Qed.

Lemma full_rotation_wipes_the_target_witness :
  ∃ sh', smb.deleteIncBackup march_2025 (nas (months_retention 1)) "srv" true
           (reliable two_years) = (Returned None, sh')
         ∧ ∀ q, share.lookup q (nodes sh')
                = if decide (q ≠ "backups/srv" ∧ share.below "backups/srv" q = false)
                  then share.lookup q (nodes (reliable two_years)) else None.
Proof.
  apply (full_rotation_wipes_the_target march_2025 (nas (months_retention 1)) "srv"
           (reliable two_years)).
  reflexivity.
Defined.

(** ** The commands of the two jobs *)

(** X15.  [createTmpBackup] of the psql_physical job on a host that logs
    its commands: [pg_basebackup] runs first; when it fails nothing
    else runs and its error is returned; [tar] runs next, from the
    directory that [pg_basebackup] wrote to into the temp file, and when
    it fails nothing else runs and its error is returned; only then is
    the directory removed and nil returned.  So a failed attempt leaves
    the directory behind. *)
Theorem basebackup_dir_is_removed_on_success_only (j : job psql_physical.target)
    (tmpBackupFile tgtName : string) (tgt : psql_physical.target) (w : Shell) :
  let dir := path.Join [path.Dir tmpBackupFile;
                        "pg_basebackup_" +:+ tgtName +:+ "_"
                        +:+ GetDateTimeNow logging "" w] in
  let dump := Ran "pg_basebackup" (psql_physical.basebackup_args j dir tgt) in
  let tar := Tarred {| targz.Src := dir; targz.Dst := tmpBackupFile;
                       targz.Incremental := false;
                       targz.Gzip := psql_physical.gzip tgt;
                       targz.SaveAbsPath := false; targz.RateLim := diskRateLimit j;
                       targz.Excludes := [] |} in
  let n := length (history w) in
  let run := psql_physical.createTmpBackup logging j tmpBackupFile tgtName tgt w in
  (run.1, history run.2)
  = if failing w n then (Some (ErrCmd "pg_basebackup"), history w ++ [dump])
    else if failing w (S n) then (Some (ErrCmd "tar"), history w ++ [dump; tar])
    else (None, history w ++ [dump; tar; Removed dir]).
Proof.
  intros dir dump tar n. unfold psql_physical.createTmpBackup. fold dir. simpl.
  unfold logged_as. simpl. fold n. destruct (failing w n); [done|].
  rewrite length_app. simpl.
  replace (length (history w) + 1)%nat with (S n) by (unfold n; lia).
  destruct (failing w (S n)); simpl; by rewrite <- ?app_assoc.
Qed.

Lemma dump_collections_log args cols (w : Shell) :
  let n := length (history w) in
  let dumps := fmap (fun col => Ran "mongodump" (args ++ ["--collection=" +:+ col])) in
  let run := mongodump.dump_collections logging args cols w in
  failing run.2 = failing w
  ∧ ((∃ k, (k < length cols)%nat
           ∧ (∀ i, (i < k)%nat → failing w (n + i) = false)
           ∧ failing w (n + k) = true
           ∧ run.1 = Some (ErrCmd "mongodump")
           ∧ history run.2 = history w ++ dumps (take (S k) cols))
     ∨ ((∀ i, (i < length cols)%nat → failing w (n + i) = false)
        ∧ run.1 = None
        ∧ history run.2 = history w ++ dumps cols)).
Proof.
  revert w. induction cols as [|col cols IH]; intros w; simpl.
  - split; [done|]. right. split; [intros i Hi; lia|]. by rewrite app_nil_r.
  - unfold logged_as. destruct (failing w (length (history w))) eqn:Hfail; simpl.
    + split; [done|]. left. exists 0%nat. split; [lia|]. split; [intros i Hi; lia|].
      rewrite Nat.add_0_r. split; [done|]. split; [done|]. by rewrite take_0.
    + destruct (IH {| failing := failing w;
                      history := history w ++ [Ran "mongodump" (args ++ ["--collection=" +:+ col])] |})
        as (Hf & Hcases). simpl in *. rewrite length_app in Hcases. simpl in Hcases.
      split; [done|].
      assert (Hshift : ∀ m, (∀ i, (i < m)%nat → failing w (length (history w) + 1 + i) = false) →
                            ∀ i, (i < S m)%nat → failing w (length (history w) + i) = false).
      { intros m Hm [|i] Hi; [by rewrite Nat.add_0_r|].
        replace (length (history w) + S i)%nat with (length (history w) + 1 + i)%nat by lia.
        apply Hm. lia. }
      destruct Hcases as [(k & Hk & Hok & Hbad & Hres & Hh)|(Hok & Hres & Hh)].
      * left. exists (S k). split; [lia|]. split; [by apply Hshift|].
        replace (length (history w) + S k)%nat with (length (history w) + 1 + k)%nat by lia.
        split; [done|]. split; [done|]. by rewrite Hh, <- app_assoc.
      * right. split; [by apply Hshift|]. split; [done|]. by rewrite Hh, <- app_assoc.
Qed.

(** X16.  [createTmpBackup] of the mongodump job on a host that logs its
    commands: one [mongodump] runs for each collection of the target, in
    their order, each with the shared arguments followed by
    [--collection=<name>]; the first that fails is the last one run, no
    [tar] follows it and its error is returned; when none fails, [tar]
    runs from the dump directory into the temp file and its result is
    returned.  Whatever happened, the last command is the removal of the
    dump directory. *)
Theorem mongodump_dir_is_always_removed (j : job mongodump.target)
    (tmpBackupFile : string) (tgt : mongodump.target) (w : Shell) :
  let dump := path.Join [path.Dir tmpBackupFile; "dump"] in
  let cols := mongodump.collections tgt in
  let dumps := fmap (fun col => Ran "mongodump"
                                  (mongodump.mongodump_args dump tgt
                                   ++ ["--collection=" +:+ col])) in
  let tar := Tarred {| targz.Src := dump; targz.Dst := tmpBackupFile;
                       targz.Incremental := false; targz.Gzip := mongodump.gzip tgt;
                       targz.SaveAbsPath := false; targz.RateLim := diskRateLimit j;
                       targz.Excludes := [] |} in
  let n := length (history w) in
  let run := mongodump.createTmpBackup logging j tmpBackupFile tgt w in
  (∃ k, (k < length cols)%nat
        ∧ (∀ i, (i < k)%nat → failing w (n + i) = false)
        ∧ failing w (n + k) = true
        ∧ run.1 = Some (ErrCmd "mongodump")
        ∧ history run.2 = history w ++ dumps (take (S k) cols) ++ [Removed dump])
  ∨ ((∀ i, (i < length cols)%nat → failing w (n + i) = false)
     ∧ run.1 = (if failing w (n + length cols) then Some (ErrCmd "tar") else None)
     ∧ history run.2 = history w ++ dumps cols ++ [tar; Removed dump]).
Proof.
  intros dump cols dumps tar n. unfold mongodump.createTmpBackup. fold dump.
  destruct (dump_collections_log (mongodump.mongodump_args dump tgt) cols w)
    as (Hf & Hcases). fold cols. fold n in Hcases.
  destruct (mongodump.dump_collections logging _ cols w) as [[err|] w1]; simpl in *.
  - destruct Hcases as [(k & Hk & Hok & Hbad & [= ->] & Hh)|(_ & [=] & _)].
    left. exists k. split; [done|]. split; [done|]. split; [done|]. split; [done|].
    by rewrite Hh, <- app_assoc.
  - destruct Hcases as [(k & _ & _ & _ & [=] & _)|(Hok & _ & Hh)].
    right. split; [done|]. unfold logged_as. rewrite Hf, Hh, length_app, length_fmap.
    fold n. destruct (failing w (n + length cols)); simpl;
      (split; [done|]; by rewrite <- !app_assoc).
Qed.

(** X17.  The command line of [pg_basebackup] is the extra keys of the
    target, [--dbname], [--pgdata] and [--format=plain], followed with a
    positive disk rate limit by one [--max-rate]: the limit in units of
    1000 bytes, raised to 32 when it is below and lowered to 1024000 when
    it is above; without a positive limit nothing follows. *)
Theorem max_rate_stays_in_range (j : job psql_physical.target)
    (tmpBasebackupPath : string) (tgt : psql_physical.target) :
  psql_physical.basebackup_args j tmpBasebackupPath tgt
  = psql_physical.extraKeys tgt
    ++ ["--dbname=" +:+ psql_physical.connUrl tgt;
        "--pgdata=" +:+ tmpBasebackupPath; "--format=plain"]
    ++ (if bool_decide (0 < diskRateLimit j)
        then ["--max-rate="
              +:+ pretty (Z.max 32 (Z.min 1024000 (Z.quot (diskRateLimit j) 1000)))]
        else []).
Proof.
  unfold psql_physical.basebackup_args, psql_physical.KB.
  assert (Hargs : (if (0 <? length (psql_physical.extraKeys tgt))%nat
                   then psql_physical.extraKeys tgt else [])
                  = psql_physical.extraKeys tgt).
  { by destruct (psql_physical.extraKeys tgt). }
  rewrite Hargs. destruct (Z.gtb_spec (diskRateLimit j) 0) as [Hpos|Hneg].
  - rewrite bool_decide_eq_true_2 by lia.
    assert (Hclamp : (if Z.quot (diskRateLimit j) 1000 <? 32 then 32
                      else if Z.quot (diskRateLimit j) 1000 >? 1024 * 1000 then 1024 * 1000
                           else Z.quot (diskRateLimit j) 1000)
                     = Z.max 32 (Z.min 1024000 (Z.quot (diskRateLimit j) 1000))).
    { destruct (Z.ltb_spec (Z.quot (diskRateLimit j) 1000) 32);
        [|destruct (Z.gtb_spec (Z.quot (diskRateLimit j) 1000) (1024 * 1000))]; lia. }
    rewrite Hclamp. by rewrite <- !app_assoc.
  - rewrite bool_decide_eq_false_2 by lia. by rewrite <- !app_assoc.
Qed.

(** ** The keys that [Init] refuses *)

Lemma match_here_lits sub s :
  regexp.match_here (regexp.lits sub) s = true ↔ ∃ post, s = sub +:+ post.
Proof.
  unfold regexp.lits. revert s. induction sub as [|c sub IH]; intros s; simpl.
  - split; [by exists s|done].
  - destruct s as [|c' s]; simpl.
    + split; [done|]. intros [post Hs].
      change (String c sub +:+ post) with (String c (sub +:+ post)) in Hs. done.
    + rewrite andb_true_iff, IH. split.
      * intros [Hc [post ->]]. apply Ascii.eqb_eq in Hc as ->. by exists post.
      * intros [post Hs].
        change (String c sub +:+ post) with (String c (sub +:+ post)) in Hs.
        injection Hs as -> ->. split; [apply Ascii.eqb_refl|by exists post].
Qed.

Lemma match_from_somewhere p s :
  regexp.match_from p s = true
  ↔ ∃ pre rest, s = pre +:+ rest ∧ regexp.match_here p rest = true.
Proof.
  induction s as [|c s IH]; simpl.
  - rewrite orb_false_r. split.
    + intros Hm. by exists "", "".
    + intros (pre & rest & Hs & Hm). destruct pre as [|c' pre].
      * change ("" +:+ rest) with rest in Hs. by subst rest.
      * change (String c' pre +:+ rest) with (String c' (pre +:+ rest)) in Hs. done.
  - rewrite orb_true_iff, IH. split.
    + intros [Hm|(pre & rest & -> & Hm)].
      * by exists "", (String c s).
      * by exists (String c pre), rest.
    + intros (pre & rest & Hs & Hm). destruct pre as [|c' pre].
      * change ("" +:+ rest) with rest in Hs. subst rest. by left.
      * change (String c' pre +:+ rest) with (String c' (pre +:+ rest)) in Hs.
        injection Hs as -> ->. right. by exists pre, rest.
Qed.

Lemma lits_somewhere sub s :
  regexp.match_from (regexp.lits sub) s = true ↔ has_infix sub s.
Proof.
  rewrite match_from_somewhere. unfold has_infix. split.
  - intros (pre & rest & -> & [post ->]%match_here_lits). by exists pre, post.
  - intros (pre & post & ->). exists pre, (sub +:+ post). split; [done|].
    apply match_here_lits. by exists post.
Qed.

(** X18.  The pattern of the forbidden keys is searched for anywhere in the
    key: a key is refused exactly when it holds [-D] or [--pgdata=]
    somewhere, at its start or not. *)
Theorem forbidden_keys_hold_the_option_somewhere (key : string) :
  psql_physical.forbidden key = true
  ↔ has_infix "-D" key ∨ has_infix "--pgdata=" key.
Proof.
  unfold psql_physical.forbidden, regexp.MatchString, psql_physical.rx_pgdata. simpl.
  rewrite orb_false_r, orb_true_iff, !lits_somewhere. done.
Qed.

(** ** What [Init] makes of the sources *)

Lemma Split_whole sep s : contains sep s = false → strings.Split s sep = [s].
Proof.
  induction s as [|c s IH]; simpl; [done|].
  intros [Hc Hs]%orb_false_iff. rewrite Hc. by rewrite IH.
Qed.

Lemma Split_at sep u d :
  contains sep u = false →
  strings.Split (u +:+ String sep d) sep = u :: strings.Split d sep.
Proof.
  induction u as [|c u IH].
  - intros _. change ("" +:+ String sep d) with (String sep d). simpl.
    by rewrite Ascii.eqb_refl.
  - change (String c u +:+ String sep d) with (String c (u +:+ String sep d)). simpl.
    intros [Hc Hu]%orb_false_iff. rewrite Hc. by rewrite IH.
Qed.

Lemma named_or_not (srcs : list psql_physical.SourceParams) ofs :
  (∃ src, src ∈ srcs ∧ psql_physical.Name src = ofs)
  ∨ (∀ src, src ∈ srcs → psql_physical.Name src ≠ ofs).
Proof.
  destruct (decide (Exists (fun s => psql_physical.Name s = ofs) srcs)) as [Hex|Hnot].
  - left. by apply Exists_exists.
  - right. intros src Hin Hname. apply Hnot, Exists_exists. by exists src.
Qed.

Lemma last_occurrence (srcs : list psql_physical.SourceParams) ofs :
  (∃ src, src ∈ srcs ∧ psql_physical.Name src = ofs) →
  ∃ src, last_named srcs src ∧ psql_physical.Name src = ofs.
Proof.
  induction srcs as [|s srcs IH]; intros (src & Hin & Hname).
  - by apply elem_of_nil in Hin.
  - destruct (named_or_not srcs ofs) as [Hlater|Hnot].
    + destruct (IH Hlater) as (src' & (pre & post & -> & Hpost) & Hname').
      exists src'. split; [|done]. by exists (s :: pre), post.
    + apply elem_of_cons in Hin as [->|Hin]; [|by destruct (Hnot src Hin)].
      exists s. split; [|done]. exists [], srcs. split; [done|].
      apply Forall_forall. intros s' Hs' Heq. apply (Hnot s' Hs'). congruence.
Qed.

Section Sources.
Context {W : Type} (x : Commands W) (c : psql_physical.Connect W).

Lemma init_sources_targets jp srcs (j0 : job psql_physical.target) w j e w' :
  psql_physical.init_sources c jp srcs j0 w = (Some j, e, w') →
  e = None ∧ dumpedObjects j = dumpedObjects j0
  ∧ (∀ ofs, (∀ src, src ∈ srcs → psql_physical.Name src ≠ ofs) →
            targets j !! ofs = targets j0 !! ofs
            ∧ TargetMetrics j !! ofs = TargetMetrics j0 !! ofs)
  ∧ (∀ src, last_named srcs src →
       TargetMetrics j !! psql_physical.Name src = Some ∅
       ∧ ∃ tgt, targets j !! psql_physical.Name src = Some tgt
                ∧ psql_physical.extraKeys tgt = psql_physical.ExtraKeys src
                ∧ psql_physical.gzip tgt = psql_physical.Gzip src
                ∧ psql_physical.connUrl tgt
                  = psql_physical.GetConnUrl c
                      match strings.Split (psql_physical.User (psql_physical.ConnectParams src)) "@" with
                      | u :: d :: _ =>
                          {| psql_physical.User := u; psql_physical.Database := d;
                             psql_physical.rest :=
                               psql_physical.rest (psql_physical.ConnectParams src) |}
                      | _ => psql_physical.ConnectParams src
                      end).
Proof.
  revert j0 w. induction srcs as [|s srcs IH]; intros j0 w Hrun; simpl in Hrun.
  - injection Hrun as <- <- _. split; [done|]. split; [done|]. split; [done|].
    intros src (pre & post & Hnil & _). by destruct pre.
  - destruct (existsb _ _); [done|].
    destruct (psql_physical.GetConnect c _ w) as [[err|] w1]; [done|].
    destruct (psql_physical.Ping c _ w1) as [[err|] w2]; [done|].
    apply IH in Hrun as (He & Hd & Hother & Hlast). simpl in *.
    split; [done|]. split; [done|]. split.
    + intros ofs Hofs. destruct (Hother ofs) as [Ht Hm].
      { intros src Hsrc. apply Hofs. by right. }
      assert (Hne : psql_physical.Name s ≠ ofs) by (apply Hofs; by left).
      rewrite Ht, Hm. by rewrite !lookup_insert_ne.
    + intros src (pre & post & Hsplit & Hpost). destruct pre as [|s' pre].
      * injection Hsplit as -> ->. destruct (Hother (psql_physical.Name src)) as [Ht Hm].
        { intros s' Hs'. by apply (proj1 (Forall_forall _ _) Hpost). }
        rewrite Ht, Hm, !lookup_insert_eq. split; [done|]. by eexists.
      * injection Hsplit as -> ->. apply Hlast. by exists pre, post.
Qed.

(** X19.  A job that [Init] returns has exactly one target for each name among
    the sources, with an empty metrics shell and no dump object.  Of the
    sources of one name the last one makes the target: its extra keys,
    its gzip flag, and its connection, where a user of the form
    [user@database] connects as [user] to [database]. *)
Theorem Init_makes_the_targets_of_the_sources (jp : psql_physical.JobParams) (w w' : W)
    (j : job psql_physical.target) (e : option error) :
  psql_physical.Init x c jp w = (Some j, e, w') →
  e = None ∧ dumpedObjects j = ∅
  ∧ (∀ ofs, is_Some (targets j !! ofs)
            ↔ ∃ src, src ∈ psql_physical.Sources jp ∧ psql_physical.Name src = ofs)
  ∧ (∀ ofs, is_Some (targets j !! ofs) ↔ TargetMetrics j !! ofs = Some ∅)
  ∧ (∀ src, last_named (psql_physical.Sources jp) src →
       ∃ tgt, targets j !! psql_physical.Name src = Some tgt
              ∧ psql_physical.extraKeys tgt = psql_physical.ExtraKeys src
              ∧ psql_physical.gzip tgt = psql_physical.Gzip src
              ∧ (contains "@" (psql_physical.User (psql_physical.ConnectParams src)) = false →
                 psql_physical.connUrl tgt
                 = psql_physical.GetConnUrl c (psql_physical.ConnectParams src))
              ∧ (∀ u d, psql_physical.User (psql_physical.ConnectParams src)
                        = u +:+ "@" +:+ d →
                        contains "@" u = false → contains "@" d = false →
                        psql_physical.connUrl tgt
                        = psql_physical.GetConnUrl c
                            {| psql_physical.User := u; psql_physical.Database := d;
                               psql_physical.rest :=
                                 psql_physical.rest (psql_physical.ConnectParams src) |})).
Proof.
  unfold psql_physical.Init.
  destruct (Exec x "pg_basebackup" ["--version"] w) as [[err|] w1]; [done|].
  destruct (Exec x "tar" ["--version"] w1) as [[err|] w2]; [done|].
  intros (He & Hd & Hother & Hlast)%init_sources_targets. simpl in *.
  split; [done|]. split; [done|].
  assert (Hdom : ∀ ofs, is_Some (targets j !! ofs)
            ↔ ∃ src, src ∈ psql_physical.Sources jp ∧ psql_physical.Name src = ofs).
  { intros ofs. split.
    - intros Hsome.
      destruct (named_or_not (psql_physical.Sources jp) ofs) as [Hex|Hnot]; [done|].
      destruct (Hother ofs Hnot) as [Ht _].
      rewrite Ht, lookup_empty in Hsome. by destruct Hsome.
    - intros (src & [Hl <-])%last_occurrence.
      destruct (Hlast src Hl) as (_ & tgt & -> & _). by eexists. }
  split; [done|]. split.
  { intros ofs. rewrite Hdom. split.
    - intros (src & [Hl <-])%last_occurrence. by destruct (Hlast src Hl) as [? _].
    - intros Hm.
      destruct (named_or_not (psql_physical.Sources jp) ofs) as [Hex|Hnot]; [done|].
      destruct (Hother ofs Hnot) as [_ Hm'].
      by rewrite Hm', lookup_empty in Hm. }
  intros src Hl. destruct (Hlast src Hl) as (_ & tgt & Ht & Hk & Hg & Hurl).
  exists tgt. split; [done|]. split; [done|]. split; [done|]. split.
  - intros Hno. rewrite Hurl. by rewrite Split_whole.
  - intros u d Huser Hu Hd'. rewrite Hurl, Huser.
    change (u +:+ "@" +:+ d) with (u +:+ String "@" d).
    rewrite Split_at by done. by rewrite Split_whole.
Qed.

End Sources.

Lemma Init_makes_the_targets_of_the_sources_witness :
  let j := default (two_databases false)
             (psql_physical.Init plain_commands plain_connect two_sources 0%nat).1.1 in
  ∃ tgt, targets j !! "replica" = Some tgt
         ∧ psql_physical.connUrl tgt = "backup@shop".
Proof.
  intros j.
  destruct (Init_makes_the_targets_of_the_sources plain_commands plain_connect two_sources
              0%nat 0%nat j None) as (_ & _ & _ & _ & Hlast); [vm_compute; reflexivity|].
  destruct (Hlast {| psql_physical.Name := "replica";
                     psql_physical.ConnectParams :=
                       {| psql_physical.User := "backup@shop"; psql_physical.Database := "";
                          psql_physical.rest := "" |};
                     psql_physical.ExtraKeys := [];
                     psql_physical.Gzip := false; psql_physical.IsSlave := true |})
    as (tgt & Ht & _ & _ & _ & Hurl).
  { eexists [_], []. split; [reflexivity|constructor]. }
  exists tgt. split; [exact Ht|].
  exact (Hurl "backup" "shop" eq_refl eq_refl eq_refl).
Defined.

(** ** From [Init] to [DoBackup] *)

(** X20.  A job that [Init] returned can be run: [DoBackup] writes the metrics
    of each target into the shell that [Init] made for it, so no write
    goes to a nil map and the run returns, with the errors it met (the
    host is taken to keep an artifact it made, and the storages to act on
    dump objects only). *)
Theorem job_of_Init_runs `{Runtime} {W} (y : System psql_physical.target W)
    (x : Commands W) (c : psql_physical.Connect W) (jp : psql_physical.JobParams)
    (w w1 w2 : W) (j : job psql_physical.target) (e : option error) (tmpDir : string) :
  psql_physical.Init x c jp w = (Some j, e, w1) →
  artifacts_stay (psql_physical_Host y x) →
  delivery_on_dumps (psql_physical_Host y x) →
  ∃ e' r, psql_physical_DoBackup y x j tmpDir w2 = Returned (e', r)
          ∧ e' = ErrorOrNil (run_errs r).
Proof.
  intros Hinit Hstay Hdumps. apply Init_registered in Hinit.
  destruct (DoBackup_spec (psql_physical_Host y x) j tmpDir w2 Hinit Hstay Hdumps)
    as (e' & r & steps & Hrun & He & _).
  by exists e', r.
Qed.

Lemma job_of_Init_runs_witness :
  ∃ e' r, psql_physical_DoBackup (H := stable_runtime) (plain_system _) plain_commands
            (default (two_databases false)
               (psql_physical.Init plain_commands plain_connect two_sources 0%nat).1.1)
            "/tmp" 0%nat = Returned (e', r)
          ∧ e' = ErrorOrNil (run_errs r).
Proof.
  apply (job_of_Init_runs (H := stable_runtime) (plain_system _) plain_commands
           plain_connect two_sources 0%nat 0%nat 0%nat _ None "/tmp").
  - vm_compute. reflexivity.
  - apply plain_artifacts_stay.
  - apply plain_delivery_on_dumps.
Defined.

(** ** Candidates without links *)

Lemma reconcile_unlinked (ls : smb.Links) (todo : list (string * option nat))
    (errs : list error) (sh : Share) :
  (∀ file p, (file, p) ∈ todo →
     ∃ i, p = Some i ∧ smb.cells ls !! i = Some {| smb.wLink := ""; smb.dLink := "" |}) →
  ∃ errs' sh', smb.reconcile ls todo errs sh = (Returned errs', sh')
               ∧ asked sh' = asked sh ++ (Remove_ <$> todo.*1).
Proof.
  revert errs sh. induction todo as [|[file ptr] todo IH]; intros errs sh Hplain; simpl.
  - eexists _, _. split; [done|]. by rewrite app_nil_r.
  - destruct (Hplain file ptr) as (i & -> & Hcell); [by left|].
    unfold smb.reconcile_one. simpl. rewrite Hcell.
    unfold smb.weekly, smb.daily, smb.unlink. simpl.
    pose proof (mutate_asked (Remove_ file) sh) as Hask. unfold share.Remove.
    destruct (share.mutate (Remove_ file) sh) as [e sh1]. simpl in *.
    destruct (IH (noted errs e) sh1) as (errs' & sh' & Hrun & Hask').
    { intros f p Hin. apply (Hplain f p). by right. }
    exists errs', sh'. split; [done|]. by rewrite Hask', Hask, <- app_assoc.
Qed.

(** X21.  A candidate to which no weekly and no daily symlink points is
    removed by one [Remove], and nothing else is asked for it; a pass
    over such candidates goes through all of them, in the order of
    [range], whatever the removals return. *)
Theorem unlinked_candidates_are_removed (ls : smb.Links)
    (todo : list (string * option nat)) (errs : list error) (sh : Share) :
  (∀ file p, (file, p) ∈ todo →
     ∃ i, p = Some i ∧ smb.cells ls !! i = Some {| smb.wLink := ""; smb.dLink := "" |}) →
  ∃ errs' sh', smb.reconcile ls todo errs sh = (Returned errs', sh')
               ∧ asked sh' = asked sh ++ (Remove_ <$> todo.*1).
Proof. apply reconcile_unlinked. Qed.

Lemma unlinked_candidates_are_removed_witness :
  ∃ errs' sh',
    smb.reconcile
      {| smb.cells := [{| smb.wLink := ""; smb.dLink := "" |}];
         smb.filesMap := ∅; smb.filesToDeleteMap := ∅ |}
      [("backups/db/monthly/a.tar", Some 0%nat); ("backups/db/monthly/b.tar", Some 0%nat)]
      [] (drops 0 three_monthly) = (Returned errs', sh')
    ∧ asked sh' = asked (drops 0 three_monthly)
                  ++ (Remove_ <$> [("backups/db/monthly/a.tar", Some 0%nat);
                                   ("backups/db/monthly/b.tar", Some 0%nat)].*1).
Proof.
  apply (unlinked_candidates_are_removed
           {| smb.cells := [{| smb.wLink := ""; smb.dLink := "" |}];
              smb.filesMap := ∅; smb.filesToDeleteMap := ∅ |}
           [("backups/db/monthly/a.tar", Some 0%nat); ("backups/db/monthly/b.tar", Some 0%nat)]
           [] (drops 0 three_monthly)).
  intros file p Hin. exists 0%nat.
  apply elem_of_cons in Hin as [[= -> ->]|Hin]; [done|].
  apply elem_of_cons in Hin as [[= -> ->]|Hin]; [done|].
  by apply elem_of_nil in Hin.
Defined.

(** ** The listing of the backups *)

Lemma listFiles_reads dstPath sh :
  nodes (smb.listFiles dstPath sh).2 = nodes sh
  ∧ journal (smb.listFiles dstPath sh).2 = journal sh.
Proof.
  unfold smb.listFiles. pose proof (ReadDir_nodes dstPath sh) as [Hn _].
  pose proof (ReadDir_journal dstPath sh) as Hj.
  destruct (share.ReadDir dstPath sh) as [[err|l] sh1]; [|done].
  by destruct (IsNotExist err).
Qed.

Lemma walk_reads sub base l paths sh r sh' :
  (∀ b fl sh0 r0 sh1, sub b fl sh0 = Some (r0, sh1) →
                      nodes sh1 = nodes sh0 ∧ journal sh1 = journal sh0) →
  smb.walk sub base l paths sh = Some (r, sh') →
  nodes sh' = nodes sh ∧ journal sh' = journal sh.
Proof.
  intros Hsub. revert paths sh. induction l as [|file rest IH]; intros paths sh; simpl.
  - by intros [= _ <-].
  - destruct (negb (IsDir file)); [apply IH|].
    pose proof (listFiles_reads (path.Join [base; Name file]) sh) as [Hn Hj].
    destruct (smb.listFiles _ sh) as [[err|fl] sh1]; simpl in *.
    + intros [= _ <-]. done.
    + destruct (sub _ fl sh1) as [[[err|subPaths] sh2]|] eqn:Hs; [| |done].
      * intros [= _ <-]. apply Hsub in Hs as [-> ->]. done.
      * intros Hrest. apply IH in Hrest as [-> ->]. apply Hsub in Hs as [-> ->]. done.
Qed.

Lemma listPaths_reads fuel base l sh r sh' :
  smb.listPaths fuel base l sh = Some (r, sh') →
  nodes sh' = nodes sh ∧ journal sh' = journal sh.
Proof.
  revert base l sh r sh'. induction fuel as [|fuel IH]; intros base l sh r sh'; simpl;
    [done|].
  apply walk_reads. intros b fl sh0 r0 sh1. apply IH.
Qed.

(** X22.  A listing reads and never writes: when [ListBackups] returns, a list
    or an error, it has asked for no mutation and the tree of the share
    is as before. *)
Theorem listing_changes_nothing (fuel : nat) (s : smb.SMB) (ofsPath : string)
    (sh sh' : Share) (r : error + list string) :
  smb.ListBackups fuel s ofsPath sh = Some (r, sh') →
  nodes sh' = nodes sh ∧ journal sh' = journal sh.
Proof.
  unfold smb.ListBackups.
  pose proof (listFiles_reads (path.Join [smb.backupPath s; ofsPath]) sh) as [Hn Hj].
  destruct (smb.listFiles _ sh) as [[err|fl] sh1]; simpl in *.
  - by intros [= _ <-].
  - intros [-> ->]%listPaths_reads. done.
Qed.

Lemma listing_changes_nothing_witness :
  nodes (default (inl (ErrLocal ""), reliable [])
           (smb.ListBackups 5 (nas (months_retention 1)) "srv" (reliable two_years))).2
  = nodes (reliable two_years)
  ∧ journal (default (inl (ErrLocal ""), reliable [])
               (smb.ListBackups 5 (nas (months_retention 1)) "srv" (reliable two_years))).2
    = journal (reliable two_years).
Proof.
  apply (listing_changes_nothing 5 (nas (months_retention 1)) "srv" (reliable two_years) _
           (default (inl (ErrLocal ""), reliable [])
              (smb.ListBackups 5 (nas (months_retention 1)) "srv" (reliable two_years))).1).
  vm_compute. reflexivity.
Defined.

Lemma walk_flat sub base l paths sh :
  Forall (fun f => IsDir f = false) l →
  smb.walk sub base l paths sh
  = Some (inr (paths ++ ((fun f => path.Join [base; Name f]) <$> l)), sh).
Proof.
  intros Hflat. revert paths. induction Hflat as [|file rest Hfile _ IH]; intros paths; simpl.
  - by rewrite app_nil_r.
  - rewrite Hfile. simpl. by rewrite IH, <- app_assoc.
Qed.

(** X23.  The listing of a directory that holds no directory returns whatever
    the depth allowed: the paths of all its entries, files and symlinks,
    in the order in which the server lists them, after one call to the
    share. *)
Theorem flat_directory_is_listed_in_order (fuel : nat) (s : smb.SMB) (ofsPath : string)
    (sh sh1 : Share) (fl : list FileInfo) :
  let bPath := path.Join [smb.backupPath s; ofsPath] in
  share.ReadDir bPath sh = (inr fl, sh1) →
  Forall (fun f => IsDir f = false) fl →
  smb.ListBackups (S fuel) s ofsPath sh
  = Some (inr ((fun f => path.Join [bPath; Name f]) <$> fl), sh1).
Proof.
  intros bPath Hread Hflat. unfold smb.ListBackups, smb.listFiles. fold bPath.
  rewrite Hread. simpl. by rewrite walk_flat.
Qed.

Lemma flat_directory_is_listed_in_order_witness :
  smb.ListBackups 1 (nas (count_retention 1 1 1)) "db/monthly" (reliable three_monthly)
  = Some (inr ((fun f => path.Join [path.Join ["backups"; "db/monthly"]; Name f])
                 <$> share.entries "backups/db/monthly" three_monthly),
          (share.ReadDir "backups/db/monthly" (reliable three_monthly)).2).
Proof.
  apply (flat_directory_is_listed_in_order 0 (nas (count_retention 1 1 1)) "db/monthly"
           (reliable three_monthly)).
  - vm_compute. reflexivity.
  - vm_compute. repeat constructor.
Defined.

(** X24.  The listing of a directory that is not on the share returns an error
    made anew from the path: [os.IsNotExist] does not hold of it, though
    it held of the error of the share. *)
Theorem listing_a_missing_directory (fuel : nat) (s : smb.SMB) (ofsPath : string)
    (sh : Share) :
  let bPath := path.Join [smb.backupPath s; ofsPath] in
  faults sh (calls sh) = false →
  share.lookup bPath (nodes sh) = None →
  ∃ err sh', smb.ListBackups fuel s ofsPath sh = Some (inl err, sh')
             ∧ IsNotExist err = false
             ∧ (∃ cause, (share.ReadDir bPath sh).1 = inl cause ∧ IsNotExist cause = true).
Proof.
  intros bPath Hfine Hmiss. unfold smb.ListBackups, smb.listFiles. fold bPath.
  unfold share.ReadDir. rewrite Hfine, Hmiss. simpl. eexists _, _.
  split; [done|]. split; [done|]. by eexists.
Qed.

Lemma listing_a_missing_directory_witness :
  ∃ err sh', smb.ListBackups 0 (nas (count_retention 1 1 1)) "mail" (reliable three_monthly)
             = Some (inl err, sh')
             ∧ IsNotExist err = false
             ∧ (∃ cause, (share.ReadDir (path.Join ["backups"; "mail"])
                            (reliable three_monthly)).1 = inl cause
                         ∧ IsNotExist cause = true).
Proof.
  apply (listing_a_missing_directory 0 (nas (count_retention 1 1 1)) "mail"
           (reliable three_monthly)); reflexivity.
Defined.

(** The listing of the incremental backups of two years, computed: the
    directories are followed to the one file below them. *)
Example two_years_listed :
  (default (inl (ErrLocal ""), reliable [])
     (smb.ListBackups 5 (nas (months_retention 1)) "srv" (reliable two_years))).1
  = inr ["backups/srv/year_2024/month_01/day_01/init.tar"].
Proof. vm_compute. reflexivity. Qed.

(** ** The dump objects of a run *)

(** X25.  The storages deliver what the dump objects of the job name.
    After a run of [DoBackup], and already when the last delivery is
    asked for, the artifact that the turn of a target made (as the host
    records it) is among them, under the name of the target and with the
    path of the temp file, whatever the deliveries did since; and for a
    target whose turn made no artifact the job holds what it held before
    the run: the same temp file, or nothing when it held nothing. *)
Theorem artifacts_become_dump_objects `{Runtime} {target W} (h : Host target W)
    (j : job target) (tmpDir : string) (w : W) (l0 : list (Asked target W)) :
  registered j → artifacts_stay h → delivery_on_dumps h →
  ∃ e r steps jl wl el csl,
    DoBackup (recording h) j tmpDir (w, l0) = Returned (e, r)
    ∧ DoBackup h j tmpDir w = Returned (e, unrecorded r)
    ∧ record_of r = l0 ++ concat steps ++ [AskedDelivery jl wl el csl (run_host r).1]
    ∧ turns h tmpDir (deferredCopying j) (range_map (targets j)) w steps wl
    ∧ Forall2 (fun x st => turn_dumps h j jl x.1 st ∧ turn_dumps h j (run_job r) x.1 st)
        (range_map (targets j)) steps.
Proof.
  intros Hreg Hstay Hdumps.
  destruct (DoBackup_recorded h j tmpDir w l0 Hreg Hstay Hdumps)
    as (e & r & steps & jl & wl & el & csl & Hrun & Hsim & _ & Hrec & _ & Hturns & Hd & _).
  by exists e, r, steps, jl, wl, el, csl.
Qed.

Lemma artifacts_become_dump_objects_witness :
  ∃ e r steps jl wl el csl,
    DoBackup (H := stable_runtime) (recording plain_host) (two_databases false) "/tmp"
      (0%nat, []) = Returned (e, r)
    ∧ DoBackup (H := stable_runtime) plain_host (two_databases false) "/tmp" 0%nat
      = Returned (e, unrecorded r)
    ∧ record_of r = [] ++ concat steps ++ [AskedDelivery jl wl el csl (run_host r).1]
    ∧ turns plain_host "/tmp" (deferredCopying (two_databases false))
        (range_map (Runtime := stable_runtime) (targets (two_databases false))) 0%nat
        steps wl
    ∧ Forall2 (fun x st => turn_dumps plain_host (two_databases false) jl x.1 st
                           ∧ turn_dumps plain_host (two_databases false) (run_job r) x.1 st)
        (range_map (Runtime := stable_runtime) (targets (two_databases false))) steps.
Proof.
  apply (artifacts_become_dump_objects (H := stable_runtime) plain_host
           (two_databases false) "/tmp" 0%nat []).
  - apply two_databases_registered.
  - apply plain_artifacts_stay.
  - apply plain_delivery_on_dumps.
Defined.

(** ** A target without its metrics *)

Section Shells.
Context {target W : Type} (h : Host target W).

Lemma SetOfsMetrics_shells (j j' : job target) ofs mm k :
  SetOfsMetrics j ofs mm = Returned j' →
  TargetMetrics j !! k = None → TargetMetrics j' !! k = None.
Proof.
  unfold SetOfsMetrics. destruct mm; [by intros [= <-]|].
  destruct (TargetMetrics j !! ofs) eqn:Hofs; [|done]. intros [= <-] Hk. simpl.
  rewrite lookup_insert_ne; [done|]. intros ->. by rewrite Hofs in Hk.
Qed.

Lemma apply_calls_shells (j j' : job target) cs k :
  apply_calls j cs = Returned j' →
  TargetMetrics j !! k = None → TargetMetrics j' !! k = None.
Proof.
  revert j. induction cs as [|c cs IH]; intros j; simpl; [by intros [= <-]|].
  destruct (apply_call j c) as [j1|] eqn:Hone; [|done]. intros Hrest Hk.
  apply (IH j1 Hrest). destruct c as [ofs mm|ofs]; simpl in Hone.
  - by eapply SetOfsMetrics_shells.
  - by injection Hone as <-.
Qed.

Lemma deliver_shells (r r' : Run target W) k :
  deliver h r = Returned r' →
  TargetMetrics (run_job r) !! k = None → TargetMetrics (run_job r') !! k = None.
Proof.
  unfold deliver. destruct (storages_Delivery h _ _) as [[e cs] w].
  destruct (apply_calls (run_job r) cs) as [j|] eqn:Hcalls; [|done].
  intros [= <-]. simpl. by eapply apply_calls_shells.
Qed.

Lemma backup_target_shells tmpDir ofs tgt (r r' : Run target W) k :
  backup_target h tmpDir ofs tgt r = Returned r' →
  TargetMetrics (run_job r) !! k = None → TargetMetrics (run_job r') !! k = None.
Proof.
  unfold backup_target. intros Hrun Hk.
  destruct (SetOfsMetrics (run_job r) ofs _) as [j1|] eqn:H1; [|done].
  apply (SetOfsMetrics_shells _ _ _ _ k) in H1; [|done].
  destruct (os_MkdirAll h _ (run_host r)) as [[err|] w1]; [by injection Hrun as <-|].
  destruct (createTmpBackup h j1 _ ofs tgt w1) as [[err|] w2].
  { destruct (SetOfsMetrics j1 ofs _) as [j2|] eqn:H2; [|done].
    injection Hrun as <-. simpl. by eapply SetOfsMetrics_shells. }
  destruct (os_Stat h _ w2) as [size|]; [|done].
  destruct (SetOfsMetrics j1 ofs _) as [j2|] eqn:H2; [|done].
  apply (SetOfsMetrics_shells _ _ _ _ k) in H2; [|done].
  destruct (negb _); [|by injection Hrun as <-].
  by apply (deliver_shells _ _ k) in Hrun.
Qed.

Lemma backup_targets_without_shell tmpDir todo (r : Run target W) ofs tgt :
  (ofs, tgt) ∈ todo → TargetMetrics (run_job r) !! ofs = None →
  backup_targets h tmpDir todo r = Panicked.
Proof.
  revert r. induction todo as [|[o t] todo IH]; intros r Hin Hk; [by apply elem_of_nil in Hin|].
  simpl. apply elem_of_cons in Hin as [[= <- <-]|Hin].
  - unfold backup_target, SetOfsMetrics. by rewrite Hk.
  - destruct (backup_target h tmpDir o t r) as [r1|] eqn:Hone; [|done].
    apply IH; [done|]. by eapply backup_target_shells.
Qed.

End Shells.

(** X26.  [DoBackup] writes the metrics of a target into the map that [Init]
    made for it.  When some target of the job has no such map the write
    goes to a nil map: the run panics, whatever the other targets are and
    whatever the host does. *)
Theorem target_without_metrics_stops_the_run `{Runtime} {target W} (h : Host target W)
    (j : job target) (tmpDir : string) (w : W) (ofs : string) :
  is_Some (targets j !! ofs) → TargetMetrics j !! ofs = None →
  DoBackup h j tmpDir w = Panicked.
Proof.
  intros [tgt Htgt] Hk. unfold DoBackup.
  rewrite (backup_targets_without_shell h tmpDir _ _ ofs tgt); [done| |done].
  rewrite range_map_perm. by apply elem_of_map_to_list.
Qed.

Lemma target_without_metrics_stops_the_run_witness :
  DoBackup (H := stable_runtime) plain_host
    (with_metrics (two_databases false) {[ "main" := ∅ ]}) "/tmp" 0%nat = Panicked.
Proof.
  apply (target_without_metrics_stops_the_run (H := stable_runtime) plain_host
           (with_metrics (two_databases false) {[ "main" := ∅ ]}) "/tmp" 0%nat "replica").
  - vm_compute. by eexists.
  - vm_compute. reflexivity.
Defined.

(** ** The rotation of a bucket of plain files *)

Lemma collect_skip `{Runtime} s ofsPart safety p periods ls errs sh :
  bucket (smb.retention s) p = (0, 0) →
  smb.collect s ofsPart safety (p :: periods) ls errs sh
  = smb.collect s ofsPart safety periods ls errs sh.
Proof. intros Hno. simpl. unfold GetRetention. by rewrite Hno. Qed.

Lemma collect_unused_among `{Runtime} s ofsPart safety periods ls errs sh :
  (∀ p, p ∈ periods → bucket (smb.retention s) p = (0, 0)) →
  smb.collect s ofsPart safety periods ls errs sh = (Returned (inr (ls, errs)), sh).
Proof.
  induction periods as [|p ps IH]; intros Hno; [done|].
  rewrite collect_skip by (apply Hno; by left). apply IH. intros q Hq. apply Hno. by right.
Qed.

Lemma collect_one `{Runtime} s ofsPart safety p0 periods ls errs sh files sh1 ls1 errs1 sh2 old :
  NoDup periods → p0 ∈ periods → only_bucket (smb.retention s) p0 →
  share.ReadDir (bucket_dir s ofsPart p0) sh = (inr files, sh1) →
  smb.scan p0 (bucket_dir s ofsPart p0) files ls errs sh1 = (ls1, errs1, sh2) →
  smb.outdated (UseCount (smb.retention s)) safety (bucket (smb.retention s) p0).1
    (bucket (smb.retention s) p0).2 files = Returned old →
  smb.collect s ofsPart safety periods ls errs sh
  = (Returned (inr (smb.mark (bucket_dir s ofsPart p0) old ls1, errs1)), sh2).
Proof.
  intros Hnd Hin [Hothers Hused] Hread Hscan Hold.
  induction periods as [|p ps IH]; [by apply elem_of_nil in Hin|].
  apply NoDup_cons in Hnd as [Hfresh Hnd].
  destruct (decide (p = p0)) as [->|Hne].
  - simpl. unfold GetRetention. destruct (bucket (smb.retention s) p0) as [rc rd].
    simpl in Hused, Hold. rewrite Hused. fold (bucket_dir s ofsPart p0).
    rewrite Hread, Hscan, Hold. apply collect_unused_among.
    intros q Hq. apply Hothers. intros ->. done.
  - rewrite collect_skip by (by apply Hothers). apply IH; [done|].
    apply elem_of_cons in Hin as [->|Hin]; done.
Qed.

Lemma scan_plain p bakDir files ls errs sh :
  Forall (fun f => IsSymlink f = false) files →
  ∃ ls', smb.scan p bakDir files ls errs sh = (ls', errs, sh)
         ∧ ∃ n, smb.cells ls' = smb.cells ls ++ replicate n {| smb.wLink := ""; smb.dLink := "" |}.
Proof.
  intros Hplain. revert ls. induction Hplain as [|f files Hf _ IH]; intros ls; simpl.
  - exists ls. split; [done|]. exists 0%nat. by rewrite app_nil_r.
  - rewrite Hf. destruct (IH {| smb.cells := smb.cells ls ++ [{| smb.wLink := ""; smb.dLink := "" |}];
                                smb.filesMap := <[path.Join [bakDir; Name f] := length (smb.cells ls)]>
                                                  (smb.filesMap ls);
                                smb.filesToDeleteMap := smb.filesToDeleteMap ls |})
      as (ls' & Hrun & n & Hcells).
    exists ls'. split; [done|]. exists (S n). simpl in Hcells. by rewrite Hcells, <- app_assoc.
Qed.

Lemma outdated_split `{Runtime} useCount safety rc rd l old :
  smb.outdated useCount safety rc rd l = Returned old → ∃ kept, old ++ kept ≡ₚ l.
Proof.
  unfold smb.outdated. destruct useCount.
  - destruct (_ <=? _).
    + destruct (_ && _); [|done]. intros [= <-]. eexists (drop _ (sort_Slice l)).
      rewrite take_drop. apply sort_Slice_perm.
    + intros [= <-]. by exists l.
  - intros [= <-]. exists (filter (fun file => ¬ ModTime file < rd) l).
    induction l as [|f l IH]; [done|]. rewrite !filter_cons.
    destruct (decide (ModTime f < rd)).
    + rewrite decide_False by tauto. simpl. by constructor.
    + rewrite decide_True by done. rewrite <- Permutation_middle. by constructor.
Qed.

Lemma mark_dom bakDir old ls k :
  Forall (fun f => Name f ≠ "." ∧ Name f ≠ "..") old →
  smb.toDel (smb.mark bakDir old ls) k = true
  ↔ smb.toDel ls k = true ∨ k ∈ entry_path bakDir <$> old.
Proof.
  intros Hnames. split.
  - intros Hk. destruct (decide (k ∈ entry_path bakDir <$> old)) as [Hin|Hout]; [by right|].
    left. by rewrite mark_other in Hk.
  - intros [Hk|Hin]; [by apply mark_toDel|].
    apply list_elem_of_fmap in Hin as (f & -> & Hf).
    apply (proj1 (Forall_forall _ _) Hnames) in Hf as Hn. destruct Hn as [Hn1 Hn2].
    by apply mark_candidates.
Qed.

Lemma plain_bucket_rotation `{Runtime} (s : smb.SMB) (ofsPart : string)
    (safety : bool) (p0 : RetentionPeriod) (sh sh1 : Share) (files old : list FileInfo) :
  let bakDir := bucket_dir s ofsPart p0 in
  only_bucket (smb.retention s) p0 →
  share.ReadDir bakDir sh = (inr files, sh1) →
  Forall plain_entry files →
  smb.outdated (UseCount (smb.retention s)) safety (bucket (smb.retention s) p0).1
    (bucket (smb.retention s) p0).2 files = Returned old →
  ∃ r sh' ls,
    smb.collect s ofsPart safety RetentionPeriodsList smb.no_links [] sh
    = (Returned (inr (ls, [])), sh1)
    ∧ smb.deleteDescBackup s ofsPart safety sh = (Returned r, sh')
    ∧ (∀ k, is_Some (smb.filesToDeleteMap ls !! k) ↔ k ∈ entry_path bakDir <$> old)
    ∧ asked sh' = asked sh ++ (Remove_ <$> (range_map (smb.filesToDeleteMap ls)).*1).
Proof.
  intros bakDir Honly Hread Hplain Hold.
  destruct (scan_plain p0 bakDir files smb.no_links [] sh1) as (ls1 & Hscan & n & Hcells).
  { eapply Forall_impl; [exact Hplain|]. by intros f [Hf _]. }
  assert (Hperiods : NoDup RetentionPeriodsList ∧ p0 ∈ RetentionPeriodsList).
  { split; [by apply (bool_decide_unpack _)|]. destruct p0; repeat constructor. }
  destruct Hperiods as [Hnd5 Hin5].
  pose proof (collect_one s ofsPart safety p0 RetentionPeriodsList smb.no_links [] sh files
                sh1 ls1 [] sh1 old Hnd5 Hin5 Honly Hread Hscan Hold) as Hcollect.
  pose proof (collect_pointers _ _ _ _ _ _ _ _ _ Hcollect) as Hvalid.
  destruct Hvalid as [_ Hptr].
  { split; simpl; intros k i Hk; by rewrite lookup_empty in Hk. }
  set (ls := smb.mark bakDir old ls1) in *.
  assert (Hls : smb.cells ls = replicate n {| smb.wLink := ""; smb.dLink := "" |}).
  { subst ls. clear -Hcells. revert ls1 Hcells.
    induction old as [|f old IH]; intros ls1 Hcells; simpl; [done|].
    destruct (_ || _); by apply IH. }
  destruct (reconcile_unlinked ls (range_map (smb.filesToDeleteMap ls)) [] sh1)
    as (errs' & sh' & Hrun & Hasked).
  { intros file p Hin. rewrite range_map_perm in Hin. apply elem_of_map_to_list in Hin.
    destruct (Hptr file p Hin) as (i & -> & Hi). exists i. split; [done|].
    assert (Hi' : (i < length (smb.cells ls))%nat) by exact Hi.
    rewrite Hls in Hi' |- *. rewrite length_replicate in Hi'. by apply lookup_replicate_2. }
  exists (ErrorOrNil errs'), sh', ls.
  split; [exact Hcollect|].
  split.
  { unfold smb.deleteDescBackup. rewrite Hcollect. cbv beta iota.
    unfold ls, bakDir in Hrun. by rewrite Hrun. }
  split.
  - destruct (outdated_split _ _ _ _ _ _ Hold) as [kept Hsplit].
    intros k. assert (Hnames : Forall (fun f => Name f ≠ "." ∧ Name f ≠ "..") old).
    { apply Forall_forall. intros f Hf.
      assert (Hin : f ∈ files) by (rewrite <- Hsplit; apply elem_of_app; by left).
      by apply (proj1 (Forall_forall _ _) Hplain) in Hin as (_ & ? & ?). }
    pose proof (mark_dom bakDir old ls1 k Hnames) as Hdom. fold ls in Hdom.
    assert (Hempty : smb.toDel ls1 k = false).
    { pose proof (scan_pointers _ _ _ _ _ _ _ _ _ Hscan) as (_ & Hdel & _).
      { intros k' i Hk'. simpl in Hk'. by rewrite lookup_empty in Hk'. }
      unfold smb.toDel. rewrite Hdel. simpl. by rewrite lookup_empty. }
    rewrite Hempty in Hdom. unfold smb.toDel in Hdom. split.
    + intros [p Hp]. rewrite Hp in Hdom. by destruct (proj1 Hdom eq_refl).
    + intros Hin. pose proof (proj2 Hdom (or_intror Hin)) as Ht.
      by destruct (smb.filesToDeleteMap ls !! k).
  - rewrite Hasked. pose proof (ReadDir_nodes bakDir sh) as [_ Hsame].
    rewrite Hread in Hsame. simpl in Hsame. by rewrite Hsame.
Qed.

Lemma outdated_returns `{Runtime} (r : Retention) (safety : bool) (p0 : RetentionPeriod)
    (files : list FileInfo) :
  (UseCount r = true → 1 <= (bucket r p0).1 <= strconv.maxInt) →
  Z.of_nat (length files) <= strconv.maxInt →
  smb.outdated (UseCount r) safety (bucket r p0).1 (bucket r p0).2 files
  = Returned (the_outdated r safety p0 files).
Proof.
  intros Hcount Hlen. unfold the_outdated. destruct (UseCount r) eqn:Hmode; [|done].
  by apply outdated_count; [apply Hcount|].
Qed.

(** X27.  End to end for a target whose only bucket in use holds plain
    entries (no symlink among them), by age or by a count of at least 1:
    the rotation returns, and what it asked of the share is one [Remove]
    for each outdated entry and nothing else, in the order in which
    [range] visits the deletion map that the loop over the buckets built,
    whose keys are exactly the paths of the outdated entries: by count all but the newest [count] (one fewer
    without the safety backup), by age those older than the date. *)
Theorem plain_bucket_loses_the_outdated `{Runtime} (s : smb.SMB) (ofsPart : string)
    (safety : bool) (p0 : RetentionPeriod) (sh sh1 : Share) (files : list FileInfo) :
  let bakDir := bucket_dir s ofsPart p0 in
  only_bucket (smb.retention s) p0 →
  (UseCount (smb.retention s) = true →
   1 <= (bucket (smb.retention s) p0).1 <= strconv.maxInt) →
  share.ReadDir bakDir sh = (inr files, sh1) →
  Z.of_nat (length files) <= strconv.maxInt →
  Forall plain_entry files →
  ∃ r sh' ls,
    smb.collect s ofsPart safety RetentionPeriodsList smb.no_links [] sh
    = (Returned (inr (ls, [])), sh1)
    ∧ smb.deleteDescBackup s ofsPart safety sh = (Returned r, sh')
    ∧ (∀ k, is_Some (smb.filesToDeleteMap ls !! k)
            ↔ k ∈ entry_path bakDir <$> the_outdated (smb.retention s) safety p0 files)
    ∧ asked sh' = asked sh ++ (Remove_ <$> (range_map (smb.filesToDeleteMap ls)).*1).
Proof.
  intros bakDir Honly Hcount Hread Hlen Hplain.
  apply (plain_bucket_rotation s ofsPart safety p0 sh sh1 files
           (the_outdated (smb.retention s) safety p0 files)); try done.
  by apply outdated_returns.
Qed.

Lemma plain_bucket_loses_the_outdated_witness :
  ∃ r sh' ls,
    smb.collect (H := stable_runtime) (nas (count_retention 2 0 0)) "db" false
      RetentionPeriodsList smb.no_links [] (reliable three_monthly)
    = (Returned (inr (ls, [])),
       (share.ReadDir "backups/db/monthly" (reliable three_monthly)).2)
    ∧ smb.deleteDescBackup (H := stable_runtime) (nas (count_retention 2 0 0)) "db" false
        (reliable three_monthly) = (Returned r, sh')
    ∧ (∀ k, is_Some (smb.filesToDeleteMap ls !! k)
            ↔ k ∈ entry_path (bucket_dir (nas (count_retention 2 0 0)) "db" Monthly)
                    <$> the_outdated (H := stable_runtime) (count_retention 2 0 0) false
                          Monthly (share.entries "backups/db/monthly" three_monthly))
    ∧ asked sh' = asked (reliable three_monthly)
                  ++ (Remove_ <$> (range_map (Runtime := stable_runtime)
                                     (smb.filesToDeleteMap ls)).*1).
Proof.
  apply (plain_bucket_loses_the_outdated (H := stable_runtime)
           (nas (count_retention 2 0 0)) "db" false Monthly (reliable three_monthly)
           (share.ReadDir "backups/db/monthly" (reliable three_monthly)).2
           (share.entries "backups/db/monthly" three_monthly)).
  - split; [|reflexivity]. intros [] Hne; try reflexivity. by destruct Hne.
  - intros _. vm_compute. split; discriminate.
  - vm_compute. reflexivity.
  - vm_compute. discriminate.
  - vm_compute. repeat (constructor; [repeat split; (reflexivity || discriminate)|]).
    constructor.
Defined.

(** ** Where a delivery uploads *)

(** X28.  Every file that a delivery creates or writes is the destination of
    the artifact: the sidecar of an incremental backup is uploaded there
    as well, and the metadata destination that the resolver returned is
    never created. *)
Theorem delivery_uploads_to_the_artifact_only `{Runtime} `{smb.Resolvers}
    (local : gmap string string) (s : smb.SMB) (tmpBackupFile ofs bakType : string)
    (sh : Share) :
  let r := resolved s tmpBackupFile ofs bakType in
  ∃ g, asked (smb.DeliveryBackup local s tmpBackupFile ofs bakType sh).2 = asked sh ++ g
       ∧ Forall (uploads_to (smb.bakDstPath r)) g
       ∧ (smb.mtdDstPath r ≠ smb.bakDstPath r →
          Create_ (smb.mtdDstPath r) ∉ g).
Proof.
  intros r.
  assert (Hmain : ∃ g, asked (smb.DeliveryBackup local s tmpBackupFile ofs bakType sh).2
                       = asked sh ++ g ∧ Forall (uploads_to (smb.bakDstPath r)) g).
  { unfold smb.DeliveryBackup. fold (resolved s tmpBackupFile ofs bakType). fold r.
    destruct (smb.resolve_err r); [exists []; by rewrite app_nil_r|].
    assert (Hmeta : ∃ g, asked ((if negb (String.eqb (smb.mtdDstPath r) "")
                                 then smb.copy local (tmpBackupFile +:+ ".inc") (smb.bakDstPath r) sh
                                 else (None, sh)).2) = asked sh ++ g
                         ∧ Forall (uploads_to (smb.bakDstPath r)) g).
    { destruct (negb _); [apply copy_asked|]. exists []. by rewrite app_nil_r. }
    destruct Hmeta as (g1 & H1 & Hup1).
    destruct (if negb (String.eqb (smb.mtdDstPath r) "") then _ else _) as [[e1|] sh1];
      simpl in H1; [by exists g1|].
    destruct (copy_asked local tmpBackupFile (smb.bakDstPath r) sh1) as (g2 & H2 & Hup2).
    destruct (smb.copy local tmpBackupFile (smb.bakDstPath r) sh1) as [[e2|] sh2];
      simpl in H2.
    { exists (g1 ++ g2). split; [simpl; by rewrite H2, H1, <- app_assoc|].
      by apply Forall_app. }
    destruct (make_links_asked (range_map (smb.links r)) sh2 (smb.bakDstPath r))
      as (g3 & H3 & Hup3).
    exists (g1 ++ g2 ++ g3). split; [|by repeat (apply Forall_app; split)].
    destruct (smb.make_links _ sh2) as [e3 sh3]. simpl in *.
    by rewrite H3, H2, H1, <- !app_assoc. }
  destruct Hmain as (g & Hg & Hup). exists g. split; [done|]. split; [done|].
  intros Hne Hin. apply (proj1 (Forall_forall _ _) Hup) in Hin. simpl in Hin. done.
Qed.
